(** * The ltsv_log input plugin of telegraf: a shallow embedding

    Source: [plugins/inputs/ltsv_log/ltsv_log.go].

    The plugin tails one log file written in LTSV (tab separated
    [label:value] terms), turns every line into a metric point and hands
    the point to an accumulator.  The file follows the Go source function
    by function.  Go values are represented as follows:

    - [string] is a byte sequence: Rocq's [string] (a list of [ascii]);
    - [int64] is a [Z] kept in range by [wrap64];
    - [map[string]T] is [gmap string T];
    - a function that can panic returns an [outcome];
    - a method with a pointer receiver takes the receiver and returns the
      updated one;
    - [float64] is Rocq's primitive binary64 [float].

    What the plugin calls but does not define (the operating system, and
    the packages [strconv], [strings], [time], [bufio] of the Go
    distribution) is modelled in the modules that come first. *)

From Stdlib Require Import ZArith Ascii String DecimalString Lia.
From Stdlib Require Import Floats.PrimFloat.
From stdpp Require Import gmap strings list.

Open Scope string_scope.
Open Scope Z_scope.

(** ** Go basics *)

Definition byte := ascii.

(** [int64] arithmetic wraps around. *)
Definition wrap64 (z : Z) : Z := (z + 2 ^ 63) mod 2 ^ 64 - 2 ^ 63.

(** [len(s)] of a string, as an [int]. *)
Definition len (s : string) : Z := Z.of_nat (String.length s).

(** The error values that reach the plugin. *)
Inductive error : Type :=
| ErrSyntax (fn num : string)      (* strconv.NumError, strconv.ErrSyntax *)
| ErrRange (fn num : string)       (* strconv.NumError, strconv.ErrRange *)
| ErrParseTime (layout value : string) (* *time.ParseError *)
| ErrNotExist (op path : string)   (* *os.PathError, ENOENT *)
| ErrPermission (op path : string) (* *os.PathError, EACCES *)
| ErrInvalid                       (* os.ErrInvalid: nil *os.File *)
| ErrClosed                        (* read or close of a closed file *)
| EOF                              (* io.EOF *)
| ErrTooLong                       (* bufio.ErrTooLong *)
| ErrNoProgress.                   (* io.ErrNoProgress *)

(** A run-time panic. *)
Inductive panic : Type :=
| IndexOutOfRange (index length : Z)
| NilDereference
| CloseOfClosedChannel
| CloseOfNilChannel.

(** How a call ends: it returns, or it panics. *)
Inductive outcome (A : Type) : Type :=
| Returned (a : A)
| Panicked (p : panic).
Arguments Returned {A} a.
Arguments Panicked {A} p.

(** [v, err := f()]: the value or the error. *)
Definition result (A : Type) : Type := A + error.

(** Statements in sequence: [x ← o; k] goes on with the value of [o],
    and a panic of [o] ends the function. *)
#[export] Instance outcome_ret : MRet outcome := @Returned.
#[export] Instance outcome_bind : MBind outcome :=
  fun A B k o =>
    match o with
    | Returned a => k a
    | Panicked p => Panicked p
    end.

(** [v, err := f(); if err != nil { return err }]: go on with the
    value, or return the error. *)
Definition orReturn {A B : Type} (v : result A) (k : A -> outcome (result B))
  : outcome (result B) :=
  match v with
  | inl a => k a
  | inr e => Returned (inr e)
  end.

Notation "x ←? v ; k" := (orReturn v (fun x => k))
  (at level 20, v at level 100, k at level 200, only parsing, right associativity).

Definition LF : byte := ascii_of_nat 10.
Definition CR : byte := ascii_of_nat 13.
Definition TAB : byte := ascii_of_nat 9.
Definition COLON : byte := ascii_of_nat 58.

(** ** Package strconv *)
Module strconv.

(** [FormatInt(i, 10)]. *)
Definition FormatInt (i : Z) : string := NilZero.string_of_int (Z.to_int i).

(** The value of a decimal digit, [None] for any other byte. *)
Definition digit (c : byte) : option Z :=
  let n := Z.of_nat (nat_of_ascii c) in
  if (48 <=? n) && (n <=? 57) then Some (n - 48) else None.

Definition maxUint64 : Z := 2 ^ 64 - 1.

(** The two causes of a [*NumError]. *)
Inductive numError : Type := Syntax | Range.

(** The loop of [ParseUint(s, 10, 64)] over the bytes of [s], [n] being
    the value read so far.  The first byte that is not a digit is a
    syntax error; the first digit that takes the value out of 64 bits
    is a range error, which returns [maxUint64]. *)
Fixpoint parseUintLoop (s : string) (n : Z) : Z * option numError :=
  match s with
  | EmptyString => (n, None)
  | String c s' =>
      match digit c with
      | None => (0, Some Syntax)
      | Some d =>
          if maxUint64 / 10 + 1 <=? n then (maxUint64, Some Range)
          else
            let n1 := n * 10 + d in
            if maxUint64 <? n1 then (maxUint64, Some Range)
            else parseUintLoop s' n1
      end
  end.

Definition ParseUint (s : string) : Z * option numError :=
  match s with
  | EmptyString => (0, Some Syntax)
  | _ => parseUintLoop s 0
  end.

(** [ParseInt(s, 10, 64)]. *)
Definition ParseInt (s0 : string) : result Z :=
  let fnParseInt := "ParseInt" in
  match s0 with
  | EmptyString => inr (ErrSyntax fnParseInt s0)
  | String c rest =>
      let '(neg, s) :=
        if Ascii.eqb c "+" then (false, rest)
        else if Ascii.eqb c "-" then (true, rest)
        else (false, s0) in
      match ParseUint s with
      | (_, Some Syntax) => inr (ErrSyntax fnParseInt s0)
      | (un, _) =>
          let cutoff := 2 ^ 63 in
          if negb neg && (cutoff <=? un) then inr (ErrRange fnParseInt s0)
          else if neg && (cutoff <? un) then inr (ErrRange fnParseInt s0)
          else inl (if neg then wrap64 (- wrap64 un) else wrap64 un)
      end
  end.

(** [ParseBool(str)]. *)
Definition ParseBool (str : string) : result bool :=
  if bool_decide (str ∈ ["1"; "t"; "T"; "true"; "TRUE"; "True"]) then inl true
  else if bool_decide (str ∈ ["0"; "f"; "F"; "false"; "FALSE"; "False"]) then inl false
  else inr (ErrSyntax "ParseBool" str).

End strconv.

(** ** Package strings *)
Module strings.

(** [Split(s, sep)] for a separator of one byte: the pieces of [s]
    between the occurrences of [sep]; one piece more than there are
    separators, so never the empty slice. *)
Fixpoint Split (s : string) (sep : byte) : list string :=
  match s with
  | EmptyString => [EmptyString]
  | String c s' =>
      if Ascii.eqb c sep then EmptyString :: Split s' sep
      else match Split s' sep with
           | h :: t => String c h :: t
           | [] => [String c EmptyString]
           end
  end.

(** [Cut]: the text before and after the first [sep], when there is one. *)
Fixpoint cut (s : string) (sep : byte) : option (string * string) :=
  match s with
  | EmptyString => None
  | String c s' =>
      if Ascii.eqb c sep then Some (EmptyString, s')
      else match cut s' sep with
           | Some (a, b) => Some (String c a, b)
           | None => None
           end
  end.

(** [SplitN(s, sep, 2)] for a separator of one byte: [s] cut at the
    first [sep], or [s] alone when it has none. *)
Definition SplitN2 (s : string) (sep : byte) : list string :=
  match cut s sep with
  | Some (a, b) => [a; b]
  | None => [s]
  end.

End strings.

(** ** Package time *)
Module time.

(** A [*Location]: an address; [None] is the nil pointer. *)
Definition Location := option nat.

(** [time.Time]: seconds and nanoseconds since January 1 of year 1,
    and the location pointer.  [nsec] is in [0, 999999999]. *)
Record Time : Type := mkTime { sec : Z; nsec : Z; loc : Location }.

#[export] Instance Time_eq_dec : EqDecision Time.
Proof. solve_decision. Defined.

(** The zero value [time.Time{}]. *)
Definition zero : Time := mkTime 0 0 None.

(** A [Duration] is an [int64] count of nanoseconds. *)
Definition Nanosecond : Z := 1.

(** [t.After(u)]. *)
Definition After (t u : Time) : bool :=
  (sec u <? sec t) || ((sec t =? sec u) && (nsec u <? nsec t)).

(** [t.Add(d)]: Go's [/] and [%] truncate towards zero. *)
Definition Add (t : Time) (d : Z) : Time :=
  let s := wrap64 (sec t + Z.quot d 1000000000) in
  let n := nsec t + Z.rem d 1000000000 in
  if 1000000000 <=? n then mkTime (wrap64 (s + 1)) (n - 1000000000) (loc t)
  else if n <? 0 then mkTime (wrap64 (s - 1)) (n + 1000000000) (loc t)
  else mkTime s n (loc t).

End time.
Import (hints) time.
Abbreviation Time := time.Time.

(** ** The duplicate point modifiers *)

(** [type DupPointModifier interface { Modify(t *time.Time, tags map[string]string) }]:
    the receiver, [*t] and [tags] go in; their new values come out. *)
Class DupPointModifier (M : Type) : Type :=
  Modify : M -> Time -> gmap string string -> M * Time * gmap string string.

Record AddTagDupPointModifier : Type := mkAddTag {
  UniqTagName : string;
  at_prevTime : Time;
  dupCount : Z
}.

#[export] Instance AddTag_Modify : DupPointModifier AddTagDupPointModifier :=
  fun m t tags =>
    if bool_decide (t = at_prevTime m) then
      let c := wrap64 (dupCount m + 1) in
      (mkAddTag (UniqTagName m) (at_prevTime m) c, t,
       <[UniqTagName m := strconv.FormatInt c]> tags)
    else
      (mkAddTag (UniqTagName m) t 0, t, tags).

Record IncTimeDupPointModifier : Type := mkIncTime { it_prevTime : Time }.

#[export] Instance IncTime_Modify : DupPointModifier IncTimeDupPointModifier :=
  fun m t tags =>
    let t' := if negb (time.After t (it_prevTime m))
              then time.Add (it_prevTime m) time.Nanosecond
              else t in
    (mkIncTime t', t', tags).

Record NoOpDupPointModifier : Type := mkNoOp { }.

#[export] Instance NoOp_Modify : DupPointModifier NoOpDupPointModifier :=
  fun m t tags => (m, t, tags).

(** A value of the interface type: one of the three implementations. *)
Inductive dupPointModifierValue : Type :=
| AddTag (m : AddTagDupPointModifier)
| IncTime (m : IncTimeDupPointModifier)
| NoOp (m : NoOpDupPointModifier).

#[export] Instance Value_Modify : DupPointModifier dupPointModifierValue :=
  fun v t tags =>
    match v with
    | AddTag m => let '(m', t', tags') := Modify m t tags in (AddTag m', t', tags')
    | IncTime m => let '(m', t', tags') := Modify m t tags in (IncTime m', t', tags')
    | NoOp m => let '(m', t', tags') := Modify m t tags in (NoOp m', t', tags')
    end.

(** [Modify] over the points of a run of the plugin, in order: each point
    comes with the timestamp of its line and the tags of its line. *)
Fixpoint ModifyAll {M} `{DupPointModifier M} (m : M) (pts : list (Time * gmap string string))
  : M * list (Time * gmap string string) :=
  match pts with
  | [] => (m, [])
  | (t, tags) :: rest =>
      let '(m1, t', tags') := Modify m t tags in
      let '(m2, out) := ModifyAll m1 rest in
      (m2, (t', tags') :: out)
  end.

(** ** The operating system: files *)
Module os.

(** The file system during one call of the plugin: the content of every
    inode, and the inode every path names.  A rotation of the log gives
    the path another inode; the old inode keeps its content for the
    handles that are still open on it.  [denied] holds the paths that
    the process cannot open although they are there, each with the
    error that [os.Open] gives for it: the file is not readable by the
    process, or the process has no descriptor left. *)
Record World : Type := mkWorld {
  inodes : gmap nat (list byte);
  paths : gmap string nat;
  denied : gmap string error
}.

Definition contents (w : World) (i : nat) : list byte :=
  default [] (inodes w !! i).

(** An [*os.File]: the inode it was opened on and the read offset. *)
Record File : Type := mkFile { ino : nat; offset : nat; closed : bool }.

(** [os.Stat(path)] followed by [info.Size()]. *)
Definition Stat (w : World) (path : string) : result Z :=
  match paths w !! path with
  | Some i => inl (Z.of_nat (length (contents w i)))
  | None => inr (ErrNotExist "stat" path)
  end.

(** [os.Open(path)]: it can fail where [os.Stat] succeeds. *)
Definition Open (w : World) (path : string) : result File :=
  match denied w !! path with
  | Some e => inr e
  | None =>
      match paths w !! path with
      | Some i => inl (mkFile i 0 false)
      | None => inr (ErrNotExist "open" path)
      end
  end.

(** The bytes of the inode from the offset of the handle on. *)
Definition unread (w : World) (f : File) : list byte :=
  drop (offset f) (contents w (ino f)).

(** [f.Read(p)] with [len(p) = k]: the bytes read, the error, and the
    handle after the call.  A regular file gives as many bytes as fit,
    and [0, io.EOF] when none is left. *)
Definition Read (w : World) (f : option File) (k : nat)
  : list byte * option error * option File :=
  match f with
  | None => ([], Some ErrInvalid, f)
  | Some h =>
      if closed h then ([], Some ErrClosed, f)
      else match k with
           | O => ([], None, f)
           | _ =>
               match unread w h with
               | [] => ([], Some EOF, f)
               | rest =>
                   let bs := take k rest in
                   (bs, None, Some (mkFile (ino h) (offset h + length bs) false))
               end
           end
  end.

(** [f.Close()]. *)
Definition Close (f : option File) : option File * option error :=
  match f with
  | None => (f, Some ErrInvalid)
  | Some h =>
      if closed h then (f, Some ErrClosed)
      else (Some (mkFile (ino h) (offset h) true), None)
  end.

End os.

(** ** Package bufio: the line scanner *)
Module bufio.

Definition startBufSize : nat := 4096.
Definition MaxScanTokenSize : nat := 64 * 1024.

(** A [Scanner] with the default split function [ScanLines].  The
    buffer is a slice of [buf_len] bytes of which [buf[start:end]]
    holds the bytes read and not yet returned: [pend], so that
    [end = start + len(pend)]. *)
Record Scanner : Type := mkScanner {
  buf_len : nat;
  start : nat;
  pend : list byte;
  err : option error
}.

Definition end_ (s : Scanner) : nat := (start s + length (pend s))%nat.

(** [NewScanner(r)]: no buffer yet. *)
Definition NewScanner : Scanner := mkScanner 0 0 [] None.

(** [bytes.IndexByte(data, c)]. *)
Fixpoint IndexByte (data : list byte) (c : byte) : option nat :=
  match data with
  | [] => None
  | b :: data' =>
      if Ascii.eqb b c then Some O
      else match IndexByte data' c with
           | Some i => Some (S i)
           | None => None
           end
  end.

(** [dropCR]: drop one carriage return at the end. *)
Definition dropCR (data : list byte) : list byte :=
  match last data with
  | Some c => if Ascii.eqb c CR then removelast data else data
  | None => data
  end.

(** [ScanLines(data, atEOF)]: how far to advance, and the token
    ([None] for the nil token). *)
Definition ScanLines (data : list byte) (atEOF : bool) : nat * option (list byte) :=
  match data, atEOF with
  | [], true => (O, None)
  | _, _ =>
      match IndexByte data LF with
      | Some i => (S i, Some (dropCR (take i data)))
      | None =>
          if atEOF then (length data, Some (dropCR data))
          else (O, None)
      end
  end.

(** The loop of [Scan].  One turn: try to cut a token out of the
    pending bytes; failing that stop if the reader has ended; else make
    room (move the pending bytes to the front, double the buffer up to
    [MaxScanTokenSize]) and read.  The result is the token, or [None]
    when [Scan] returns false.

    The retry loop around [Read] runs once: [os.Read] never returns
    [0, nil] for a slice that has room, and there is room after the
    buffer was grown.  [ScanLines] returns no empty token without
    advancing, so the count of such tokens stays at zero. *)
Fixpoint ScanLoop (fuel : nat) (w : os.World) (s : Scanner) (f : option os.File)
  : option (list byte) * Scanner * option os.File :=
  match fuel with
  | O => (None, mkScanner (buf_len s) (start s) (pend s) (Some ErrNoProgress), f)
  | S fuel' =>
      let tokenTurn :=
        if (negb (Nat.eqb (length (pend s)) 0)) || bool_decide (err s ≠ None)
        then ScanLines (pend s) (bool_decide (err s ≠ None))
        else (O, None) in
      match tokenTurn with
      | (advance, Some token) =>
          (Some token,
           mkScanner (buf_len s) (start s + advance) (drop advance (pend s)) (err s), f)
      | (_, None) =>
          match err s with
          | Some _ => (None, mkScanner (buf_len s) 0 [] (err s), f)
          | None =>
              (* shift the data to the beginning of the buffer *)
              let start1 :=
                if (negb (Nat.eqb (start s) 0))
                   && ((Nat.eqb (end_ s) (buf_len s))
                       || (Nat.ltb (Nat.div (buf_len s) 2) (start s)))
                then O else start s in
              let end1 := (start1 + length (pend s))%nat in
              (* is the buffer full? if so, resize *)
              if (Nat.eqb end1 (buf_len s)) && (Nat.leb MaxScanTokenSize (buf_len s))
              then (None, mkScanner (buf_len s) start1 (pend s) (Some ErrTooLong), f)
              else
                let '(len2, start2) :=
                  if Nat.eqb end1 (buf_len s) then
                    let newSize := (buf_len s * 2)%nat in
                    let newSize := if Nat.eqb newSize 0 then startBufSize else newSize in
                    let newSize := if Nat.ltb MaxScanTokenSize newSize
                                   then MaxScanTokenSize else newSize in
                    (newSize, O)
                  else (buf_len s, start1) in
                let end2 := (start2 + length (pend s))%nat in
                let '(bs, e, f') := os.Read w f (len2 - end2) in
                ScanLoop fuel' w (mkScanner len2 start2 (pend s ++ bs)%list e) f'
          end
      end
  end.

(** Every turn of the loop that does not return reads a byte at least,
    or records the end of the input and returns at the next turn. *)
Definition turns (w : os.World) (f : option os.File) : nat :=
  match f with
  | Some h => S (S (length (os.unread w h)))
  | None => 2%nat
  end.

(** [s.Scan()]. *)
Definition Scan (w : os.World) (s : Scanner) (f : option os.File)
  : option (list byte) * Scanner * option os.File :=
  ScanLoop (turns w f) w s f.

(** [s.Err()]. *)
Definition Err (s : Scanner) : option error :=
  match err s with
  | Some EOF => None
  | e => e
  end.

(** [s.Text()] of a token. *)
Definition Text (token : list byte) : string := string_of_list_ascii token.

End bufio.

(** ** What the Go distribution decides

    [time.Parse] and [strconv.ParseFloat] are taken as given: the plugin
    is verified for whatever they return. *)
Class GoLibrary : Type := {
  time_Parse : string -> string -> result Time;       (* time.Parse(layout, value) *)
  strconv_ParseFloat : string -> result float         (* strconv.ParseFloat(s, 64) *)
}.

(** ** The accumulator *)

(** A field value, of dynamic type [string], [int64], [float64] or [bool]. *)
Inductive fieldValue : Type :=
| StringValue (s : string)
| IntValue (i : Z)
| FloatValue (f : float)
| BoolValue (b : bool).

(** The arguments of one call of [acc.AddFields]. *)
Record Point : Type := mkPoint {
  measurement : string;
  fields : gmap string fieldValue;
  tags : gmap string string;
  timestamp : Time
}.

(** The accumulator keeps the points it is given, in order. *)
Definition Accumulator := list Point.

Definition AddFields (acc : Accumulator) (measurement : string)
  (fields : gmap string fieldValue) (tags : gmap string string) (t : Time)
  : Accumulator :=
  (acc ++ [mkPoint measurement fields tags t])%list.

(** ** The reader *)

(** A [chan struct{}] on which nothing is ever sent. *)
Inductive chanState : Type := ChanNil | ChanOpen | ChanClosed.

Record ltsvLogReader : Type := mkReader {
  Measurement : string;
  Path : string;
  TimeLabel : string;
  TimeFormat : string;
  StrFields : list string;
  IntFields : list string;
  FloatFields : list string;
  BoolFields : list string;
  LogTags : list string;
  WaitMilliseconds : Z;
  DuplicatePointsWorkaroundMethod : string;
  DuplicatePointsWorkaroundUniqTag : string;

  done : chanState;
  acc : Accumulator;

  fieldSet : gmap string string;
  tagSet : gmap string bool;

  file : option os.File;
  prevFileSize : Z;
  dupPointModifier : option dupPointModifierValue
}.

(** Assignments to the fields that change after the configuration. *)
Definition set_file (r : ltsvLogReader) (f : option os.File) : ltsvLogReader :=
  mkReader (Measurement r) (Path r) (TimeLabel r) (TimeFormat r) (StrFields r)
    (IntFields r) (FloatFields r) (BoolFields r) (LogTags r) (WaitMilliseconds r)
    (DuplicatePointsWorkaroundMethod r) (DuplicatePointsWorkaroundUniqTag r)
    (done r) (acc r) (fieldSet r) (tagSet r) f (prevFileSize r) (dupPointModifier r).

Definition set_emitted (r : ltsvLogReader) (a : Accumulator)
  (m : option dupPointModifierValue) : ltsvLogReader :=
  mkReader (Measurement r) (Path r) (TimeLabel r) (TimeFormat r) (StrFields r)
    (IntFields r) (FloatFields r) (BoolFields r) (LogTags r) (WaitMilliseconds r)
    (DuplicatePointsWorkaroundMethod r) (DuplicatePointsWorkaroundUniqTag r)
    (done r) a (fieldSet r) (tagSet r) (file r) (prevFileSize r) m.

Definition set_done (r : ltsvLogReader) (c : chanState) : ltsvLogReader :=
  mkReader (Measurement r) (Path r) (TimeLabel r) (TimeFormat r) (StrFields r)
    (IntFields r) (FloatFields r) (BoolFields r) (LogTags r) (WaitMilliseconds r)
    (DuplicatePointsWorkaroundMethod r) (DuplicatePointsWorkaroundUniqTag r)
    c (acc r) (fieldSet r) (tagSet r) (file r) (prevFileSize r) (dupPointModifier r).

(** [func (r *ltsvLogReader) setPrevFileSize(size int64)]. *)
Definition setPrevFileSize (r : ltsvLogReader) (size : Z) : ltsvLogReader :=
  mkReader (Measurement r) (Path r) (TimeLabel r) (TimeFormat r) (StrFields r)
    (IntFields r) (FloatFields r) (BoolFields r) (LogTags r) (WaitMilliseconds r)
    (DuplicatePointsWorkaroundMethod r) (DuplicatePointsWorkaroundUniqTag r)
    (done r) (acc r) (fieldSet r) (tagSet r) (file r) size (dupPointModifier r).

(** [func newFieldSet(strFields, intFields, floatFields, boolFields []string) map[string]string]. *)
Definition newFieldSet (strFields intFields floatFields boolFields : list string)
  : gmap string string :=
  let s := ∅ in
  let s := foldl (fun s field => <[field := "string"]> s) s strFields in
  let s := foldl (fun s field => <[field := "int"]> s) s intFields in
  let s := foldl (fun s field => <[field := "float"]> s) s floatFields in
  let s := foldl (fun s field => <[field := "boolean"]> s) s boolFields in
  s.

(** [func newTagSet(names []string) map[string]bool]. *)
Definition newTagSet (names : list string) : gmap string bool :=
  foldl (fun s name => <[name := true]> s) ∅ names.

(** [func (r *ltsvLogReader) openLog() error]. *)
Definition openLog (w : os.World) (r : ltsvLogReader) : ltsvLogReader * option error :=
  match os.Open w (Path r) with
  | inr e => (r, Some e)
  | inl file => (set_file r (Some file), None)
  end.

(** [func (r *ltsvLogReader) closeLog() error]. *)
Definition closeLog (r : ltsvLogReader) : ltsvLogReader * option error :=
  let '(f, e) := os.Close (file r) in (set_file r f, e).

(** [func (r *ltsvLogReader) reopenLog() error]. *)
Definition reopenLog (w : os.World) (r : ltsvLogReader) : ltsvLogReader * option error :=
  match closeLog r with
  | (r1, Some e) => (r1, Some e)
  | (r1, None) => openLog w r1
  end.

(** [kv[i]]: indexing a slice panics out of range. *)
Definition sliceIndex (kv : list string) (i : nat) : outcome string :=
  match kv !! i with
  | Some v => Returned v
  | None => Panicked (IndexOutOfRange (Z.of_nat i) (Z.of_nat (length kv)))
  end.

(** The local variables [t], [fields] and [tags] of [processLine]. *)
Definition decoded : Type := (Time * gmap string fieldValue * gmap string string)%type.

Section WithLibrary.

Context {L : GoLibrary}.

(** The body of the loop over the terms in [processLine]: one term
    leaves the variables changed, returns an error, or panics. *)
Definition decodeTerm (r : ltsvLogReader) (st : decoded) (term : string)
  : outcome (result decoded) :=
  let '(t, fields, tags) := st in
  let kv := strings.SplitN2 term COLON in
  k ← sliceIndex kv 0;
  if bool_decide (k = TimeLabel r) then
    v ← sliceIndex kv 1;
    t' ←? time_Parse (TimeFormat r) v;
    Returned (inl (t', fields, tags))
  else
    match fieldSet r !! k with
    | Some typ =>
        if bool_decide (typ = "string") then
          v ← sliceIndex kv 1;
          Returned (inl (t, <[k := StringValue v]> fields, tags))
        else if bool_decide (typ = "int") then
          v ← sliceIndex kv 1;
          val ←? strconv.ParseInt v;
          Returned (inl (t, <[k := IntValue val]> fields, tags))
        else if bool_decide (typ = "float") then
          v ← sliceIndex kv 1;
          val ←? strconv_ParseFloat v;
          Returned (inl (t, <[k := FloatValue val]> fields, tags))
        else if bool_decide (typ = "boolean") then
          v ← sliceIndex kv 1;
          val ←? strconv.ParseBool v;
          Returned (inl (t, <[k := BoolValue val]> fields, tags))
        else Returned (inl st)
    | None =>
        match tagSet r !! k with
        | Some _ =>
            v ← sliceIndex kv 1;
            Returned (inl (t, fields, <[k := v]> tags))
        | None => Returned (inl st)
        end
    end.

(** [for _, term := range terms { ... }], which a [return err] or a
    panic leaves. *)
Fixpoint decodeTerms (r : ltsvLogReader) (st : decoded) (terms : list string)
  : outcome (result decoded) :=
  match terms with
  | [] => Returned (inl st)
  | term :: terms' =>
      match decodeTerm r st term with
      | Returned (inl st') => decodeTerms r st' terms'
      | stop => stop
      end
  end.

(** [processLine] down to the end of the loop. *)
Definition decodeLine (r : ltsvLogReader) (line : string) : outcome (result decoded) :=
  decodeTerms r (time.zero, ∅, ∅) (strings.Split line TAB).

(** [func (r *ltsvLogReader) processLine(line string) error]. *)
Definition processLine (r : ltsvLogReader) (line : string)
  : ltsvLogReader * outcome (option error) :=
  match decodeLine r line with
  | Panicked p => (r, Panicked p)
  | Returned (inr e) => (r, Returned (Some e))
  | Returned (inl (t, fields, tags)) =>
      match dupPointModifier r with
      | None => (r, Panicked NilDereference)
      | Some m =>
          let '(m', t', tags') := Modify m t tags in
          (set_emitted r (AddFields (acc r) (Measurement r) fields tags' t') (Some m'),
           Returned None)
      end
  end.

(** The loop of [readCurrentFile]: [for scanner.Scan() { ... }] and
    the statements after it.  A token takes a byte at least out of
    what the file and the buffer hold, which bounds the turns. *)
Fixpoint readLoop (fuel : nat) (w : os.World) (r : ltsvLogReader)
  (scanner : bufio.Scanner) (n : Z) : ltsvLogReader * outcome (Z * option error) :=
  match fuel with
  | O => (r, Returned (n, Some ErrNoProgress))
  | S fuel' =>
      match bufio.Scan w scanner (file r) with
      | (Some token, scanner', f') =>
          let text := bufio.Text token in
          let n' := wrap64 (n + len text) in
          match processLine (set_file r f') text with
          | (r', Panicked p) => (r', Panicked p)
          | (r', Returned (Some e)) => (r', Returned (n', Some e))
          | (r', Returned None) => readLoop fuel' w r' scanner' n'
          end
      | (None, scanner', f') =>
          (set_file r f', Returned (n, bufio.Err scanner'))
      end
  end.

(** [func (r *ltsvLogReader) readCurrentFile() (n int64, err error)]. *)
Definition readCurrentFile (w : os.World) (r : ltsvLogReader)
  : ltsvLogReader * outcome (Z * option error) :=
  readLoop (bufio.turns w (file r)) w r bufio.NewScanner 0.

(** The last two statements of [read]: [n2, err = r.readCurrentFile()]
    and [n += n2]. *)
Definition readRest (w : os.World) (r : ltsvLogReader) (n : Z)
  : ltsvLogReader * outcome (Z * option error) :=
  match readCurrentFile w r with
  | (r', Panicked p) => (r', Panicked p)
  | (r', Returned (n2, e)) => (r', Returned (wrap64 (n + n2), e))
  end.

(** [read] after the [defer]. *)
Definition readBody (w : os.World) (r : ltsvLogReader) (size : Z)
  : ltsvLogReader * outcome (Z * option error) :=
  if (size <? prevFileSize r) && (0 <? size) then
    (* First we read logs from the rotated file. *)
    match readCurrentFile w r with
    | (r1, Panicked p) => (r1, Panicked p)
    | (r1, Returned (n2, Some e)) => (r1, Returned (0, Some e))
    | (r1, Returned (n2, None)) =>
        let n := wrap64 (0 + n2) in
        match reopenLog w r1 with
        | (r2, Some e) => (r2, Returned (n, Some e))
        | (r2, None) => readRest w r2 n
        end
    end
  else readRest w r 0.

(** [func (r *ltsvLogReader) read() (n int64, err error)]: the deferred
    [r.setPrevFileSize(size)] runs when the body returns and when it
    panics. *)
Definition read (w : os.World) (r : ltsvLogReader)
  : ltsvLogReader * outcome (Z * option error) :=
  match os.Stat w (Path r) with
  | inr e => (r, Returned (0, Some e))
  | inl size =>
      let '(r', out) := readBody w r size in
      (setPrevFileSize r' size, out)
  end.

(** The [switch] of [Start] on the configured method. *)
Definition selectModifier (method uniqTag : string) : dupPointModifierValue :=
  if bool_decide (method = "add_uniq_tag") then
    AddTag (mkAddTag uniqTag time.zero 0)
  else if bool_decide (method = "increment_time") then
    IncTime (mkIncTime time.zero)
  else NoOp mkNoOp.

(** [func (r *ltsvLogReader) Start(acc telegraf.Accumulator) error],
    with the mutex held.  The goroutine [r.receiver()] is started when
    the result is nil and only then. *)
Definition Start (w : os.World) (a : Accumulator) (r : ltsvLogReader)
  : ltsvLogReader * option error :=
  let r :=
    mkReader (Measurement r) (Path r) (TimeLabel r) (TimeFormat r) (StrFields r)
      (IntFields r) (FloatFields r) (BoolFields r) (LogTags r) (WaitMilliseconds r)
      (DuplicatePointsWorkaroundMethod r) (DuplicatePointsWorkaroundUniqTag r)
      ChanOpen a
      (newFieldSet (StrFields r) (IntFields r) (FloatFields r) (BoolFields r))
      (newTagSet (LogTags r))
      (file r) (prevFileSize r)
      (Some (selectModifier (DuplicatePointsWorkaroundMethod r)
               (DuplicatePointsWorkaroundUniqTag r))) in
  openLog w r.

(** [close(r.done)] in [Stop], with the mutex held. *)
Definition Stop (r : ltsvLogReader) : ltsvLogReader * outcome unit :=
  match done r with
  | ChanOpen => (set_done r ChanClosed, Returned tt)
  | ChanClosed => (r, Panicked CloseOfClosedChannel)
  | ChanNil => (r, Panicked CloseOfNilChannel)
  end.

(** [func (r *ltsvLogReader) clean()], with the mutex held. *)
Definition clean (r : ltsvLogReader) : ltsvLogReader := fst (closeLog r).

(** One turn of the loop of [receiver]. *)
Inductive turn : Type :=
| Exit                                         (* [case <-r.done: return] *)
| Continue (logged : option error) (slept : bool)
| Crash (p : panic).

(** A receive from a closed channel is ready; from an open channel
    without sender, and from the nil channel, it is not, and [select]
    takes the [default] case. *)
Definition receiverTurn (w : os.World) (r : ltsvLogReader) : ltsvLogReader * turn :=
  match done r with
  | ChanClosed => (r, Exit)
  | _ =>
      match read w r with
      | (r', Panicked p) => (r', Crash p)
      | (r', Returned (n, e)) => (r', Continue e (n =? 0))
      end
  end.

End WithLibrary.

(** ** Start, Stop and the goroutine: the interleavings

    The host calls [Start] once and [Stop] any number of times; [Start]
    starts the goroutine [receiver].  Both threads take the mutex of the
    reader.  A state holds the reader, the owner of the mutex and the
    place each thread has reached. *)
Module Lifecycle.

Inductive thread : Type := Host | Receiver.

(** Where the host is: between calls, or inside [Stop] before
    [r.Lock()], before [close(r.done)], before [r.Unlock()]; or it has
    panicked. *)
Inductive hostPc : Type :=
| HostIdle
| StopLock
| StopClose
| StopUnlock
| HostPanicked (p : panic).

(** Where the goroutine is: not started, at the [select], at
    [r.read()], inside the deferred [clean] before [r.Lock()], before
    [r.closeLog()], before [r.Unlock()]; or it has returned; or it has
    panicked, which ends the process.  [clean] runs when [receiver]
    returns and when it panics: it carries the panic that goes on
    once it is over. *)
Inductive taskPc : Type :=
| NotStarted
| AtSelect
| AtRead
| CleanLock (p : option panic)
| CleanClose (p : option panic)
| CleanUnlock (p : option panic)
| Exited
| TaskPanicked (p : panic).

(** The panic the goroutine is leaving with, when there is one. *)
Definition panicOf (t : taskPc) : option panic :=
  match t with
  | CleanLock p | CleanClose p | CleanUnlock p => p
  | TaskPanicked p => Some p
  | _ => None
  end.

(** The goroutine is on its way out of [receiver] by [return]. *)
Definition returning (t : taskPc) : bool :=
  match t with
  | CleanLock None | CleanClose None | CleanUnlock None | Exited => true
  | _ => false
  end.

(** The places where each thread holds the mutex. *)
Definition taskHolds (t : taskPc) : bool :=
  match t with
  | CleanClose _ | CleanUnlock _ => true
  | _ => false
  end.

Definition hostHolds (h : hostPc) : bool :=
  match h with
  | StopClose | StopUnlock | HostPanicked _ => true
  | _ => false
  end.

Record System : Type := mkSystem {
  reader : ltsvLogReader;
  mutex : option thread;
  host : hostPc;
  task : taskPc;
  started : bool
}.

(** Nothing in [receiver] recovers: a panic of the goroutine ends the
    process, and the host with it. *)
Definition ended (s : System) : bool :=
  match task s with
  | TaskPanicked _ => true
  | _ => false
  end.

Definition panicking (s : System) : Prop := panicOf (task s) <> None.

Section Steps.

Context {L : GoLibrary}.

(** The host calls [Start], which runs to its end: no goroutine
    exists yet that could take the mutex. *)
Definition callStart (w : os.World) (a : Accumulator) (s : System) : option System :=
  match host s, started s, mutex s with
  | HostIdle, false, None =>
      let '(r, e) := Start w a (reader s) in
      Some (mkSystem r None HostIdle
              (match e with None => AtSelect | Some _ => NotStarted end) true)
  | _, _, _ => None
  end.

(** The host calls [Stop]. *)
Definition callStop (s : System) : option System :=
  if ended s then None else
  match host s with
  | HostIdle => Some (mkSystem (reader s) (mutex s) StopLock (task s) (started s))
  | _ => None
  end.

(** The next step of the host inside [Stop]; [None] when it has none
    or waits for the mutex. *)
Definition hostStep (s : System) : option System :=
  if ended s then None else
  match host s with
  | StopLock =>
      match mutex s with
      | None => Some (mkSystem (reader s) (Some Host) StopClose (task s) (started s))
      | Some _ => None
      end
  | StopClose =>
      match Stop (reader s) with
      | (r, Returned _) => Some (mkSystem r (mutex s) StopUnlock (task s) (started s))
      | (r, Panicked p) => Some (mkSystem r (mutex s) (HostPanicked p) (task s) (started s))
      end
  | StopUnlock => Some (mkSystem (reader s) None HostIdle (task s) (started s))
  | _ => None
  end.

(** The next step of the goroutine, the file system being [w] when it
    reads; [None] when it has none or waits for the mutex. *)
Definition taskStep (w : os.World) (s : System) : option System :=
  match task s with
  | AtSelect =>
      match done (reader s) with
      | ChanClosed => Some (mkSystem (reader s) (mutex s) (host s) (CleanLock None) (started s))
      | _ => Some (mkSystem (reader s) (mutex s) (host s) AtRead (started s))
      end
  | AtRead =>
      match read w (reader s) with
      | (r, Panicked p) =>
          Some (mkSystem r (mutex s) (host s) (CleanLock (Some p)) (started s))
      | (r, Returned _) => Some (mkSystem r (mutex s) (host s) AtSelect (started s))
      end
  | CleanLock p =>
      match mutex s with
      | None => Some (mkSystem (reader s) (Some Receiver) (host s) (CleanClose p) (started s))
      | Some _ => None
      end
  | CleanClose p =>
      Some (mkSystem (clean (reader s)) (mutex s) (host s) (CleanUnlock p) (started s))
  | CleanUnlock p =>
      Some (mkSystem (reader s) None (host s)
              (match p with None => Exited | Some p' => TaskPanicked p' end) (started s))
  | _ => None
  end.

(** One step of the system. *)
Inductive step : System -> System -> Prop :=
| step_start w a s s' : callStart w a s = Some s' -> step s s'
| step_stop s s' : callStop s = Some s' -> step s s'
| step_host s s' : hostStep s = Some s' -> step s s'
| step_task w s s' : taskStep w s = Some s' -> step s s'.

(** Steps of the goroutine alone. *)
Inductive taskSteps : System -> System -> Prop :=
| taskSteps_refl s : taskSteps s s
| taskSteps_step w s s1 s' : taskStep w s = Some s1 -> taskSteps s1 s' -> taskSteps s s'.

(** [n] steps of the goroutine, or as many as it has, the file system
    being [w]. *)
Fixpoint runTask (w : os.World) (n : nat) (s : System) : System :=
  match n with
  | O => s
  | S n' =>
      match taskStep w s with
      | Some s' => runTask w n' s'
      | None => s
      end
  end.

(** [Stop] from the call to the return or the panic, when the
    goroutine takes no step meanwhile; [None] when the host has to
    wait for the mutex. *)
Definition runStop (s : System) : option System :=
  s0 ← callStop s;
  s1 ← hostStep s0;
  s2 ← hostStep s1;
  match host s2 with
  | HostPanicked _ => Some s2
  | _ => hostStep s2
  end.

(** The goroutine has panicked and goes on to end the process. *)
Definition dies (s : System) : Prop :=
  panicking s /\ exists s', taskSteps s s' /\ ended s' = true.

(** [Stop] returns from [s] whatever the goroutine does meanwhile,
    unless a panic of the goroutine ends the process before [Stop]
    has the mutex: the host gets the mutex when it comes to
    [r.Lock()], and from there each step can be taken when the host
    comes to it, and none panics. *)
Definition stopReturns (s : System) : Prop :=
  exists s0, callStop s = Some s0 /\
  forall s0', taskSteps s0 s0' -> dies s0' \/ exists s1, hostStep s0' = Some s1 /\
  forall s1', taskSteps s1 s1' -> exists s2, hostStep s1' = Some s2 /\
  forall s2', taskSteps s2 s2' -> exists s3, hostStep s2' = Some s3 /\
  host s3 = HostIdle.

(** A reader as [inputs.Add] makes it, [&ltsvLogReader{}], its
    exported fields then set from the configuration. *)
Definition configured (r : ltsvLogReader) : Prop :=
  done r = ChanNil /\ file r = None /\ dupPointModifier r = None.

Definition initial (r : ltsvLogReader) : System :=
  mkSystem r None HostIdle NotStarted false.

(** The states the system gets to. *)
Inductive reachable : System -> Prop :=
| reachable_initial r : configured r -> reachable (initial r)
| reachable_step s s' : reachable s -> step s s' -> reachable s'.

End Steps.

End Lifecycle.

(** ** What the statements below are about *)

(** The lines of a byte sequence that is read to its end: every piece
    that a line feed ends, and the bytes after the last line feed when
    there are any; a carriage return at the end of a line is dropped.
    [cur] holds the bytes of the line being read. *)
Fixpoint linesFrom (cur data : list byte) : list (list byte) :=
  match data with
  | [] => match cur with
          | [] => []
          | _ => [bufio.dropCR cur]
          end
  | c :: data' =>
      if Ascii.eqb c LF then bufio.dropCR cur :: linesFrom [] data'
      else linesFrom (cur ++ [c]) data'
  end.

Definition lines (data : list byte) : list (list byte) := linesFrom [] data.

(** The label of a term: the text before its first colon, or all of it. *)
Definition labelOf (term : string) : string :=
  match strings.cut term COLON with
  | Some (k, _) => k
  | None => term
  end.

(** [processLine] over lines in order, up to the first one that does not
    return nil. *)
Fixpoint processLines {L : GoLibrary} (r : ltsvLogReader) (ls : list string)
  : ltsvLogReader * outcome (option error) :=
  match ls with
  | [] => (r, Returned None)
  | l :: ls' =>
      match processLine r l with
      | (r', Returned None) => processLines r' ls'
      | stop => stop
      end
  end.

(** The scanner has met no error but the end of the file, after which
    the file has nothing left. *)
Definition scanning (w : os.World) (s : bufio.Scanner) (h : os.File) : Prop :=
  bufio.err s = None \/ (bufio.err s = Some EOF /\ os.unread w h = []).

(** The buffer of the scanner holds the pending bytes. *)
Definition fits (s : bufio.Scanner) : Prop := (bufio.end_ s <= bufio.buf_len s)%nat.

(** Two values of [r.file] are the same handle in the same state: the
    inode and whether it is closed; reading changes the offset only. *)
Definition sameFile (f f' : option os.File) : Prop :=
  os.ino <$> f' = os.ino <$> f /\ os.closed <$> f' = os.closed <$> f.

(** The offset of a handle after reads: not before the offset it had,
    and not beyond the end of the file unless it was there already. *)
Definition advanced (w : os.World) (f f' : option os.File) : Prop :=
  match f, f' with
  | Some h, Some h' =>
      (os.offset h <= os.offset h'
       <= Nat.max (os.offset h) (length (os.contents w (os.ino h))))%nat
  | None, None => True
  | _, _ => False
  end.

(** The count of nanoseconds since year 1 that a [Time] stands for. *)
Definition instant (t : Time) : Z := time.sec t * 1000000000 + time.nsec t.

(** The place of every timestamp in its run of consecutive equal
    timestamps, counted from 0; [prev] is the timestamp before and [k]
    its place. *)
Fixpoint runPlaces (prev : option Time) (k : Z) (ts : list Time) : list Z :=
  match ts with
  | [] => []
  | t :: ts' =>
      let k' := if bool_decide (prev = Some t) then k + 1 else 0 in
      k' :: runPlaces (Some t) k' ts'
  end.

(** The tags of a point at place [k] of its run under add_uniq_tag:
    the tags of its line, and from the second point on the uniq tag with
    the place in base 10. *)
Definition uniqTagged (name : string) (k : Z) (tags : gmap string string)
  : gmap string string :=
  if k =? 0 then tags else <[name := strconv.FormatInt k]> tags.

(** The outputs of add_uniq_tag for points at given places of their runs. *)
Definition tagEach (name : string) (pts : list (Time * gmap string string)) (ks : list Z)
  : list (Time * gmap string string) :=
  zip_with (fun p k => (fst p, uniqTagged name k (snd p))) pts ks.

(** What holds in every state that the host and the goroutine get to:
    the channel is nil before [Start] and never after; the goroutine
    returns only once the channel is closed; the mutex is held by the
    thread that is between its [Lock] and its [Unlock] (a host that
    panicked inside [Stop] keeps it), and by nobody once the process has
    ended. *)
Definition invariant (s : Lifecycle.System) : Prop :=
  (Lifecycle.started s = false -> done (Lifecycle.reader s) = ChanNil)
  /\ (Lifecycle.started s = true -> done (Lifecycle.reader s) <> ChanNil)
  /\ (Lifecycle.returning (Lifecycle.task s) = true ->
      done (Lifecycle.reader s) = ChanClosed)
  /\ (Lifecycle.mutex s = Some Lifecycle.Receiver <->
      Lifecycle.taskHolds (Lifecycle.task s) = true)
  /\ (Lifecycle.mutex s = Some Lifecycle.Host <->
      Lifecycle.hostHolds (Lifecycle.host s) = true)
  /\ (Lifecycle.host s = Lifecycle.StopUnlock -> done (Lifecycle.reader s) = ChanClosed)
  /\ (Lifecycle.ended s = true -> Lifecycle.mutex s = None).

(** ** Sample inputs *)
Module Samples.

(** [time.Parse] and [strconv.ParseFloat] at the values of the log line
    of [ltsv_log_test.go], on a host whose local zone is UTC, so that
    the parsed time carries the pointer to the local zone (address 1
    here); no other value is asked for below. *)
Definition sampleLibrary : GoLibrary := {|
  time_Parse layout value :=
    if bool_decide (layout = "2006-01-02T15:04:05-07:00"
                    /\ value = "2016-03-03T13:58:57+00:00")
    then inl (time.mkTime 63592610337 0 (Some 1%nat))
    else inr (ErrParseTime layout value);
  strconv_ParseFloat s :=
    if bool_decide (s = "0.000") then inl 0%float
    else inr (ErrSyntax "ParseFloat" s)
|}.

(** A line from its terms, and a log from its lines, each ended by a
    line feed. *)
Definition line (terms : list string) : string :=
  match terms with
  | [] => ""
  | t :: ts => foldl (fun l t' => l +:+ String TAB t') t ts
  end.

Definition logOf (ls : list string) : list byte :=
  concat (map (fun l => (list_ascii_of_string l ++ [LF])%list) ls).

Definition logPath : string := "/var/log/nginx/access.ltsv.log".

(** The configuration of [ltsv_log_test.go], the method being as given. *)
Definition config (method : string) : ltsvLogReader :=
  mkReader "nginx_access" logPath "time" "2006-01-02T15:04:05-07:00"
    [] ["body_bytes_sent"] ["request_time"] []
    ["host"; "http_host"; "scheme"; "remote_addr"; "remote_user"; "request";
     "status"; "http_referer"; "http_user_agent"]
    10 method "uniq"
    ChanNil [] ∅ ∅ None 0 None.

(** A file system with the log at inode [i], [old] being the inodes
    that the path named before. *)
Definition world (old : gmap nat (list byte)) (i : nat) (log : list byte) : os.World :=
  os.mkWorld (<[i := log]> old) {[ logPath := i ]} ∅.

(** The reader after [Start] in a file system. *)
Definition started (method : string) (w : os.World) : ltsvLogReader :=
  fst (Start w [] (config method)).

(** The line of [ltsv_log_test.go]. *)
Definition sampleLine : string :=
  line ["time:2016-03-03T13:58:57+00:00"; "host:localhost"; "http_host:localhost";
        "scheme:http"; "remote_addr:127.0.0.1"; "remote_user:-";
        "time_local:03/Mar/2016:13:58:57"; "+0000"; "request:GET / HTTP/1.1";
        "status:200"; "body_bytes_sent:612"; "http_referer:-";
        "http_user_agent:curl/7.29.0"; "http_x_forwarded_for:-"; "request_time:0.000";
        "upstream_response_time:-"; "upstream_http_content_type:-";
        "upstream_status:-"; "upstream_cache_status:-"].

(** A log whose first line has a malformed integer field. *)
Definition badThenGood : list byte :=
  logOf ["body_bytes_sent:abc"; line ["host:localhost"; "body_bytes_sent:612"]].

(** A log whose last line has no line feed yet, and the log once the
    writer has finished that line. *)
Definition partialLog : list byte :=
  (logOf ["host:a"] ++ list_ascii_of_string "host:b")%list.
Definition completedLog : list byte :=
  (partialLog ++ list_ascii_of_string "c" ++ [LF])%list.

(** A rotation.  Before: the path names inode 0, of 18 bytes.  After:
    two lines were added to inode 0, the second malformed, and the path
    names the new inode 1, of 7 bytes. *)
Definition beforeRotation : os.World :=
  world ∅ 0 (logOf ["body_bytes_sent:1"]).
Definition afterRotation : os.World :=
  world {[ 0%nat := logOf ["body_bytes_sent:1"; "body_bytes_sent:abc"; "body_bytes_sent:3"] ]}
    1 (logOf ["host:x"]).
(** The same rotation when the lines added to inode 0 are well formed. *)
Definition afterCleanRotation : os.World :=
  world {[ 0%nat := logOf ["body_bytes_sent:1"; "body_bytes_sent:2"] ]}
    1 (logOf ["host:x"]).

(** A log whose line is a tag label without colon. *)
Definition colonlessWorld : os.World := world ∅ 0 (logOf ["host"]).

Definition badThenGoodWorld : os.World := world ∅ 0 badThenGood.
Definition partialWorld : os.World := world ∅ 0 partialLog.
Definition completedWorld : os.World := world ∅ 0 completedLog.

(** The reader of the rotation: started before it, it has read the
    18 bytes of inode 0. *)
Definition rotationReader : ltsvLogReader :=
  fst (read (L := sampleLibrary) beforeRotation (started "" beforeRotation)).

(** The host calls [Start], then [Stop]; the goroutine sees the closed
    channel, cleans up and returns; the host calls [Stop] again. *)
Definition afterStart : option Lifecycle.System :=
  Lifecycle.callStart beforeRotation []
    (Lifecycle.initial (config "")).
Definition afterStop : option Lifecycle.System :=
  afterStart ≫= Lifecycle.runStop.
Definition afterExit : option Lifecycle.System :=
  Lifecycle.runTask (L := sampleLibrary) beforeRotation 4 <$> afterStop.
Definition afterSecondStop : option Lifecycle.System :=
  afterExit ≫= Lifecycle.runStop.

(** The host calls [Start] on the log whose line has no colon; the
    goroutine reads, panics and has taken the mutex in [clean] when
    the host calls [Stop]; the goroutine goes on to its end. *)
Definition panicInClean : option Lifecycle.System :=
  s ← Lifecycle.callStart colonlessWorld [] (Lifecycle.initial (config ""));
  Lifecycle.callStop (Lifecycle.runTask (L := sampleLibrary) colonlessWorld 3 s).
Definition afterPanic : option Lifecycle.System :=
  Lifecycle.runTask (L := sampleLibrary) colonlessWorld 2 <$> panicInClean.

(** Three timestamps of one second and one of the next. *)
Definition t1 : Time := time.mkTime 63592610337 0 (Some 1%nat).
Definition t2 : Time := time.mkTime 63592610338 0 (Some 1%nat).

End Samples.

(** ** What the further statements are about *)

(** Numbers that go up strictly, the first one from above [z]. *)
Fixpoint increasingFrom (z : Z) (zs : list Z) : Prop :=
  match zs with
  | [] => True
  | x :: xs => z < x /\ increasingFrom x xs
  end.

(** A [Time] as the package [time] makes them: the nanoseconds within
    the second; the seconds within [int64] and not above [hi]. *)
Definition wellFormed (hi : Z) (t : Time) : Prop :=
  (0 <= time.nsec t < 1000000000) /\ (- 2 ^ 63 <= time.sec t <= hi).

(** What [processLine] takes a label for: the [if] chain of its loop. *)
Inductive role : Type :=
| TimeRole
| FieldRole (typ : string)
| TagRole
| NoRole.

Definition roleOf (r : ltsvLogReader) (k : string) : role :=
  if bool_decide (k = TimeLabel r) then TimeRole
  else match fieldSet r !! k with
       | Some typ => FieldRole typ
       | None =>
           match tagSet r !! k with
           | Some _ => TagRole
           | None => NoRole
           end
       end.

#[export] Instance role_eq_dec : EqDecision role.
Proof. solve_decision. Defined.

(** A term whose label the reader knows. *)
Definition known (r : ltsvLogReader) (term : string) : Prop :=
  roleOf r (labelOf term) <> NoRole.

(** The four types of fields. *)
Definition knownType (typ : string) : Prop := typ ∈ ["string"; "int"; "float"; "boolean"].

(** The value of a term under the label [k]: the text after the first
    colon of a term whose text before it is [k]. *)
Definition valueOf (k term : string) : option string :=
  match strings.cut term COLON with
  | Some (a, b) => if bool_decide (a = k) then Some b else None
  | None => None
  end.

(** The value of the last term under the label [k]. *)
Definition lastValue (k : string) (terms : list string) : option string :=
  last (omap (valueOf k) terms).

Section Conversions.

Context {L : GoLibrary}.

(** The value of a field of type [typ] whose text is [v]; nothing when
  the text does not parse, or the type is none of the four. *)
Definition convert (typ v : string) : option fieldValue :=
if bool_decide (typ = "string") then Some (StringValue v)
else if bool_decide (typ = "int") then
  match strconv.ParseInt v with inl i => Some (IntValue i) | inr _ => None end
else if bool_decide (typ = "float") then
  match strconv_ParseFloat v with inl f => Some (FloatValue f) | inr _ => None end
else if bool_decide (typ = "boolean") then
  match strconv.ParseBool v with inl b => Some (BoolValue b) | inr _ => None end
else None.

End Conversions.

(** A line as a writer of LTSV makes it: terms [label:value] with tabs
    between them. *)
Definition termOf (kv : string * string) : string := fst kv +:+ String COLON (snd kv).

Fixpoint joinTerms (terms : list string) : string :=
  match terms with
  | [] => ""
  | [t] => t
  | t :: ts => t +:+ String TAB (joinTerms ts)
  end.

Definition encodeTags (tags : gmap string string) : string :=
  joinTerms (termOf <$> map_to_list tags).

(** A pair of label and value that [processLine] reads back as a tag:
    the label is a tag label of the reader, without colon and tab; the
    value is without tab. *)
Definition tagPair (r : ltsvLogReader) (k v : string) : Prop :=
  roleOf r k = TagRole /\ strings.cut k COLON = None /\ strings.cut k TAB = None
  /\ strings.cut v TAB = None.

(** The bytes of lines, their ends not counted. *)
Definition lineBytes (ls : list (list byte)) : Z :=
  foldr (fun l z => Z.of_nat (length l) + z) 0 ls.

(** A log as a writer makes it: every line ended by a line feed, or by
    a carriage return and a line feed where the flag is set. *)
Definition lineEnd (crlf : bool) : list byte := if crlf then [CR; LF] else [LF].

Definition writeLines (ls : list (list byte * bool)) : list byte :=
  concat ((fun l => fst l ++ lineEnd (snd l))%list <$> ls).

(** A line without line feed in it and without carriage return at its end. *)
Definition plainLine (l : list byte) : Prop :=
  bufio.IndexByte l LF = None /\ last l <> Some CR.

(** The reader [r] with other values in the fields that [read] assigns
    to: the accumulator, the file, the size held and the modifier. *)
Definition withState (r : ltsvLogReader) (a : Accumulator) (f : option os.File)
  (size : Z) (m : option dupPointModifierValue) : ltsvLogReader :=
  mkReader (Measurement r) (Path r) (TimeLabel r) (TimeFormat r) (StrFields r)
    (IntFields r) (FloatFields r) (BoolFields r) (LogTags r) (WaitMilliseconds r)
    (DuplicatePointsWorkaroundMethod r) (DuplicatePointsWorkaroundUniqTag r)
    (done r) a (fieldSet r) (tagSet r) f size m.

(** [r'] is [r] but for the fields that [read] assigns to, and with
    points of the measurement of [r] added to the accumulator. *)
Definition extends (r r' : ltsvLogReader) : Prop :=
  exists ps f size m,
    r' = withState r (acc r ++ ps)%list f size m
    /\ Forall (fun p => measurement p = Measurement r) ps.

(** The handle of the reader is closed. *)
Definition fileClosed (r : ltsvLogReader) : Prop :=
  exists h, file r = Some h /\ os.closed h = true.

(** The places of the goroutine before the [r.closeLog()] of [clean],
    and the places after it. *)
Definition beforeClose (t : Lifecycle.taskPc) : bool :=
  match t with
  | Lifecycle.AtSelect | Lifecycle.AtRead
  | Lifecycle.CleanLock _ | Lifecycle.CleanClose _ => true
  | _ => false
  end.

Definition afterClose (t : Lifecycle.taskPc) : bool :=
  match t with
  | Lifecycle.CleanUnlock _ | Lifecycle.Exited | Lifecycle.TaskPanicked _ => true
  | _ => false
  end.

(** What holds of the handle in every state that the host and the
    goroutine get to: there is no goroutine before [Start]; the reader
    has a handle as long as the goroutine runs, and the handle is
    closed from the [r.closeLog()] of [clean] on. *)
Definition handleInvariant (s : Lifecycle.System) : Prop :=
  (Lifecycle.started s = false -> Lifecycle.task s = Lifecycle.NotStarted)
  /\ (beforeClose (Lifecycle.task s) = true -> is_Some (file (Lifecycle.reader s)))
  /\ (afterClose (Lifecycle.task s) = true -> fileClosed (Lifecycle.reader s)).

(** The goroutine has come to its end after [k] steps of its own from
    [s], the file system being [w]: it has returned, or its panic has
    ended the process. *)
Definition finishes {L : GoLibrary} (w : os.World) (k : nat) (s : Lifecycle.System) : Prop :=
  Lifecycle.task (Lifecycle.runTask w k s) = Lifecycle.Exited
  \/ Lifecycle.ended (Lifecycle.runTask w k s) = true.

(** A log that begins with a line of [bufio.MaxScanTokenSize] bytes
    and more. *)
Definition longLineWorld : os.World :=
  Samples.world ∅ 0
    (replicate bufio.MaxScanTokenSize ("a"%char : byte)
       ++ list_ascii_of_string "host:x" ++ [LF])%list.

(** The rotation of the samples some time later: the new file, inode
    1, has grown to 21 bytes. *)
Definition afterGrowth : os.World :=
  Samples.world
    {[ 0%nat := Samples.logOf ["body_bytes_sent:1"; "body_bytes_sent:abc"; "body_bytes_sent:3"] ]}
    1 (Samples.logOf ["host:x"; "host:y"; "host:z"]).




(** Calls of [read] one after the other, the file system being as the
    list says at each call. *)
Fixpoint reads {L : GoLibrary} (ws : list os.World) (r : ltsvLogReader) : ltsvLogReader :=
  match ws with
  | [] => r
  | w :: ws' => reads ws' (fst (read w r))
  end.

(** The rotation of the samples at a time when the process cannot open
    the path. *)
Definition afterRotationDenied : os.World :=
  os.mkWorld (os.inodes Samples.afterCleanRotation) (os.paths Samples.afterCleanRotation)
    {[ Samples.logPath := ErrPermission "open" Samples.logPath ]}.

(** * Proofs *)

(** The sizes of the buffer of the scanner: what the proofs need of
    them; they are kept folded afterwards. *)
Lemma MaxScanTokenSize_not_0 : Nat.leb bufio.MaxScanTokenSize 0 = false.
Proof. reflexivity. Qed.

Lemma startBufSize_fits : Nat.ltb bufio.MaxScanTokenSize bufio.startBufSize = false.
Proof. reflexivity. Qed.

Lemma startBufSize_room : (bufio.startBufSize - 0)%nat = S (pred bufio.startBufSize).
Proof. reflexivity. Qed.

Lemma startBufSize_pos : (0 < bufio.startBufSize)%nat.
Proof. unfold bufio.startBufSize. lia. Qed.

Opaque bufio.MaxScanTokenSize bufio.startBufSize.

(** ** The lines of a log *)

Lemma linesFrom_newline (pend rest cur : list byte) (i : nat) :
  bufio.IndexByte pend LF = Some i ->
  linesFrom cur (pend ++ rest)
  = bufio.dropCR (cur ++ take i pend) :: linesFrom [] (drop (S i) pend ++ rest).
Proof.
  revert cur i.
  induction pend as [|b pend IH]; intros cur i Hi; simpl in Hi; [discriminate|].
  simpl. destruct (Ascii.eqb b LF) eqn:Hb.
  - injection Hi as <-. simpl. by rewrite app_nil_r.
  - destruct (bufio.IndexByte pend LF) as [j|] eqn:Hj; [|discriminate].
    injection Hi as <-. rewrite (IH _ j eq_refl). simpl.
    by rewrite <- app_assoc.
Qed.

Lemma linesFrom_no_newline (pend rest cur : list byte) :
  bufio.IndexByte pend LF = None ->
  linesFrom cur (pend ++ rest) = linesFrom (cur ++ pend) rest.
Proof.
  revert cur.
  induction pend as [|b pend IH]; intros cur Hi; simpl in *.
  - by rewrite app_nil_r.
  - destruct (Ascii.eqb b LF); [discriminate|].
    destruct (bufio.IndexByte pend LF); [discriminate|].
    rewrite IH by done. by rewrite <- app_assoc.
Qed.

Lemma lines_newline (pend rest : list byte) (i : nat) :
  bufio.IndexByte pend LF = Some i ->
  lines (pend ++ rest) = bufio.dropCR (take i pend) :: lines (drop (S i) pend ++ rest).
Proof. intros H. unfold lines. by rewrite (linesFrom_newline _ _ _ _ H). Qed.

Lemma lines_last (pend : list byte) :
  bufio.IndexByte pend LF = None -> pend <> [] ->
  lines pend = [bufio.dropCR pend].
Proof.
  intros H Hne. unfold lines.
  rewrite <- (app_nil_r pend) at 1. rewrite linesFrom_no_newline by done.
  simpl. destruct pend; done.
Qed.

Lemma lines_pending (pend rest : list byte) :
  bufio.IndexByte pend LF = None ->
  lines (pend ++ rest) = linesFrom pend rest.
Proof. intros H. unfold lines. by rewrite linesFrom_no_newline. Qed.

(** ** The scanner *)

Lemma take_drop_length {A} (n : nat) (l : list A) :
  (take n l ++ drop (length (take n l)) l)%list = l.
Proof.
  rewrite length_take. destruct (decide (n <= length l)%nat).
  - rewrite Nat.min_l by done. apply take_drop.
  - rewrite Nat.min_r by lia. rewrite take_ge, drop_all by lia. apply app_nil_r.
Qed.

Lemma Read_open (w : os.World) (h : os.File) (k : nat) bs e f' :
  os.closed h = false ->
  os.Read w (Some h) k = (bs, e, f') ->
  exists h', f' = Some h' /\ os.ino h' = os.ino h /\ os.closed h' = false
    /\ (bs ++ os.unread w h')%list = os.unread w h
    /\ (e = None \/ (e = Some EOF /\ os.unread w h' = [])).
Proof.
  intros Hc. unfold os.Read. rewrite Hc.
  destruct k as [|k].
  { intros [= <- <- <-]. exists h. repeat split; auto. }
  destruct (os.unread w h) as [|b rest] eqn:Hu.
  { intros [= <- <- <-]. exists h. rewrite Hu. repeat split; auto. }
  intros [= <- <- <-]. eexists. split; [reflexivity|]. cbn [os.ino os.closed].
  split; [done|]. split; [done|]. split; [|auto].
  unfold os.unread in *. cbn [os.ino os.offset].
  rewrite <- drop_drop, Hu. simpl. f_equal. apply take_drop_length.
Qed.

Lemma ScanLoop_spec (fuel : nat) (w : os.World) (s : bufio.Scanner) (h : os.File)
    res s' f' :
  os.closed h = false ->
  scanning w s h ->
  bufio.ScanLoop fuel w s (Some h) = (res, s', f') ->
  exists h', f' = Some h' /\ os.ino h' = os.ino h /\ os.closed h' = false /\
    match res with
    | Some token =>
        lines (bufio.pend s ++ os.unread w h)
        = token :: lines (bufio.pend s' ++ os.unread w h')
        /\ scanning w s' h'
    | None =>
        bufio.Err s' = None ->
        (bufio.pend s ++ os.unread w h)%list = [] /\ os.unread w h' = []
    end.
Proof.
  intros Hc. revert s h Hc res s' f'.
  induction fuel as [|fuel IH]; intros s h Hc res s' f' Hs.
  { simpl. intros [= <- <- <-]. exists h. repeat split; try done. }
  cbn [bufio.ScanLoop].
  set (tokenTurn := if _ : bool then _ else _).
  assert (Htok :
    (exists adv token, tokenTurn = (adv, Some token) /\
       lines (bufio.pend s ++ os.unread w h)
       = token :: lines (drop adv (bufio.pend s) ++ os.unread w h))
    \/ (exists adv, tokenTurn = (adv, None) /\
         (bufio.err s = None \/ bufio.pend s = []))).
  { subst tokenTurn.
    destruct (negb (length (bufio.pend s) =? 0)%nat || bool_decide (bufio.err s ≠ None)) eqn:Hcond.
    2:{ right. exists O. split; [done|]. left.
        apply orb_false_iff in Hcond as [_ He].
        apply bool_decide_eq_false in He. by destruct (bufio.err s); [exfalso; apply He|]. }
    unfold bufio.ScanLines.
    destruct (bufio.IndexByte (bufio.pend s) LF) as [i|] eqn:Hi.
    - left. exists (S i), (bufio.dropCR (take i (bufio.pend s))).
      split; [|by apply lines_newline].
      destruct (bufio.pend s); [discriminate|]. done.
    - destruct (bool_decide (bufio.err s ≠ None)) eqn:He.
      + apply bool_decide_eq_true in He.
        destruct (bufio.pend s) as [|b p] eqn:Hp.
        * right. exists O. auto.
        * left. exists (length (b :: p)), (bufio.dropCR (b :: p)). split; [done|].
          destruct Hs as [Hs|[_ Hu]]; [congruence|].
          rewrite Hu, drop_all, app_nil_r. simpl. apply lines_last; done.
      + right. exists O. apply bool_decide_eq_false in He.
        split; [by destruct (bufio.pend s)|].
        left. by destruct (bufio.err s); [exfalso; apply He|]. }
  destruct Htok as [(adv & token & -> & Hl)|(adv & -> & Hnone)].
  { intros [= <- <- <-]. exists h. simpl. auto. }
  destruct (bufio.err s) as [e|] eqn:He.
  { intros [= <- <- <-]. exists h. simpl. repeat split; try done.
    - destruct Hnone as [|Hp]; [done|]. destruct Hs as [|[_ Hu]]; [congruence|].
      by rewrite Hp, Hu.
    - destruct Hs as [|[_ Hu]]; [congruence|done]. }
  match goal with |- context [if ?c then (None, _, _) else _] => destruct c end.
  { intros [= <- <- <-]. exists h. simpl. repeat split; done. }
  match goal with |- context [let '(_, _) := ?c in _] => destruct c as [len2 start2] end.
  match goal with |- context [os.Read w (Some h) ?k] =>
    destruct (os.Read w (Some h) k) as [[bs e] f1] eqn:Hr end.
  destruct (Read_open _ _ _ _ _ _ Hc Hr) as (h1 & -> & Hi1 & Hc1 & Hu1 & He1).
  intros Hloop.
  change (scanning w (bufio.mkScanner len2 start2 (bufio.pend s ++ bs) e) h1) in He1.
  destruct (IH _ h1 Hc1 _ _ _ He1 Hloop) as (h' & -> & Hi' & Hc' & Hres).
  exists h'. split; [done|]. split; [congruence|]. split; [done|].
  cbn [bufio.pend] in Hres. rewrite <- app_assoc, Hu1 in Hres. done.
Qed.

(** ** Reading the file *)

Section Reading.
Context {L : GoLibrary}.

Lemma set_file_set_file r f g : set_file (set_file r f) g = set_file r g.
Proof. reflexivity. Qed.

Lemma set_file_same r : set_file r (file r) = r.
Proof. by destruct r. Qed.

Lemma decodeTerm_set_file r f st term :
  decodeTerm (set_file r f) st term = decodeTerm r st term.
Proof. reflexivity. Qed.

Lemma decodeTerms_set_file r f st terms :
  decodeTerms (set_file r f) st terms = decodeTerms r st terms.
Proof.
  revert st. induction terms as [|t terms IH]; intros st; simpl; [done|].
  rewrite decodeTerm_set_file. destruct (decodeTerm r st t) as [[?|?]|?]; auto.
Qed.

(** [processLine] neither reads nor assigns [r.file]. *)
Lemma processLine_set_file r f line :
  processLine (set_file r f) line
  = (set_file (fst (processLine r line)) f, snd (processLine r line)).
Proof.
  unfold processLine, decodeLine. rewrite decodeTerms_set_file.
  destruct (decodeTerms r _ _) as [[[[t fs] tg]|e]|p]; try reflexivity.
  cbn [dupPointModifier set_file].
  destruct (dupPointModifier r) as [m|]; [|reflexivity].
  destruct (Modify m t tg) as [[m' t'] tg']. reflexivity.
Qed.

Lemma processLine_file r line : file (fst (processLine r line)) = file r.
Proof.
  unfold processLine.
  destruct (decodeLine r line) as [[[[t fs] tg]|e]|p]; try reflexivity.
  destruct (dupPointModifier r) as [m|]; [|reflexivity].
  destruct (Modify m t tg) as [[m' t'] tg']. reflexivity.
Qed.

Lemma processLines_file r ls : file (fst (processLines r ls)) = file r.
Proof.
  revert r. induction ls as [|l ls IH]; intros r; simpl; [done|].
  pose proof (processLine_file r l) as Hf.
  destruct (processLine r l) as [r1 [[e|]|p]]; simpl in *; try done.
  by rewrite IH.
Qed.

Lemma processLines_set_file r f ls :
  processLines (set_file r f) ls
  = (set_file (fst (processLines r ls)) f, snd (processLines r ls)).
Proof.
  revert r. induction ls as [|l ls IH]; intros r; cbn [processLines]; [done|].
  rewrite processLine_set_file.
  destruct (processLine r l) as [r1 [[e|]|p]]; cbn [fst snd]; done.
Qed.

Local Opaque processLine.

(** The first [Scan] on a file that cannot be read returns false, the
    error being the one of [Read]. *)
Lemma Scan_unreadable (w : os.World) (f : option os.File) (e : error) (k : nat) :
  (forall n, os.Read w f (S n) = ([], Some e, f)) ->
  bufio.ScanLoop (S (S k)) w bufio.NewScanner f
  = (None, bufio.mkScanner bufio.startBufSize 0 [] (Some e), f).
Proof.
  intros Hr. cbn -[Nat.leb Nat.ltb Nat.sub].
  rewrite MaxScanTokenSize_not_0. cbn -[Nat.leb Nat.ltb Nat.sub].
  rewrite startBufSize_fits, startBufSize_room, Hr. reflexivity.
Qed.

Lemma readLoop_spec (fuel : nat) (w : os.World) (r : ltsvLogReader)
    (s : bufio.Scanner) (n : Z) (h : os.File) r' n' :
  file r = Some h -> os.closed h = false -> scanning w s h ->
  readLoop fuel w r s n = (r', Returned (n', None)) ->
  exists h' r'', r' = set_file r'' (Some h')
    /\ os.ino h' = os.ino h /\ os.closed h' = false /\ os.unread w h' = []
    /\ processLines r (map bufio.Text (lines (bufio.pend s ++ os.unread w h)))
       = (r'', Returned None).
Proof.
  revert r s n h.
  induction fuel as [|fuel IH]; intros r s n h Hf Hc Hs; cbn [readLoop]; [discriminate|].
  rewrite Hf. unfold bufio.Scan.
  destruct (bufio.ScanLoop _ w s (Some h)) as [[res s1] f1] eqn:Hscan.
  destruct (ScanLoop_spec _ _ _ _ _ _ _ Hc Hs Hscan) as (h1 & -> & Hi1 & Hc1 & Hres).
  destruct res as [token|].
  - destruct Hres as [Hl Hs1]. rewrite Hl. cbn [map processLines].
    rewrite processLine_set_file.
    destruct (processLine r (bufio.Text token)) as [r1 [[e|]|p]]; cbn [fst snd];
      try discriminate.
    intros Hloop.
    destruct (IH (set_file r1 (Some h1)) s1 _ h1 eq_refl Hc1 Hs1 Hloop)
      as (h' & r'' & -> & Hi' & Hc' & Hu' & Hp).
    rewrite processLines_set_file in Hp. injection Hp as <- Hp.
    exists h', (fst (processLines r1 (map bufio.Text (lines (bufio.pend s1 ++ os.unread w h1))))).
    split; [done|]. split; [congruence|]. split; [done|]. split; [done|].
    rewrite <- Hp. by destruct (processLines r1 _).
  - intros [= <- <- He]. exists h1, r.
    destruct (Hres He) as [Hnil Hu1]. rewrite Hnil.
    repeat split; done.
Qed.

(** A file that is nil or closed cannot be read. *)
Lemma readCurrentFile_not_open (w : os.World) (r : ltsvLogReader) :
  (file r = None \/ exists h, file r = Some h /\ os.closed h = true) ->
  exists e, readCurrentFile w r = (r, Returned (0, Some e)).
Proof.
  intros [Hf|(h & Hf & Hc)].
  - exists ErrInvalid. unfold readCurrentFile. rewrite Hf. cbn [bufio.turns readLoop].
    rewrite Hf. unfold bufio.Scan, bufio.turns.
    rewrite (Scan_unreadable w None ErrInvalid) by done. 
    rewrite <- Hf, set_file_same. reflexivity.
  - exists ErrClosed. unfold readCurrentFile. rewrite Hf. cbn [bufio.turns readLoop].
    rewrite Hf. unfold bufio.Scan, bufio.turns.
    rewrite (Scan_unreadable w (Some h) ErrClosed).
    + rewrite <- Hf, set_file_same. reflexivity.
    + intros n. unfold os.Read. by rewrite Hc.
Qed.

(** What a call of [readCurrentFile] that returns a nil error has
    done: the file was open; it has been read to its end; every line
    of what was unread, the bytes after the last line feed included,
    went through [processLine], which returned nil each time. *)
Lemma readCurrentFile_drains (w : os.World) (r r' : ltsvLogReader) (n : Z) :
  readCurrentFile w r = (r', Returned (n, None)) ->
  exists h h' r'',
    file r = Some h /\ os.closed h = false
    /\ r' = set_file r'' (Some h')
    /\ os.ino h' = os.ino h /\ os.closed h' = false /\ os.unread w h' = []
    /\ processLines r (map bufio.Text (lines (os.unread w h))) = (r'', Returned None).
Proof.
  intros Hread.
  destruct (file r) as [h|] eqn:Hf.
  2:{ destruct (readCurrentFile_not_open w r (or_introl Hf)) as [e He]. congruence. }
  destruct (os.closed h) eqn:Hc.
  { destruct (readCurrentFile_not_open w r) as [e He]; [eauto|congruence]. }
  unfold readCurrentFile in Hread.
  destruct (readLoop_spec _ _ _ bufio.NewScanner _ h _ _ Hf Hc (or_introl eq_refl) Hread)
    as (h' & r'' & -> & Hi & Hc' & Hu & Hp).
  exists h, h', r''. repeat split; done.
Qed.

End Reading.

(** ** Handles, fragments, points *)

Lemma sameFile_refl f : sameFile f f.
Proof. by split. Qed.

Lemma sameFile_trans f g h : sameFile f g -> sameFile g h -> sameFile f h.
Proof. intros [? ?] [? ?]. split; congruence. Qed.

Lemma Read_sameFile w f k bs e f' : os.Read w f k = (bs, e, f') -> sameFile f f'.
Proof.
  unfold os.Read. destruct f as [h|]; [|intros [= <- <- <-]; apply sameFile_refl].
  destruct (os.closed h) eqn:Hc; [intros [= <- <- <-]; apply sameFile_refl|].
  destruct k; [intros [= <- <- <-]; apply sameFile_refl|].
  destruct (os.unread w h); intros [= <- <- <-]; [apply sameFile_refl|].
  split; cbn; congruence.
Qed.

Lemma ScanLoop_sameFile fuel w s f res s' f' :
  bufio.ScanLoop fuel w s f = (res, s', f') -> sameFile f f'.
Proof.
  revert s f. induction fuel as [|fuel IH]; intros s f; cbn [bufio.ScanLoop].
  { intros [= <- <- <-]. apply sameFile_refl. }
  destruct (if _ : bool then _ else _) as [adv [token|]].
  { intros [= <- <- <-]. apply sameFile_refl. }
  destruct (bufio.err s); [intros [= <- <- <-]; apply sameFile_refl|].
  match goal with |- context [if ?c then (None, _, _) else _] => destruct c end.
  { intros [= <- <- <-]. apply sameFile_refl. }
  match goal with |- context [let '(_, _) := ?c in _] => destruct c as [len2 start2] end.
  match goal with |- context [os.Read w f ?k] =>
    destruct (os.Read w f k) as [[bs e] f1] eqn:Hr end.
  intros H. eapply sameFile_trans; [by eapply Read_sameFile|by eapply IH].
Qed.

Lemma advanced_refl w f : advanced w f f.
Proof. destruct f; cbn; [lia|done]. Qed.

Lemma advanced_trans w f g h :
  sameFile f g -> advanced w f g -> advanced w g h -> advanced w f h.
Proof.
  intros [Hi _]. destruct f as [a|], g as [b|], h as [c|]; cbn; try done.
  cbn in Hi. injection Hi as Hi. rewrite Hi. lia.
Qed.

Lemma Read_advanced w f k bs e f' : os.Read w f k = (bs, e, f') -> advanced w f f'.
Proof.
  unfold os.Read. destruct f as [h|]; [|intros [= <- <- <-]; apply advanced_refl].
  destruct (os.closed h) eqn:Hc; [intros [= <- <- <-]; apply advanced_refl|].
  destruct k; [intros [= <- <- <-]; apply advanced_refl|].
  destruct (os.unread w h) as [|b rest] eqn:Hu; intros [= <- <- <-];
    [apply advanced_refl|].
  cbn [advanced os.offset os.ino].
  assert (length (os.unread w h) = length (os.contents w (os.ino h)) - os.offset h)%nat
    as Hlen by apply length_drop.
  rewrite Hu in Hlen.
  assert (length (take (S k) (b :: rest)) <= length (b :: rest))%nat as Hle.
  { rewrite length_take. lia. }
  remember (length (take (S k) (b :: rest))) as n1.
  remember (length (b :: rest)) as n2.
  assert (1 <= n2)%nat by (subst n2; cbn; lia).
  replace (S (length (take k rest))) with n1 by (subst n1; reflexivity).
  lia.
Qed.

Lemma ScanLoop_advanced fuel w s f res s' f' :
  bufio.ScanLoop fuel w s f = (res, s', f') -> advanced w f f'.
Proof.
  revert s f. induction fuel as [|fuel IH]; intros s f; cbn [bufio.ScanLoop].
  { intros [= <- <- <-]. apply advanced_refl. }
  destruct (if _ : bool then _ else _) as [adv [token|]].
  { intros [= <- <- <-]. apply advanced_refl. }
  destruct (bufio.err s); [intros [= <- <- <-]; apply advanced_refl|].
  match goal with |- context [if ?c then (None, _, _) else _] => destruct c end.
  { intros [= <- <- <-]. apply advanced_refl. }
  match goal with |- context [let '(_, _) := ?c in _] => destruct c as [len2 start2] end.
  match goal with |- context [os.Read w f ?k] =>
    destruct (os.Read w f k) as [[bs e] f1] eqn:Hr end.
  intros H. eapply advanced_trans;
    [by eapply Read_sameFile|by eapply Read_advanced|by eapply IH].
Qed.

(** *** Lines of a log that ends in a fragment *)

Lemma linesFrom_app (whole rest cur : list byte) :
  last whole = Some LF ->
  linesFrom cur (whole ++ rest) = (linesFrom cur whole ++ linesFrom [] rest)%list.
Proof.
  revert cur. induction whole as [|c whole IH]; intros cur Hl; [discriminate|].
  cbn [app linesFrom].
  destruct whole as [|c' whole].
  - cbn in Hl. injection Hl as ->. by rewrite Ascii.eqb_refl.
  - rewrite last_cons_cons in Hl.
    destruct (Ascii.eqb c LF); [cbn [app]; f_equal|]; by apply IH.
Qed.

Lemma lines_fragment (whole frag : list byte) :
  whole = [] \/ last whole = Some LF ->
  frag <> [] -> bufio.IndexByte frag LF = None ->
  lines (whole ++ frag) = (lines whole ++ [bufio.dropCR frag])%list.
Proof.
  intros [->|Hl] Hne Hi.
  - by apply lines_last.
  - unfold lines. rewrite linesFrom_app by done. f_equal. by apply lines_last.
Qed.

Section Reading2.
Context {L : GoLibrary}.

Lemma processLine_acc r line r' :
  processLine r line = (r', Returned None) ->
  exists p, acc r' = (acc r ++ [p])%list.
Proof.
  unfold processLine.
  destruct (decodeLine r line) as [[[[t fs] tg]|e]|p]; try discriminate.
  destruct (dupPointModifier r) as [m|]; [|discriminate].
  destruct (Modify m t tg) as [[m' t'] tg']. intros [= <-]. cbn. eauto.
Qed.

(** Every line that [processLine] accepts adds one point. *)
Lemma processLines_acc r ls r' :
  processLines r ls = (r', Returned None) ->
  exists ps, acc r' = (acc r ++ ps)%list /\ length ps = length ls.
Proof.
  revert r. induction ls as [|l ls IH]; intros r; cbn [processLines].
  - intros [= <-]. exists []. by rewrite app_nil_r.
  - destruct (processLine r l) as [r1 [[e|]|p]] eqn:Hp; try discriminate.
    intros H. destruct (processLine_acc _ _ _ Hp) as [pt Hpt].
    destruct (IH _ H) as (ps & Hps & Hlen).
    exists (pt :: ps). rewrite Hps, Hpt, <- app_assoc. cbn. by rewrite Hlen.
Qed.

Lemma readLoop_sameFile fuel w r s n :
  sameFile (file r) (file (fst (readLoop fuel w r s n))).
Proof.
  revert r s n. induction fuel as [|fuel IH]; intros r s n; cbn [readLoop].
  { apply sameFile_refl. }
  unfold bufio.Scan.
  destruct (bufio.ScanLoop _ w s (file r)) as [[res s'] f'] eqn:Hs.
  apply ScanLoop_sameFile in Hs.
  destruct res as [token|]; [|done].
  pose proof (processLine_file (set_file r f') (bufio.Text token)) as Hf.
  destruct (processLine (set_file r f') (bufio.Text token)) as [r1 [[e|]|p]];
    cbn [fst file set_file] in *; try (by rewrite Hf).
  eapply sameFile_trans; [exact Hs|]. rewrite <- Hf. apply IH.
Qed.

(** [readCurrentFile] leaves the reader with the handle it had. *)
Lemma readCurrentFile_sameFile w r :
  sameFile (file r) (file (fst (readCurrentFile w r))).
Proof. apply readLoop_sameFile. Qed.

Lemma readLoop_advanced fuel w r s n :
  advanced w (file r) (file (fst (readLoop fuel w r s n))).
Proof.
  revert r s n. induction fuel as [|fuel IH]; intros r s n; cbn [readLoop].
  { apply advanced_refl. }
  unfold bufio.Scan.
  destruct (bufio.ScanLoop _ w s (file r)) as [[res s'] f'] eqn:Hs.
  pose proof (ScanLoop_sameFile _ _ _ _ _ _ _ Hs) as Hsame.
  apply ScanLoop_advanced in Hs.
  destruct res as [token|]; [|done].
  pose proof (processLine_file (set_file r f') (bufio.Text token)) as Hf.
  destruct (processLine (set_file r f') (bufio.Text token)) as [r1 [[e|]|p]];
    cbn [fst file set_file] in *; try (by rewrite Hf).
  eapply advanced_trans; [exact Hsame|exact Hs|]. rewrite <- Hf. apply IH.
Qed.

(** [readCurrentFile] moves the offset forward, up to the end of the
    file at most. *)
Lemma readCurrentFile_advanced w r :
  advanced w (file r) (file (fst (readCurrentFile w r))).
Proof. apply readLoop_advanced. Qed.

Lemma acc_set_file r f : acc (set_file r f) = acc r.
Proof. reflexivity. Qed.
End Reading2.

Section Paths.
Context {L : GoLibrary}.

Lemma processLine_Path r line : Path (fst (processLine r line)) = Path r.
Proof.
  unfold processLine.
  destruct (decodeLine r line) as [[[[t fs] tg]|e]|p]; try reflexivity.
  destruct (dupPointModifier r) as [m|]; [|reflexivity].
  destruct (Modify m t tg) as [[m' t'] tg']. reflexivity.
Qed.

Lemma processLines_Path r ls : Path (fst (processLines r ls)) = Path r.
Proof.
  revert r. induction ls as [|l ls IH]; intros r; cbn [processLines]; [done|].
  pose proof (processLine_Path r l) as Hp.
  destruct (processLine r l) as [r1 [[e|]|p]]; cbn [fst] in *; try done.
  by rewrite IH.
Qed.
End Paths.

(** ** The loops have turns enough *)

Lemma IndexByte_lt data c i : bufio.IndexByte data c = Some i -> (i < length data)%nat.
Proof.
  revert i. induction data as [|b data IH]; intros i; cbn; [discriminate|].
  destruct (Ascii.eqb b c); [intros [= <-]; lia|].
  destruct (bufio.IndexByte data c) as [j|]; [|discriminate].
  intros [= <-]. specialize (IH j eq_refl). lia.
Qed.

Lemma ScanLines_advance data atEOF adv token :
  bufio.ScanLines data atEOF = (adv, Some token) -> (1 <= adv <= length data)%nat.
Proof.
  unfold bufio.ScanLines.
  assert (match bufio.IndexByte data LF with
          | Some i => (S i, Some (bufio.dropCR (take i data)))
          | None => if atEOF then (length data, Some (bufio.dropCR data)) else (0%nat, None)
          end = (adv, Some token) -> data <> [] -> (1 <= adv <= length data)%nat) as H.
  { destruct (bufio.IndexByte data LF) as [i|] eqn:Hi.
    - intros [= <- _] _. apply IndexByte_lt in Hi. lia.
    - destruct atEOF; [|discriminate]. intros [= <- _] Hne.
      destruct data; [done|cbn; lia]. }
  destruct data as [|b data]; [destruct atEOF; [discriminate|]|]; intros Heq.
  - cbn in Heq. discriminate.
  - by apply H.
Qed.

Lemma Read_progress (w : os.World) (h : os.File) (k : nat) bs e f' :
  os.closed h = false -> (0 < k)%nat ->
  os.Read w (Some h) k = (bs, e, f') ->
  exists h', f' = Some h' /\ os.closed h' = false /\
    ((e = Some EOF /\ bs = [] /\ os.unread w h' = [] /\ os.unread w h = [])
     \/ (e = None /\ (1 <= length bs <= k)%nat
         /\ (length (os.unread w h') + length bs = length (os.unread w h))%nat)).
Proof.
  intros Hc Hk Hr.
  destruct (Read_open _ _ _ _ _ _ Hc Hr) as (h' & -> & _ & Hc' & Hu & _).
  exists h'. split; [done|]. split; [done|].
  unfold os.Read in Hr. rewrite Hc in Hr. destruct k; [lia|].
  destruct (os.unread w h) as [|b rest] eqn:Hun.
  - injection Hr as <- <- <-. left. by rewrite Hun.
  - injection Hr as <- <- _. right. split; [done|].
    rewrite <- Hu, length_app. cbn [take length]. rewrite length_take. lia.
Qed.

Lemma ScanLoop_turns (fuel : nat) (w : os.World) (s : bufio.Scanner) (h : os.File)
    res s' f' :
  os.closed h = false -> scanning w s h -> fits s ->
  (length (os.unread w h) + match bufio.err s with Some _ => 1 | None => 2 end <= fuel)%nat ->
  bufio.ScanLoop fuel w s (Some h) = (res, s', f') ->
  bufio.err s' <> Some ErrNoProgress /\ fits s'
  /\ exists h', f' = Some h'
     /\ (length (os.unread w h') <= length (os.unread w h))%nat
     /\ (is_Some res ->
         (length (bufio.pend s') + length (os.unread w h')
          < length (bufio.pend s) + length (os.unread w h))%nat).
Proof.
  intros Hc. revert s h Hc res s' f'.
  induction fuel as [|fuel IH]; intros s h Hc res s' f' Hs Hfit Hfuel.
  { destruct (bufio.err s); lia. }
  cbn [bufio.ScanLoop].
  assert (bufio.err s <> Some ErrNoProgress) as Herr.
  { destruct Hs as [->|[-> _]]; done. }
  destruct (if _ : bool then _ else _) as [adv [token|]] eqn:Htok.
  { intros [= <- <- <-].
    assert (1 <= adv <= length (bufio.pend s))%nat as Hadv.
    { destruct (negb _ || _); [|discriminate]. by eapply ScanLines_advance. }
    split; [done|]. unfold fits, bufio.end_ in *. cbn [bufio.start bufio.pend bufio.buf_len].
    rewrite length_drop. split; [lia|]. exists h. split; [done|]. split; [lia|].
    intros _. lia. }
  destruct (bufio.err s) as [e|] eqn:He.
  { intros [= <- <- <-]. split; [done|]. split.
    - unfold fits, bufio.end_. cbn. lia.
    - exists h. split; [done|]. split; [lia|]. intros [? ?]; discriminate. }
  assert (forall len2 start2,
            (start2 + length (bufio.pend s) < len2)%nat ->
            (let '(bs, e, f1) := os.Read w (Some h) (len2 - (start2 + length (bufio.pend s))) in
             bufio.ScanLoop fuel w (bufio.mkScanner len2 start2 (bufio.pend s ++ bs) e) f1)
            = (res, s', f') ->
            bufio.err s' <> Some ErrNoProgress /\ fits s'
            /\ exists h', f' = Some h'
               /\ (length (os.unread w h') <= length (os.unread w h))%nat
               /\ (is_Some res ->
                   (length (bufio.pend s') + length (os.unread w h')
                    < length (bufio.pend s) + length (os.unread w h))%nat)) as Hread.
  { intros len2 start2 Hlt.
    destruct (os.Read w (Some h) (len2 - (start2 + length (bufio.pend s))))
      as [[bs e] f1] eqn:Hr.
    destruct (Read_open _ _ _ _ _ _ Hc Hr) as (h1 & -> & _ & Hc1 & _ & Hs1).
    assert (0 < len2 - (start2 + length (bufio.pend s)))%nat as Hk by lia.
    destruct (Read_progress _ _ _ _ _ _ Hc Hk Hr)
      as (h1' & [= <-] & _ & [(-> & -> & Hu1 & Hu)|(-> & Hbs & Hlen)]).
    - intros Hloop. eapply IH in Hloop; [|done|by right| |].
      + destruct Hloop as (Hne & Hf & h' & -> & Hle & Hlt').
        split; [done|]. split; [done|]. exists h'. split; [done|].
        cbn [bufio.pend] in Hlt'. rewrite app_nil_r in Hlt'.
        rewrite Hu1 in *. rewrite Hu. split; [lia|]. intros Hres.
        specialize (Hlt' Hres). cbn in Hlt'. lia.
      + unfold fits, bufio.end_. cbn. rewrite app_nil_r. lia.
      + cbn [bufio.err]. rewrite Hu1. cbn. lia.
    - intros Hloop. eapply IH in Hloop; [|done|by left| |].
      + destruct Hloop as (Hne & Hf & h' & -> & Hle & Hlt').
        split; [done|]. split; [done|]. exists h'. split; [done|].
        cbn [bufio.pend] in Hlt'. rewrite length_app in Hlt'.
        split; [lia|]. intros Hres. specialize (Hlt' Hres). lia.
      + unfold fits, bufio.end_. cbn. rewrite length_app. lia.
      + cbn [bufio.err]. lia. }
  set (start1 := if _ : bool then O else bufio.start s).
  assert (start1 <= bufio.start s)%nat as Hstart1.
  { subst start1. destruct (_ && _); lia. }
  unfold fits, bufio.end_ in Hfit.
  destruct (Nat.eqb_spec (start1 + length (bufio.pend s)) (bufio.buf_len s)) as [Hfull|Hroom];
    cbn [andb].
  - destruct (Nat.leb_spec bufio.MaxScanTokenSize (bufio.buf_len s)) as [Hmax|Hmax].
    { intros [= <- <- <-]. split; [done|]. split.
      - unfold fits, bufio.end_ in *. cbn. lia.
      - exists h. split; [done|]. split; [lia|]. intros [? ?]; discriminate. }
    set (newSize := if Nat.ltb _ _ then _ else _).
    assert (bufio.buf_len s < newSize)%nat as Hnew.
    { subst newSize. pose proof startBufSize_pos.
      destruct (Nat.eqb_spec (bufio.buf_len s * 2) 0);
        match goal with |- context [Nat.ltb ?a ?b] => destruct (Nat.ltb_spec a b) end; lia. }
    cbv zeta. apply Hread. lia.
  - apply Hread. lia.
Qed.

Section Turns.
Context {L : GoLibrary}.

Local Opaque processLine.

(** [readLoop] stops before its turns run out: one turn more changes
    nothing. *)
Lemma readLoop_turns (fuel : nat) (w : os.World) (r : ltsvLogReader)
    (s : bufio.Scanner) (n : Z) (h : os.File) :
  file r = Some h -> os.closed h = false -> scanning w s h -> fits s ->
  (length (bufio.pend s) + length (os.unread w h) + 1 <= fuel)%nat ->
  readLoop (S fuel) w r s n = readLoop fuel w r s n.
Proof.
  revert r s n h.
  induction fuel as [|fuel IH]; intros r s n h Hf Hc Hs Hfit Hfuel; [lia|].
  cbn [readLoop]. rewrite Hf. unfold bufio.Scan.
  destruct (bufio.ScanLoop _ w s (Some h)) as [[res s1] f1] eqn:Hscan.
  destruct res as [token|]; [|done].
  destruct (ScanLoop_spec _ _ _ _ _ _ _ Hc Hs Hscan) as (h1 & -> & _ & Hc1 & _ & Hs1).
  assert (length (os.unread w h) + match bufio.err s with Some _ => 1 | None => 2 end
          <= bufio.turns w (Some h))%nat as Hb.
  { cbn. destruct (bufio.err s); lia. }
  destruct (ScanLoop_turns _ _ _ _ _ _ _ Hc Hs Hfit Hb Hscan)
    as (_ & Hfit1 & h1' & [= <-] & _ & Hlt).
  assert (is_Some (Some token)) as Hsome by eauto.
  specialize (Hlt Hsome).
  pose proof (processLine_file (set_file r (Some h1)) (bufio.Text token)) as Hpf.
  destruct (processLine (set_file r (Some h1)) (bufio.Text token)) as [r1 [[e|]|p]];
    try done.
  cbn [fst file set_file] in Hpf.
  apply (IH r1 s1 _ h1); try done. lia.
Qed.

(** The result of [readCurrentFile] is the one of the loop with any
    number of turns more. *)
Lemma readCurrentFile_turns (w : os.World) (r : ltsvLogReader) (h : os.File) (k : nat) :
  file r = Some h -> os.closed h = false ->
  readLoop (bufio.turns w (file r) + k) w r bufio.NewScanner 0 = readCurrentFile w r.
Proof.
  intros Hf Hc. unfold readCurrentFile.
  induction k as [|k IH]; [by rewrite Nat.add_0_r|].
  rewrite Nat.add_succ_r, <- IH.
  apply (readLoop_turns _ w r _ _ h); try done.
  - by left.
  - unfold fits, bufio.end_. cbn. lia.
  - rewrite Hf. cbn. lia.
Qed.

(** [Scan] stops before its turns run out. *)
Lemma Scan_turns (w : os.World) (s : bufio.Scanner) (h : os.File) res s' f' :
  os.closed h = false -> scanning w s h -> fits s ->
  bufio.Scan w s (Some h) = (res, s', f') ->
  bufio.err s' <> Some ErrNoProgress.
Proof.
  intros Hc Hs Hfit Hscan.
  eapply ScanLoop_turns in Hscan; try done; [by destruct Hscan|].
  cbn. destruct (bufio.err s); lia.
Qed.
End Turns.

(** ** The modifiers *)

Lemma wrap64_small (z : Z) : - 2 ^ 63 <= z < 2 ^ 63 -> wrap64 z = z.
Proof. intros H. unfold wrap64. rewrite Z.mod_small; lia. Qed.

(** *** add_uniq_tag *)

Lemma AddTag_in_run (name : string) (pts : list (Time * gmap string string))
    (p : Time) (k : Z) :
  0 <= k -> k + Z.of_nat (length pts) < 2 ^ 63 ->
  snd (ModifyAll (mkAddTag name p k) pts)
  = tagEach name pts (runPlaces (Some p) k (map fst pts)).
Proof.
  revert p k. induction pts as [|[t g] pts IH]; intros p k Hk Hlen; [done|].
  cbn [ModifyAll map fst runPlaces length] in *.
  unfold Modify at 1, AddTag_Modify. cbn [at_prevTime dupCount UniqTagName].
  destruct (decide (t = p)) as [->|Hne].
  - rewrite !bool_decide_eq_true_2 by done.
    rewrite wrap64_small by lia.
    specialize (IH p (k + 1) ltac:(lia) ltac:(lia)).
    destruct (ModifyAll (mkAddTag name p (k + 1)) pts) as [m2 out].
    cbn [snd] in *. rewrite IH. unfold tagEach. cbn [zip_with fst snd].
    f_equal. f_equal. unfold uniqTagged. destruct (Z.eqb_spec (k + 1) 0); [lia|done].
  - rewrite !bool_decide_eq_false_2 by congruence.
    specialize (IH t 0 ltac:(lia) ltac:(lia)).
    destruct (ModifyAll (mkAddTag name t 0) pts) as [m2 out].
    cbn [snd] in *. rewrite IH. done.
Qed.

(** Under add_uniq_tag every point carries the tags of its line and,
    from the second point of a run of equal timestamps on, the uniq tag
    with its place in the run; provided that the first timestamp is not
    the one the modifier holds when it meets it. *)
Lemma AddTag_run_places (m : AddTagDupPointModifier) (t : Time) (g : gmap string string)
    (pts : list (Time * gmap string string)) :
  t <> at_prevTime m ->
  Z.of_nat (length ((t, g) :: pts)) < 2 ^ 63 ->
  snd (ModifyAll m ((t, g) :: pts))
  = tagEach (UniqTagName m) ((t, g) :: pts) (runPlaces None 0 (map fst ((t, g) :: pts))).
Proof.
  intros Hne Hlen. destruct m as [name p k].
  cbn [ModifyAll map fst runPlaces length at_prevTime UniqTagName] in *.
  unfold Modify at 1, AddTag_Modify. cbn [at_prevTime dupCount UniqTagName].
  rewrite bool_decide_eq_false_2 by done.
  rewrite (bool_decide_eq_false_2 (None = Some t)) by done.
  pose proof (AddTag_in_run name pts t 0 ltac:(lia) ltac:(lia)) as H.
  destruct (ModifyAll (mkAddTag name t 0) pts) as [m2 out].
  cbn [snd] in *. by rewrite H.
Qed.

(** *** increment_time *)

Lemma IncTime_Modify_rule (m : IncTimeDupPointModifier) (t : Time) (g : gmap string string) :
  Modify m t g
  = let t' := if time.After t (it_prevTime m) then t
              else time.Add (it_prevTime m) time.Nanosecond in
    (mkIncTime t', t', g).
Proof. unfold Modify, IncTime_Modify. by destruct (time.After t (it_prevTime m)). Qed.

Lemma Add_Nanosecond (t : Time) :
  0 <= time.nsec t < 1000000000 -> - 2 ^ 63 <= time.sec t < 2 ^ 63 - 1 ->
  instant (time.Add t time.Nanosecond) = instant t + 1
  /\ 0 <= time.nsec (time.Add t time.Nanosecond) < 1000000000
  /\ time.sec t <= time.sec (time.Add t time.Nanosecond) <= time.sec t + 1
  /\ time.loc (time.Add t time.Nanosecond) = time.loc t.
Proof.
  intros Hn Hs. unfold time.Add, time.Nanosecond, instant.
  change (Z.quot 1 1000000000) with 0. change (Z.rem 1 1000000000) with 1.
  rewrite Z.add_0_r, (wrap64_small (time.sec t)) by lia.
  destruct (Z.leb_spec 1000000000 (time.nsec t + 1)).
  - cbn [time.sec time.nsec time.loc]. rewrite wrap64_small by lia.
    repeat split; lia || done.
  - destruct (Z.ltb_spec (time.nsec t + 1) 0); [lia|].
    cbn [time.sec time.nsec time.loc]. repeat split; lia || done.
Qed.

Lemma After_instant (t u : Time) :
  0 <= time.nsec t < 1000000000 -> 0 <= time.nsec u < 1000000000 ->
  time.After t u = bool_decide (instant u < instant t).
Proof.
  intros Ht Hu. unfold time.After, instant.
  destruct (Z.ltb_spec (time.sec u) (time.sec t)); cbn [orb].
  - rewrite bool_decide_eq_true_2; [done|nia].
  - destruct (Z.eqb_spec (time.sec t) (time.sec u)) as [->|]; cbn [andb].
    + destruct (Z.ltb_spec (time.nsec u) (time.nsec t)).
      * rewrite bool_decide_eq_true_2; [done|lia].
      * rewrite bool_decide_eq_false_2; [done|lia].
    + rewrite bool_decide_eq_false_2; [done|nia].
Qed.

Lemma IncTime_three (m : IncTimeDupPointModifier) (t : Time) (g1 g2 g3 : gmap string string) :
  time.After t (it_prevTime m) = true ->
  0 <= time.nsec t < 1000000000 -> - 2 ^ 63 <= time.sec t < 2 ^ 63 - 2 ->
  let t1 := time.Add t time.Nanosecond in
  let t2 := time.Add t1 time.Nanosecond in
  map fst (snd (ModifyAll m [(t, g1); (t, g2); (t, g3)])) = [t; t1; t2]
  /\ map instant [t; t1; t2] = [instant t; instant t + 1; instant t + 2].
Proof.
  intros Haft Hn Hs. cbv zeta.
  destruct (Add_Nanosecond t) as (Hi1 & Hn1 & Hs1 & _); [lia|lia|].
  remember (time.Add t time.Nanosecond) as t1 eqn:E1.
  destruct (Add_Nanosecond t1) as (Hi2 & Hn2 & Hs2 & _); [lia|lia|].
  remember (time.Add t1 time.Nanosecond) as t2 eqn:E2.
  split.
  - cbn [ModifyAll]. rewrite IncTime_Modify_rule. cbv zeta. rewrite Haft.
    rewrite IncTime_Modify_rule. cbv zeta. cbn [it_prevTime].
    rewrite (After_instant t t), bool_decide_eq_false_2 by (done || lia).
    rewrite <- E1.
    rewrite IncTime_Modify_rule. cbv zeta. cbn [it_prevTime].
    rewrite (After_instant t t1), bool_decide_eq_false_2 by (done || lia).
    rewrite <- E2. done.
  - cbn [map]. rewrite Hi2, Hi1.
    by replace (instant t + 1 + 1) with (instant t + 2) by lia.
Qed.

(** ** Terms *)

Lemma SplitN2_label (term : string) :
  sliceIndex (strings.SplitN2 term COLON) 0 = Returned (labelOf term).
Proof.
  unfold strings.SplitN2, labelOf.
  by destruct (strings.cut term COLON) as [[a b]|].
Qed.

Lemma SplitN2_no_colon (term : string) :
  strings.cut term COLON = None -> strings.SplitN2 term COLON = [term].
Proof. intros H. unfold strings.SplitN2. by rewrite H. Qed.

Lemma cut_app (a b : string) (sep : byte) :
  strings.cut a sep = None ->
  strings.cut (a +:+ String sep b) sep = Some (a, b).
Proof.
  induction a as [|c a IH]; simpl; intros H.
  - by rewrite Ascii.eqb_refl.
  - destruct (Ascii.eqb c sep); [discriminate|].
    destruct (strings.cut a sep) as [[? ?]|]; [discriminate|].
    by rewrite IH.
Qed.

Lemma Split_app (a b : string) (sep : byte) :
  strings.cut a sep = None ->
  strings.Split (a +:+ String sep b) sep = a :: strings.Split b sep.
Proof.
  induction a as [|c a IH]; simpl; intros H.
  - by rewrite Ascii.eqb_refl.
  - destruct (Ascii.eqb c sep); [discriminate|].
    destruct (strings.cut a sep) as [[? ?]|]; [discriminate|].
    by rewrite IH.
Qed.

Lemma cut_none_app (a b : string) (sep : byte) :
  strings.cut a sep = None -> strings.cut b sep = None ->
  strings.cut (a +:+ b) sep = None.
Proof.
  induction a as [|c a IH]; simpl; intros Ha Hb; [done|].
  destruct (Ascii.eqb c sep); [discriminate|].
  destruct (strings.cut a sep) as [[? ?]|]; [discriminate|].
  by rewrite IH.
Qed.

Section Decoding.
Context {L : GoLibrary}.

(** A term without colon: [kv] has one element, and [kv[1]] panics
    wherever the label is one the reader knows. *)
Lemma decodeTerm_no_colon (r : ltsvLogReader) (st : decoded) (term : string) :
  strings.cut term COLON = None ->
  decodeTerm r st term
  = if bool_decide (term = TimeLabel r) then Panicked (IndexOutOfRange 1 1)
    else match fieldSet r !! term with
         | Some typ =>
             if bool_decide (typ ∈ ["string"; "int"; "float"; "boolean"])
             then Panicked (IndexOutOfRange 1 1)
             else Returned (inl st)
         | None =>
             match tagSet r !! term with
             | Some _ => Panicked (IndexOutOfRange 1 1)
             | None => Returned (inl st)
             end
         end.
Proof.
  intros Hcut. unfold decodeTerm. destruct st as [[t fs] tg].
  rewrite SplitN2_no_colon by done.
  change (sliceIndex [term] 0) with (Returned (A:=string) term).
  change (sliceIndex [term] 1) with (Panicked (A:=string) (IndexOutOfRange 1 1)).
  cbn [mbind outcome_bind].
  destruct (bool_decide (term = TimeLabel r)); [done|].
  destruct (fieldSet r !! term) as [typ|]; [|by destruct (tagSet r !! term)].
  destruct (decide (typ = "string")) as [->|H1]; [done|].
  destruct (decide (typ = "int")) as [->|H2]; [done|].
  destruct (decide (typ = "float")) as [->|H3]; [done|].
  destruct (decide (typ = "boolean")) as [->|H4]; [done|].
  rewrite !bool_decide_eq_false_2; try done.
  rewrite !elem_of_cons, elem_of_nil. intros [?|[?|[?|[?|[]]]]]; congruence.
Qed.





End Decoding.

(** ** The channel *)

Section Channel.
Context {L : GoLibrary}.

Lemma processLine_done r line : done (fst (processLine r line)) = done r.
Proof.
  unfold processLine.
  destruct (decodeLine r line) as [[[[t fs] tg]|e]|p]; try reflexivity.
  destruct (dupPointModifier r) as [m|]; [|reflexivity].
  destruct (Modify m t tg) as [[m' t'] tg']. reflexivity.
Qed.

Lemma readLoop_done fuel w r s n : done (fst (readLoop fuel w r s n)) = done r.
Proof.
  revert r s n. induction fuel as [|fuel IH]; intros r s n; cbn [readLoop]; [done|].
  destruct (bufio.Scan w s (file r)) as [[[token|] s'] f']; [|done].
  pose proof (processLine_done (set_file r f') (bufio.Text token)) as Hd.
  destruct (processLine (set_file r f') (bufio.Text token)) as [r1 [[e|]|p]];
    cbn [fst] in *; try done.
  by rewrite IH.
Qed.

Lemma readCurrentFile_done w r : done (fst (readCurrentFile w r)) = done r.
Proof. apply readLoop_done. Qed.

Lemma reopenLog_done w r : done (fst (reopenLog w r)) = done r.
Proof.
  unfold reopenLog, closeLog, openLog.
  destruct (os.Close (file r)) as [f [e|]]; [done|].
  cbn [Path set_file]. by destruct (os.Open w (Path r)).
Qed.

Lemma readRest_done w r n : done (fst (readRest w r n)) = done r.
Proof.
  unfold readRest. pose proof (readCurrentFile_done w r) as H.
  by destruct (readCurrentFile w r) as [r' [[n2 e]|p]].
Qed.

(** [read] never touches the channel. *)
Lemma read_done w r : done (fst (read w r)) = done r.
Proof.
  unfold read. destruct (os.Stat w (Path r)) as [size|e]; [|done].
  destruct (readBody w r size) as [r' out] eqn:Hb. cbn [fst setPrevFileSize done].
  change r' with (fst (r', out)). rewrite <- Hb. clear Hb r' out.
  unfold readBody.
  destruct ((size <? prevFileSize r) && (0 <? size)); [|apply readRest_done].
  pose proof (readCurrentFile_done w r) as H1.
  destruct (readCurrentFile w r) as [r1 [[n2 [e|]]|p]]; cbn [fst] in *; try done.
  pose proof (reopenLog_done w r1) as H2.
  destruct (reopenLog w r1) as [r2 [e|]]; cbn [fst] in *; [congruence|].
  rewrite readRest_done. congruence.
Qed.
End Channel.

(** ** The interleavings of Start, Stop and the goroutine *)

Import Lifecycle.

Section Interleavings.
Context {L : GoLibrary}.

Lemma Start_done w a r : done (fst (Start w a r)) = ChanOpen.
Proof. unfold Start, openLog. cbn [Path]. by destruct (os.Open w (Path r)). Qed.

Lemma clean_done r : done (clean r) = done r.
Proof. unfold clean, closeLog. by destruct (os.Close (file r)). Qed.

Ltac crush_invariant :=
  intuition (try discriminate; try congruence).

Lemma step_invariant s s' : invariant s -> step s s' -> invariant s'.
Proof.
  intros Hinv Hstep.
  destruct Hstep as [w a s s' H|s s' H|s s' H|w s s' H];
    destruct s as [r mu h t st]; unfold invariant, ended in *;
    cbn [reader mutex host task started] in *.
  - unfold callStart in H. cbn [reader mutex host task started] in H.
    destruct h, st, mu; try discriminate.
    pose proof (Start_done w a r) as Hd.
    destruct (Start w a r) as [r' e]. cbn [fst] in Hd. injection H as <-.
    cbn [reader mutex host task started].
    destruct e; cbn; crush_invariant.
  - unfold callStop, ended in H. cbn [reader mutex host task started] in H.
    destruct t as [| | |p|p|p| |p]; try discriminate;
      destruct h; try discriminate; injection H as <-;
      cbn [reader mutex host task started] in *; cbn in *; crush_invariant.
  - unfold hostStep, ended, Stop in H. cbn [reader mutex host task started] in H.
    destruct t as [| | |p|p|p| |p]; try discriminate;
      destruct h; try discriminate.
    all: try (destruct mu; try discriminate; injection H as <-;
              cbn [reader mutex host task started] in *; cbn in *; crush_invariant; fail).
    all: try (destruct (done r) eqn:Hd; injection H as <-;
              cbn [reader mutex host task started set_done done] in *; cbn in *;
              crush_invariant; fail).
    all: injection H as <-; cbn [reader mutex host task started] in *; cbn in *;
      crush_invariant.
  - unfold taskStep in H. cbn [reader mutex host task started] in H.
    destruct t as [| | |p|p|p| |p]; try discriminate.
    + destruct (done r) eqn:Hd; injection H as <-;
        cbn [reader mutex host task started] in *; cbn in *; crush_invariant.
    + pose proof (read_done w r) as Hd.
      destruct (read w r) as [r' [x|p]]; cbn [fst] in Hd; injection H as <-;
        cbn [reader mutex host task started] in *; rewrite Hd; cbn in *; crush_invariant.
    + destruct mu; try discriminate. injection H as <-.
      cbn [reader mutex host task started] in *.
      destruct p; cbn in *; crush_invariant.
    + injection H as <-. cbn [reader mutex host task started] in *.
      rewrite clean_done. destruct p; cbn in *; crush_invariant.
    + injection H as <-. cbn [reader mutex host task started] in *.
      destruct p; cbn in *; crush_invariant.
Qed.

Lemma reachable_invariant s : reachable s -> invariant s.
Proof.
  induction 1 as [r (Hd & _ & _)|s s' _ IH Hstep].
  - unfold invariant, initial, ended. cbn [reader mutex host task started].
    cbn. crush_invariant.
  - by apply (step_invariant s).
Qed.

(** The goroutine changes neither the place of the host nor the channel. *)
Lemma taskStep_frame w s s' :
  taskStep w s = Some s' ->
  host s' = host s /\ done (reader s') = done (reader s).
Proof.
  unfold taskStep. destruct s as [r mu h t st]. cbn [reader mutex host task started].
  destruct t as [| | |p|p|p| |p]; try discriminate.
  - destruct (done r) eqn:E; intros [= <-]; cbn [reader host]; auto.
  - pose proof (read_done w r) as Hd.
    destruct (read w r) as [r' [x|p]]; cbn [fst] in Hd; intros [= <-];
      split; (reflexivity || exact Hd).
  - destruct mu; [discriminate|]. intros [= <-]; split; reflexivity.
  - intros [= <-]. cbn [reader host]. rewrite clean_done. split; reflexivity.
  - intros [= <-]; split; reflexivity.
Qed.

Lemma taskSteps_frame s s' :
  taskSteps s s' ->
  host s' = host s /\ done (reader s') = done (reader s)
  /\ (reachable s -> reachable s').
Proof.
  induction 1 as [s|w s s1 s' Hstep _ (Hh & Hd & Hr)]; [auto|].
  destruct (taskStep_frame _ _ _ Hstep) as [Hh1 Hd1].
  split; [congruence|]. split; [congruence|].
  intros Hs. apply Hr. eapply reachable_step; [exact Hs|]. eapply step_task. exact Hstep.
Qed.

(** A goroutine that has panicked and holds the mutex, or has ended
    the process already, needs nobody to get to the end. *)
Lemma panic_unwinds s :
  panicking s -> taskHolds (task s) = true \/ ended s = true -> dies s.
Proof.
  intros Hp Hh. split; [exact Hp|]. unfold panicking, ended in *.
  destruct s as [r mu h t st]. cbn [task] in *.
  destruct t as [| | |p|[p|]|[p|]| |p]; cbn in Hp, Hh; try done;
    try (destruct Hh; discriminate).
  - eexists. split; [do 2 (eapply (taskSteps_step (os.mkWorld ∅ ∅ ∅)); [reflexivity|]);
                     apply taskSteps_refl|reflexivity].
  - eexists. split; [eapply (taskSteps_step (os.mkWorld ∅ ∅ ∅)); [reflexivity|];
                     apply taskSteps_refl|reflexivity].
  - eexists. split; [apply taskSteps_refl|reflexivity].
Qed.

(** With the channel open and the host outside [Stop] or at its
    [r.Lock()], the mutex is free, unless the goroutine has panicked
    and holds it or has ended the process. *)
Lemma open_channel_mutex_free s :
  invariant s -> done (reader s) = ChanOpen ->
  host s = HostIdle \/ host s = StopLock ->
  dies s \/ (mutex s = None /\ ended s = false).
Proof.
  intros (_ & _ & Hcl & Hrx & Hhx & _ & _) Hd Hh.
  destruct (ended s) eqn:He.
  { left. apply panic_unwinds; [|by right]. unfold panicking, ended in *.
    by destruct (task s). }
  destruct (mutex s) as [[|]|]; [| |by right].
  - destruct Hhx as [Hhx _]. specialize (Hhx eq_refl).
    destruct Hh as [Hh|Hh]; rewrite Hh in Hhx; discriminate.
  - destruct Hrx as [Hrx _]. specialize (Hrx eq_refl).
    left. apply panic_unwinds; [|by left]. unfold panicking.
    destruct (task s) as [| | |p|[p|]|[p|]| |p]; try discriminate; cbn in *.
    all: specialize (Hcl eq_refl); congruence.
Qed.

(** The host holds the mutex inside [Stop]: the process has not ended. *)
Lemma host_holds_alive s :
  invariant s -> host s = StopClose \/ host s = StopUnlock -> ended s = false.
Proof.
  intros (_ & _ & _ & _ & Hhx & _ & He) Hh.
  destruct (ended s) eqn:E; [|reflexivity].
  specialize (He eq_refl). destruct Hhx as [_ Hhx].
  rewrite Hhx in He; [discriminate|]. by destruct Hh as [->| ->].
Qed.

(** A [Stop] that finds the channel open returns. *)
Lemma Stop_returns s :
  reachable s -> host s = HostIdle -> done (reader s) = ChanOpen -> ended s = false ->
  stopReturns s.
Proof.
  intros Hr Hh Hd He. unfold stopReturns, callStop. rewrite He, Hh.
  eexists. split; [reflexivity|].
  set (s0 := mkSystem _ _ StopLock _ _).
  assert (reachable s0) as Hr0.
  { eapply reachable_step; [exact Hr|]. apply step_stop. unfold callStop.
    by rewrite He, Hh. }
  intros s0' (Hh0 & Hd0 & Hr0')%taskSteps_frame. specialize (Hr0' Hr0).
  cbn [s0 host reader] in Hh0, Hd0. rewrite Hd in Hd0.
  destruct (open_channel_mutex_free s0' (reachable_invariant _ Hr0') Hd0
              (or_intror Hh0)) as [Hp|[Hm He0]]; [by left|right].
  unfold hostStep at 1. rewrite He0, Hh0, Hm. eexists. split; [reflexivity|].
  set (s1 := mkSystem _ _ StopClose _ _).
  assert (reachable s1) as Hr1.
  { eapply reachable_step; [exact Hr0'|]. apply step_host. unfold hostStep.
    by rewrite He0, Hh0, Hm. }
  intros s1' (Hh1 & Hd1 & Hr1')%taskSteps_frame. specialize (Hr1' Hr1).
  cbn [s1 host reader] in Hh1, Hd1. rewrite Hd0 in Hd1.
  pose proof (host_holds_alive s1' (reachable_invariant _ Hr1') (or_introl Hh1)) as He1.
  unfold hostStep at 1, Stop. rewrite He1, Hh1, Hd1. eexists. split; [reflexivity|].
  set (s2 := mkSystem _ _ StopUnlock _ _).
  assert (reachable s2) as Hr2.
  { eapply reachable_step; [exact Hr1'|]. apply step_host. unfold hostStep, Stop.
    by rewrite He1, Hh1, Hd1. }
  intros s2' (Hh2 & _ & Hr2')%taskSteps_frame. specialize (Hr2' Hr2).
  cbn [s2 host] in Hh2.
  pose proof (host_holds_alive s2' (reachable_invariant _ Hr2') (or_intror Hh2)) as He2.
  unfold hostStep. rewrite He2, Hh2. eexists. split; reflexivity.
Qed.

(** A [Stop] after the goroutine has returned panics. *)
Lemma Stop_after_exit_panics s :
  reachable s -> host s = HostIdle -> task s = Exited ->
  exists s', runStop s = Some s' /\ host s' = HostPanicked CloseOfClosedChannel.
Proof.
  intros Hr Hh Ht.
  destruct (reachable_invariant _ Hr) as (_ & _ & Hcl & Hrx & Hhx & _ & _).
  assert (done (reader s) = ChanClosed) as Hd by (apply Hcl; by rewrite Ht).
  assert (mutex s = None) as Hm.
  { destruct (mutex s) as [[|]|]; [| |reflexivity]; exfalso.
    - destruct Hhx as [Hhx _]. specialize (Hhx eq_refl). rewrite Hh in Hhx. discriminate.
    - destruct Hrx as [Hrx _]. specialize (Hrx eq_refl). rewrite Ht in Hrx. discriminate. }
  set (s0 := mkSystem (reader s) (mutex s) StopLock (task s) (started s)).
  set (s1 := mkSystem (reader s) (Some Host) StopClose (task s) (started s)).
  set (s2 := mkSystem (reader s) (Some Host) (HostPanicked CloseOfClosedChannel)
               (task s) (started s)).
  assert (ended s = false) as He by (unfold ended; by rewrite Ht).
  assert (callStop s = Some s0) as E0 by (unfold callStop; by rewrite He, Hh).
  assert (hostStep s0 = Some s1) as E1.
  { unfold hostStep. change (ended s0) with (ended s). rewrite He.
    unfold s0. cbn [host mutex reader task started]. by rewrite Hm. }
  assert (hostStep s1 = Some s2) as E2.
  { unfold hostStep. change (ended s1) with (ended s). rewrite He.
    unfold Stop, s1. cbn [host mutex reader task started]. by rewrite Hd. }
  exists s2. unfold runStop. rewrite E0. cbn [mbind option_bind].
  rewrite E1. cbn [mbind option_bind]. rewrite E2. done.
Qed.
End Interleavings.

Section Runs.
Context {L : GoLibrary}.

Lemma runTask_reachable w n s : reachable s -> reachable (runTask w n s).
Proof.
  revert s. induction n as [|n IH]; intros s Hr; cbn [runTask]; [done|].
  destruct (taskStep w s) as [s'|] eqn:Hs; [|done].
  apply IH. eapply reachable_step; [exact Hr|]. eapply step_task. exact Hs.
Qed.

Lemma runStop_reachable s s' : reachable s -> runStop s = Some s' -> reachable s'.
Proof.
  intros Hr. unfold runStop.
  destruct (callStop s) as [s0|] eqn:H0; [|discriminate]. cbn [mbind option_bind].
  destruct (hostStep s0) as [s1|] eqn:H1; [|discriminate]. cbn [mbind option_bind].
  destruct (hostStep s1) as [s2|] eqn:H2; [|discriminate]. cbn [mbind option_bind].
  assert (reachable s2) as Hr2.
  { eapply reachable_step; [|by apply step_host].
    eapply reachable_step; [|by apply step_host].
    eapply reachable_step; [exact Hr|by apply step_stop]. }
  destruct (host s2); try (intros H3; eapply reachable_step; [exact Hr2|by apply step_host]).
  by intros [= <-].
Qed.
End Runs.

(** The state of the samples after [Start]. *)
Lemma afterStart_reachable s :
  Samples.afterStart = Some s -> reachable (L := Samples.sampleLibrary) s.
Proof.
  intros H. eapply reachable_step.
  - apply (reachable_initial (Samples.config "")). by repeat split.
  - eapply step_start. exact H.
Qed.

(** The states of the samples in which the goroutine has panicked: the
    host waits at the [r.Lock()] of [Stop] while the goroutine holds the
    mutex in [clean], and takes no step once the process has ended. *)
Lemma Stop_during_panic :
  (task <$> Samples.panicInClean = Some (CleanClose (Some (IndexOutOfRange 1 1)))
   /\ host <$> Samples.panicInClean = Some StopLock
   /\ Samples.panicInClean ≫= hostStep = None)
  /\ (task <$> Samples.afterPanic = Some (TaskPanicked (IndexOutOfRange 1 1))
      /\ Samples.afterPanic ≫= hostStep = None).
Proof. vm_compute. repeat split; reflexivity. Qed.

(** * The claims *)

Transparent bufio.MaxScanTokenSize bufio.startBufSize.

(** What [read] does in a call in which [os.Stat] succeeds.  A
    rotation is inferred exactly when the size is less than the size
    held and greater than zero.  Without rotation the call reads from
    the handle the reader holds and keeps it.  With rotation it first
    reads from the stale handle; when that returns a nil error the
    stale file has been read to its end and every line that was left in
    it has gone through [processLine]; only then the stale handle is
    closed, and when the path opens the call goes on reading from the
    new handle, at offset 0. *)
Lemma read_rotation {L : GoLibrary} (w : os.World) (r : ltsvLogReader) (size : Z) :
  os.Stat w (Path r) = inl size ->
  let rotated := (size <? prevFileSize r) && (0 <? size) in
  (rotated = true <-> size < prevFileSize r /\ 0 < size)
  /\ (rotated = false ->
      read w r = (setPrevFileSize (fst (readRest w r 0)) size, snd (readRest w r 0))
      /\ sameFile (file r) (file (fst (read w r))))
  /\ (rotated = true ->
      forall r1 n2 f, readCurrentFile w r = (r1, Returned (n2, None)) ->
      os.Open w (Path r) = inl f ->
      exists h h1 r1',
        file r = Some h /\ os.closed h = false
        /\ r1 = set_file r1' (Some h1) /\ os.ino h1 = os.ino h /\ os.unread w h1 = []
        /\ processLines r (bufio.Text <$> lines (os.unread w h)) = (r1', Returned None)
        /\ closeLog r1
           = (set_file r1 (Some (os.mkFile (os.ino h1) (os.offset h1) true)), None)
        /\ reopenLog w r1 = (set_file r1 (Some f), None)
        /\ read w r
           = (setPrevFileSize (fst (readRest w (set_file r1 (Some f)) (wrap64 (0 + n2)))) size,
              snd (readRest w (set_file r1 (Some f)) (wrap64 (0 + n2))))).
Proof.
  intros Hstat rotated. split; [|split].
  - subst rotated. rewrite andb_true_iff, !Z.ltb_lt. done.
  - intros Hrot.
    assert (read w r = (setPrevFileSize (fst (readRest w r 0)) size, snd (readRest w r 0)))
      as Hread.
    { unfold read. rewrite Hstat. unfold readBody. fold rotated. rewrite Hrot.
      by destruct (readRest w r 0). }
    split; [done|]. rewrite Hread. cbn [fst].
    change (file (setPrevFileSize ?x size)) with (file x).
    unfold readRest. pose proof (readCurrentFile_sameFile w r) as Hs.
    by destruct (readCurrentFile w r) as [r' [[n2 e]|p]].
  - intros Hrot r1 n2 f Hdrain Hopen.
    destruct (readCurrentFile_drains _ _ _ _ Hdrain)
      as (h & h1 & r1' & Hf & Hc & -> & Hi & Hc1 & Hu & Hp).
    assert (Path r1' = Path r) as HP.
    { change r1' with (fst (r1', Returned (A := option error) None)).
      rewrite <- Hp. apply processLines_Path. }
    assert (closeLog (set_file r1' (Some h1))
            = (set_file (set_file r1' (Some h1))
                 (Some (os.mkFile (os.ino h1) (os.offset h1) true)), None)) as Hclose.
    { unfold closeLog, os.Close. cbn [file set_file]. by rewrite Hc1. }
    assert (reopenLog w (set_file r1' (Some h1))
            = (set_file (set_file r1' (Some h1)) (Some f), None))
      as Hreopen.
    { unfold reopenLog. rewrite Hclose. unfold openLog.
      cbn [Path set_file]. by rewrite HP, Hopen. }
    exists h, h1, r1'. repeat split; try done.
    unfold read. rewrite Hstat. unfold readBody. fold rotated. rewrite Hrot, Hdrain.
    cbv zeta. rewrite Hreopen.
    by destruct (readRest w _ _).
Qed.

(** C1.  The rotation of the samples: the path has gone from inode 0,
    of 18 bytes when the reader read it, to inode 1, of 7, and a
    rotation is inferred.  Two lines have been added to inode 0 since,
    and the first of them is malformed: [read] returns the error before
    it comes to [r.reopenLog()]; the reader still holds the handle on
    inode 0, open and at its end, and the second of the two lines has
    not been emitted.  The size held is now 7.  At the next call, and at a
    call after the new file has grown to 21 bytes, the size is not less
    than the size held: no rotation is inferred, the call reads the
    stale handle, which is at its end, and returns 0 and nil.  Neither
    the rest of the old file nor a line of the new file is ever
    emitted. *)
Theorem read_rotation_drain_error :
  let w := Samples.afterRotation in
  let r := Samples.rotationReader in
  let call1 := read (L := Samples.sampleLibrary) w r in
  let call2 := read (L := Samples.sampleLibrary) w (fst call1) in
  let call3 := read (L := Samples.sampleLibrary) afterGrowth (fst call2) in
  os.Stat w (Path r) = inl 7 /\ prevFileSize r = 18
  /\ file r = Some (os.mkFile 0 18 false) /\ os.paths w !! Path r = Some 1%nat
  /\ snd call1 = Returned (0, Some (ErrSyntax "ParseInt" "abc"))
  /\ file (fst call1) = Some (os.mkFile 0 56 false)
  /\ length (acc (fst call1)) = length (acc r)
  /\ snd call2 = Returned (0, None)
  /\ file (fst call2) = Some (os.mkFile 0 56 false)
  /\ length (acc (fst call2)) = length (acc r)
  /\ os.Stat afterGrowth (Path r) = inl 21
  /\ snd call3 = Returned (0, None)
  /\ file (fst call3) = Some (os.mkFile 0 56 false)
  /\ acc (fst call3) = acc r.
Proof. vm_compute. repeat split; reflexivity. Qed.

(** C2.  The modifier that [Start] makes for add_uniq_tag holds the zero
    time as the previous one.  A first point at the zero time, which is
    what a line without time term gives, is taken for a duplicate and
    gets the uniq tag "1"; the points of its run get "1", "2", "3" and
    not nothing, "1", "2".  Away from the zero time the four points get
    nothing, "1", "2" and nothing. *)
Theorem add_uniq_tag_at_zero_time :
  let m := selectModifier "add_uniq_tag" "uniq" in
  let uniq (p : Time * gmap string string) := snd p !! "uniq" in
  uniq <$> snd (ModifyAll m [(time.zero, ∅)]) = [Some "1"]
  /\ uniq <$> snd (ModifyAll m [(time.zero, ∅); (time.zero, ∅); (time.zero, ∅);
                               (Samples.t2, ∅)])
     = [Some "1"; Some "2"; Some "3"; None]
  /\ uniq <$> snd (ModifyAll m [(Samples.t1, ∅); (Samples.t1, ∅); (Samples.t1, ∅);
                               (Samples.t2, ∅)])
     = [None; Some "1"; Some "2"; None]
  /\ (fun p => tags p !! "uniq")
       <$> acc (fst (processLine (L := Samples.sampleLibrary)
                       (Samples.started "add_uniq_tag" Samples.beforeRotation)
                       "host:localhost"))
     = [Some "1"].
Proof. vm_compute. repeat split; reflexivity. Qed.

(** C3, amended.  [Modify] of increment_time replaces a timestamp that
    is not after the previous one by the previous one plus a nanosecond
    and keeps what it gives out as the previous one.  Three equal
    timestamps [t] that are after the previous one of the modifier, and
    not at the end of the range of [int64] seconds, come out as [t],
    [t] plus one and [t] plus two nanoseconds. *)
Theorem increment_time_three (m : IncTimeDupPointModifier) (t : Time)
    (g1 g2 g3 : gmap string string) :
  time.After t (it_prevTime m) = true ->
  0 <= time.nsec t < 1000000000 ->
  - 2 ^ 63 <= time.sec t < 2 ^ 63 - 2 ->
  (forall m' t' g,
     Modify m' t' g
     = let out := if time.After t' (it_prevTime m') then t'
                  else time.Add (it_prevTime m') time.Nanosecond in
       (mkIncTime out, out, g))
  /\ fst <$> snd (ModifyAll m [(t, g1); (t, g2); (t, g3)])
     = [t; time.Add t time.Nanosecond;
        time.Add (time.Add t time.Nanosecond) time.Nanosecond]
  /\ (instant ∘ fst) <$> snd (ModifyAll m [(t, g1); (t, g2); (t, g3)])
     = [instant t; instant t + 1; instant t + 2].
Proof.
  intros Haft Hn Hs.
  destruct (IncTime_three m t g1 g2 g3 Haft Hn Hs) as [H1 H2].
  split; [apply IncTime_Modify_rule|]. split; [exact H1|].
  rewrite <- H2, <- H1. by rewrite <- list_fmap_compose.
Qed.

(** The timestamp of the line of the test, after [Start]. *)
Lemma increment_time_three_witness :
  (instant ∘ fst) <$> snd (ModifyAll (mkIncTime time.zero)
                             [(Samples.t1, ∅); (Samples.t1, ∅); (Samples.t1, ∅)])
  = [63592610337000000000; 63592610337000000001; 63592610337000000002].
Proof.
  destruct (increment_time_three (mkIncTime time.zero) Samples.t1 ∅ ∅ ∅)
    as (_ & _ & H); [reflexivity|vm_compute; intuition discriminate
                    |vm_compute; intuition discriminate|exact H].
Defined.

(** C3 as it is written fails at the start: the modifier that [Start]
    makes holds the zero time, three lines without time term have the
    zero time, and they come out one, two and three nanoseconds after it. *)
Lemma increment_time_at_zero_time :
  (instant ∘ fst) <$> snd (ModifyAll (selectModifier "increment_time" "uniq")
                             [(time.zero, ∅); (time.zero, ∅); (time.zero, ∅)])
  = [instant time.zero + 1; instant time.zero + 2; instant time.zero + 3].
Proof. vm_compute. reflexivity. Qed.

(** C4.  The log of the samples has a malformed line and then a well
    formed one, 55 bytes in all.  The first turn of the goroutine reads
    both lines off the file into the buffer of the scanner, stops at
    the malformed one and reports the error; the scanner is dropped with
    the second line in it.  At the second turn the file has nothing
    left: the well formed line is never decoded and no point is emitted
    for it. *)
Theorem line_error_drops_buffered_lines :
  let w := Samples.badThenGoodWorld in
  let r := Samples.started "" w in
  let turn1 := receiverTurn (L := Samples.sampleLibrary) w r in
  let turn2 := receiverTurn (L := Samples.sampleLibrary) w (fst turn1) in
  snd turn1 = Continue (Some (ErrSyntax "ParseInt" "abc")) false
  /\ acc (fst turn1) = []
  /\ file (fst turn1) = Some (os.mkFile 0 55 false)
  /\ os.unread w <$> file (fst turn1) = Some []
  /\ snd turn2 = Continue None true
  /\ acc (fst turn2) = []
  /\ snd (processLine (L := Samples.sampleLibrary) r
            (Samples.line ["host:localhost"; "body_bytes_sent:612"])) = Returned None.
Proof. vm_compute. repeat split; reflexivity. Qed.

(** C5, amended.  A call of [readCurrentFile] that returns a nil error
    has read the file to its end and has given every line of what was
    unread to [processLine], one point each; the bytes after the last
    line feed, when there are any, are the last of these lines: a
    partial line is consumed and emitted in the call that finds it.
    What a later call finds unread is what was written in between, and
    no byte of the partial line. *)
Theorem readCurrentFile_consumes_fragment {L : GoLibrary} (w : os.World)
    (r r' : ltsvLogReader) (n : Z) :
  readCurrentFile w r = (r', Returned (n, None)) ->
  exists h h' r'',
    file r = Some h /\ os.closed h = false
    /\ r' = set_file r'' (Some h') /\ os.ino h' = os.ino h /\ os.unread w h' = []
    /\ processLines r (bufio.Text <$> lines (os.unread w h)) = (r'', Returned None)
    /\ (exists ps, acc r' = (acc r ++ ps)%list
                   /\ length ps = length (lines (os.unread w h)))
    /\ (forall whole frag,
          os.unread w h = (whole ++ frag)%list ->
          whole = [] \/ last whole = Some LF ->
          frag <> [] -> bufio.IndexByte frag LF = None ->
          lines (os.unread w h) = (lines whole ++ [bufio.dropCR frag])%list)
    /\ (forall w' more,
          os.contents w' (os.ino h) = (os.contents w (os.ino h) ++ more)%list ->
          (os.offset h <= length (os.contents w (os.ino h)))%nat ->
          os.unread w' h' = more).
Proof.
  intros Hread.
  destruct (readCurrentFile_drains _ _ _ _ Hread)
    as (h & h' & r'' & Hf & Hc & -> & Hi & _ & Hu & Hp).
  exists h, h', r''. repeat split; try done.
  - destruct (processLines_acc _ _ _ Hp) as (ps & Hps & Hlen).
    exists ps. rewrite length_map in Hlen. by rewrite acc_set_file.
  - intros whole frag -> Hw Hne Hi'. by apply lines_fragment.
  - intros w' more Hmore Hoff.
    pose proof (readCurrentFile_advanced w r) as Hadv.
    rewrite Hread, Hf in Hadv. cbn [fst file set_file advanced] in Hadv.
    assert (length (os.contents w (os.ino h)) <= os.offset h')%nat as Hend.
    { apply (f_equal length) in Hu. unfold os.unread in Hu.
      rewrite length_drop, Hi in Hu. cbn in Hu. lia. }
    unfold os.unread. rewrite Hi, Hmore.
    replace (os.offset h') with (length (os.contents w (os.ino h))) by lia.
    apply drop_app_length.
Qed.

(** The log of the samples whose last line has no line feed yet, and
    what is unread once the writer has ended that line. *)
Lemma readCurrentFile_consumes_fragment_witness :
  exists h h' r'',
    file (Samples.started "" Samples.partialWorld) = Some h
    /\ os.unread Samples.partialWorld h' = []
    /\ processLines (L := Samples.sampleLibrary) (Samples.started "" Samples.partialWorld)
         (bufio.Text <$> lines (os.unread Samples.partialWorld h))
       = (r'', Returned None)
    /\ lines (os.unread Samples.partialWorld h)
       = (lines (Samples.logOf ["host:a"]) ++ [list_ascii_of_string "host:b"])%list
    /\ os.unread Samples.completedWorld h' = (list_ascii_of_string "c" ++ [LF])%list.
Proof.
  destruct (readCurrentFile_consumes_fragment (L := Samples.sampleLibrary)
              Samples.partialWorld (Samples.started "" Samples.partialWorld)
              (fst (readCurrentFile (L := Samples.sampleLibrary) Samples.partialWorld
                      (Samples.started "" Samples.partialWorld))) 12)
    as (h & h' & r'' & Hf & _ & _ & _ & Hu & Hp & _ & Hfrag & Hlater).
  { vm_compute. reflexivity. }
  exists h, h', r''. repeat split; try done.
  - injection Hf as <-.
    apply (Hfrag (Samples.logOf ["host:a"]) (list_ascii_of_string "host:b")).
    + reflexivity.
    + right. reflexivity.
    + discriminate.
    + reflexivity.
  - injection Hf as <-. apply Hlater.
    + reflexivity.
    + vm_compute. lia.
Defined.

(** C5 as it is written fails.  The log ends in "host:b" without line
    feed: the call emits a point for it and leaves nothing unread.  The
    writer then ends the line, which is "host:bc": the next call finds
    "c" alone and emits a point without any tag. *)
Lemma partial_line_is_emitted :
  let r1 := fst (read (L := Samples.sampleLibrary) Samples.partialWorld
                   (Samples.started "" Samples.partialWorld)) in
  let r2 := fst (read (L := Samples.sampleLibrary) Samples.completedWorld r1) in
  (fun p => tags p !! "host") <$> acc r1 = [Some "a"; Some "b"]
  /\ os.unread Samples.partialWorld <$> file r1 = Some []
  /\ (fun p => tags p !! "host") <$> acc r2 = [Some "a"; Some "b"; None].
Proof. vm_compute. repeat split; reflexivity. Qed.

(** C6.  A term without colon whose label is the time label, a field
    label or a tag label makes [processLine] panic: the index 1 is out
    of the range of a slice of length 1.  Only a term whose label the
    reader does not know, as "+0000" in the line of the test, is passed
    over. *)
Theorem term_without_colon_panics :
  let r := Samples.started "" Samples.beforeRotation in
  snd (processLine (L := Samples.sampleLibrary) r "host") = Panicked (IndexOutOfRange 1 1)
  /\ snd (processLine (L := Samples.sampleLibrary) r "time") = Panicked (IndexOutOfRange 1 1)
  /\ snd (processLine (L := Samples.sampleLibrary) r "body_bytes_sent")
     = Panicked (IndexOutOfRange 1 1)
  /\ snd (processLine (L := Samples.sampleLibrary) r (Samples.line ["host:localhost"; "status"]))
     = Panicked (IndexOutOfRange 1 1)
  /\ snd (processLine (L := Samples.sampleLibrary) r "+0000") = Returned None.
Proof. vm_compute. repeat split; reflexivity. Qed.





(** C8.  After a call of [read] in which [os.Stat] succeeds, the size
    that the reader holds is the size [os.Stat] has just given, whatever
    the call did afterwards: rotation inferred or not, nil error, error
    or panic. *)
Theorem read_records_size {L : GoLibrary} (w : os.World) (r : ltsvLogReader) (size : Z) :
  os.Stat w (Path r) = inl size ->
  prevFileSize (fst (read w r)) = size.
Proof.
  intros Hstat. unfold read. rewrite Hstat.
  by destruct (readBody w r size) as [r' out].
Qed.

(** The rotation of the samples, where the call returns an error once
    the size is taken. *)
Lemma read_records_size_witness :
  prevFileSize (fst (read (L := Samples.sampleLibrary) Samples.afterRotation
                       Samples.rotationReader)) = 7
  /\ snd (read (L := Samples.sampleLibrary) Samples.afterRotation Samples.rotationReader)
     = Returned (0, Some (ErrSyntax "ParseInt" "abc")).
Proof.
  split.
  - apply (read_records_size (L := Samples.sampleLibrary)). vm_compute. reflexivity.
  - vm_compute. reflexivity.
Defined.

(** C9, amended.  In every state that the host and the goroutine get
    to, a [Stop] that the host calls while the channel is open neither
    waits for ever nor panics: the host gets the mutex, [close] does not
    panic and [Stop] returns, whatever the goroutine does meanwhile,
    unless the goroutine has panicked and ends the process before
    [Stop] has the mutex.  A [Stop] called after the goroutine has
    returned finds the mutex free and panics: the goroutine returns only
    once the channel is closed, and [close] of a closed channel panics. *)
Theorem Stop_returns_once {L : GoLibrary} (s : System) :
  reachable s -> host s = HostIdle ->
  (done (reader s) = ChanOpen -> ended s = false -> stopReturns s)
  /\ (task s = Exited ->
      done (reader s) = ChanClosed
      /\ exists s', runStop s = Some s' /\ host s' = HostPanicked CloseOfClosedChannel).
Proof.
  intros Hr Hh. split.
  - by apply Stop_returns.
  - intros Ht. split; [|by apply Stop_after_exit_panics].
    destruct (reachable_invariant _ Hr) as (_ & _ & Hcl & _). apply Hcl. by rewrite Ht.
Qed.

(** The first [Stop] of the samples, right after [Start]: it returns
    whatever the goroutine does, and does so when the goroutine does
    nothing. *)
Lemma Stop_returns_once_witness :
  exists s, Samples.afterStart = Some s
    /\ stopReturns (L := Samples.sampleLibrary) s
    /\ host <$> Samples.afterStop = Some HostIdle.
Proof.
  destruct Samples.afterStart as [s|] eqn:Hs; [|discriminate].
  exists s. split; [reflexivity|]. split.
  - apply (Stop_returns_once (L := Samples.sampleLibrary) s).
    + by apply afterStart_reachable.
    + vm_compute in Hs. by injection Hs as <-.
    + vm_compute in Hs. by injection Hs as <-.
    + vm_compute in Hs. by injection Hs as <-.
  - vm_compute. reflexivity.
Defined.

(** C9 as it is written fails.  [Start], [Stop], and the goroutine
    returns; the second [Stop] panics. *)
Lemma Stop_after_exit :
  exists s,
    Samples.afterExit = Some s
    /\ reachable (L := Samples.sampleLibrary) s
    /\ task s = Exited /\ host s = HostIdle /\ mutex s = None
    /\ host <$> Samples.afterSecondStop = Some (HostPanicked CloseOfClosedChannel).
Proof.
  unfold Samples.afterSecondStop, Samples.afterExit, Samples.afterStop.
  destruct Samples.afterStart as [s1|] eqn:H1; [|discriminate].
  cbn [mbind option_bind].
  destruct (runStop s1) as [s2|] eqn:H2.
  2:{ vm_compute in H1. injection H1 as <-. vm_compute in H2. discriminate. }
  cbn [fmap option_fmap option_map].
  eexists. split; [reflexivity|]. split.
  { apply runTask_reachable. eapply runStop_reachable; [|exact H2].
    by apply afterStart_reachable. }
  vm_compute in H1. injection H1 as <-. vm_compute in H2. injection H2 as <-.
  vm_compute. repeat split; reflexivity.
Qed.

(** C10.  A method that is neither "add_uniq_tag" nor "increment_time"
    makes [Start] take the modifier that changes nothing; [Start] then
    returns nil whenever the file opens, and an error of [Start] is the
    error of opening the file. *)
Theorem Start_other_method_is_no_op (w : os.World) (a : Accumulator) (r : ltsvLogReader) :
  DuplicatePointsWorkaroundMethod r <> "add_uniq_tag" ->
  DuplicatePointsWorkaroundMethod r <> "increment_time" ->
  dupPointModifier (fst (Start w a r)) = Some (NoOp mkNoOp)
  /\ (forall t tags, Modify (NoOp mkNoOp) t tags = (NoOp mkNoOp, t, tags))
  /\ (forall f, os.Open w (Path r) = inl f ->
        snd (Start w a r) = None /\ file (fst (Start w a r)) = Some f)
  /\ (forall e, snd (Start w a r) = Some e -> os.Open w (Path r) = inr e).
Proof.
  intros H1 H2. unfold Start, openLog, selectModifier. cbn [Path].
  rewrite !bool_decide_eq_false_2 by done.
  destruct (os.Open w (Path r)) as [f|e]; cbn [fst snd dupPointModifier set_file file].
  - repeat split; try done. all: congruence.
  - repeat split; try done. all: congruence.
Qed.

(** The method "none" of the sample configuration, the file being there. *)
Lemma Start_other_method_is_no_op_witness :
  dupPointModifier (fst (Start Samples.beforeRotation [] (Samples.config "none")))
  = Some (NoOp mkNoOp)
  /\ snd (Start Samples.beforeRotation [] (Samples.config "none")) = None.
Proof.
  destruct (Start_other_method_is_no_op Samples.beforeRotation [] (Samples.config "none"))
    as (Hm & _ & Hopen & _); [done|done|].
  split; [exact Hm|].
  apply (Hopen (os.mkFile 0 0 false)). vm_compute. reflexivity.
Defined.

(** * Further properties *)

Opaque bufio.MaxScanTokenSize bufio.startBufSize.

(** ** The modifiers over a run of points *)

(** [Modify] through the interface is [Modify] of the implementation. *)
Lemma ModifyAll_AddTag (m : AddTagDupPointModifier) pts :
  ModifyAll (AddTag m) pts = (AddTag (fst (ModifyAll m pts)), snd (ModifyAll m pts)).
Proof.
  revert m. induction pts as [|[t g] pts IH]; intros m; [done|].
  cbn [ModifyAll]. unfold Modify at 1, Value_Modify.
  destruct (Modify m t g) as [[m1 t'] g']. rewrite IH.
  by destruct (ModifyAll m1 pts).
Qed.

Lemma ModifyAll_IncTime (m : IncTimeDupPointModifier) pts :
  ModifyAll (IncTime m) pts = (IncTime (fst (ModifyAll m pts)), snd (ModifyAll m pts)).
Proof.
  revert m. induction pts as [|[t g] pts IH]; intros m; [done|].
  cbn [ModifyAll]. unfold Modify at 1, Value_Modify.
  destruct (Modify m t g) as [[m1 t'] g']. rewrite IH.
  by destruct (ModifyAll m1 pts).
Qed.

Lemma ModifyAll_NoOp (m : NoOpDupPointModifier) pts :
  ModifyAll (NoOp m) pts = (NoOp m, pts).
Proof.
  induction pts as [|[t g] pts IH]; [done|].
  cbn [ModifyAll]. change (Modify (NoOp m) t g) with (NoOp m, t, g).
  cbv iota beta. by rewrite IH.
Qed.

Lemma instant_zero : instant time.zero = 0.
Proof. reflexivity. Qed.

Lemma instant_neq (t u : Time) : instant t <> instant u -> t <> u.
Proof. congruence. Qed.

(** X1.  Under add_uniq_tag as [Start] sets it up, when the first
    timestamp is not the zero time and the points are fewer than 2^63,
    every point comes out with the timestamp of its line, and with the
    tags of its line to which the uniq tag is added, or in which it is
    replaced, from the second point of a run of consecutive equal
    timestamps on: its value is the place in the run, "1" for the second
    point. *)
Theorem add_uniq_tag_run_places (name : string) (t : Time) (g : gmap string string)
    (pts : list (Time * gmap string string)) :
  t <> time.zero ->
  Z.of_nat (length ((t, g) :: pts)) < 2 ^ 63 ->
  snd (ModifyAll (selectModifier "add_uniq_tag" name) ((t, g) :: pts))
  = tagEach name ((t, g) :: pts) (runPlaces None 0 (fst <$> (t, g) :: pts)).
Proof.
  intros Ht Hlen. unfold selectModifier. rewrite bool_decide_eq_true_2 by done.
  rewrite ModifyAll_AddTag. cbn [snd].
  by rewrite (AddTag_run_places (mkAddTag name time.zero 0) t g pts).
Qed.

(** Two runs, of three points and of one; the second point has a tag
    of the name of the uniq tag already, which is replaced. *)
Lemma add_uniq_tag_run_places_witness :
  snd (ModifyAll (selectModifier "add_uniq_tag" "uniq")
         [(Samples.t1, ∅); (Samples.t1, {[ "uniq" := "x"; "host" := "a" ]});
          (Samples.t1, ∅); (Samples.t2, ∅)])
  = [(Samples.t1, ∅); (Samples.t1, {[ "uniq" := "1"; "host" := "a" ]});
     (Samples.t1, {[ "uniq" := "2" ]}); (Samples.t2, ∅)].
Proof.
  rewrite (add_uniq_tag_run_places "uniq" Samples.t1 ∅); [|discriminate|vm_compute; reflexivity].
  vm_compute. reflexivity.
Defined.

(** X2.  add_uniq_tag never changes a timestamp, nor a tag other than
    the uniq tag, whatever the modifier holds and whatever the order of
    the timestamps. *)
Theorem add_uniq_tag_keeps_rest (m : AddTagDupPointModifier)
    (pts : list (Time * gmap string string)) :
  fst <$> snd (ModifyAll m pts) = fst <$> pts
  /\ Forall2 (fun p q => forall k, k <> UniqTagName m -> snd q !! k = snd p !! k)
       pts (snd (ModifyAll m pts)).
Proof.
  remember (UniqTagName m) as name eqn:Hname. revert m Hname.
  induction pts as [|[t g] pts IH]; intros m Hname; [by split; [|constructor]|].
  cbn [ModifyAll]. destruct (Modify m t g) as [[m1 t'] g'] eqn:E.
  assert (name = UniqTagName m1 /\ t' = t /\ forall k, k <> name -> g' !! k = g !! k)
    as (Hn & -> & Hg).
  { unfold Modify, AddTag_Modify in E.
    destruct (bool_decide (t = at_prevTime m)); injection E as <- <- <-;
      cbn [UniqTagName]; repeat split; try done.
    intros k Hk. rewrite lookup_insert_ne; [done|congruence]. }
  destruct (IH m1 Hn) as [H1 H2].
  destruct (ModifyAll m1 pts) as [m2 out]. cbn [snd fmap list_fmap] in *.
  split; [by f_equal|]. by constructor.
Qed.

Lemma wellFormed_mono (hi hi' : Z) (t : Time) : hi <= hi' -> wellFormed hi t -> wellFormed hi' t.
Proof. unfold wellFormed. lia. Qed.

(** X3.  increment_time gives out timestamps that go up strictly, the
    first one after the timestamp the modifier held, whatever the order
    of the timestamps that go in; no timestamp is moved back, and no tag
    is touched.  The timestamps are well formed, and far enough from the
    end of the [int64] range of seconds for the nanoseconds added. *)
Theorem increment_time_increasing (m : IncTimeDupPointModifier)
    (pts : list (Time * gmap string string)) (hi : Z) :
  wellFormed hi (it_prevTime m) ->
  Forall (fun p => wellFormed hi (fst p)) pts ->
  hi + Z.of_nat (length pts) < 2 ^ 63 ->
  increasingFrom (instant (it_prevTime m)) ((instant ∘ fst) <$> snd (ModifyAll m pts))
  /\ Forall2 (fun p q => instant (fst p) <= instant (fst q) /\ snd q = snd p)
       pts (snd (ModifyAll m pts)).
Proof.
  revert m hi. induction pts as [|[t g] pts IH]; intros m hi Hm Hall Hhi.
  { split; [exact I|constructor]. }
  apply Forall_cons in Hall as [Ht Hall]. cbn [fst] in Ht.
  cbn [length] in Hhi. rewrite Nat2Z.inj_succ in Hhi.
  cbn [ModifyAll]. rewrite IncTime_Modify_rule. cbv zeta.
  destruct Hm as [Hmn Hms], Ht as [Htn Hts].
  rewrite After_instant by done.
  assert (Forall (fun p => wellFormed (hi + 1) (fst p)) pts) as Hall'.
  { eapply Forall_impl; [exact Hall|]. intros p. apply wellFormed_mono. lia. }
  case_bool_decide as Hlt.
  - destruct (IH (mkIncTime t) (hi + 1)) as [H1 H2]; [split; cbn; lia|done|lia|].
    cbn [it_prevTime] in H1.
    destruct (ModifyAll (mkIncTime t) pts) as [m2 out]. cbn [snd fmap list_fmap] in *.
    split; [split; [exact Hlt|exact H1]|]. constructor; [|done]. cbn. split; [lia|done].
  - destruct (Add_Nanosecond (it_prevTime m)) as (Hi & Hn & Hs & _); [done|lia|].
    destruct (IH (mkIncTime (time.Add (it_prevTime m) time.Nanosecond)) (hi + 1))
      as [H1 H2]; [split; cbn [it_prevTime]; lia|done|lia|].
    cbn [it_prevTime] in H1.
    destruct (ModifyAll (mkIncTime _) pts) as [m2 out]. cbn [snd fmap list_fmap] in *.
    split; [split; [cbn; lia|exact H1]|]. constructor; [|done]. cbn. split; [lia|done].
Qed.

(** Timestamps that go down, after [Start]. *)
Lemma increment_time_increasing_witness :
  (instant ∘ fst) <$> snd (ModifyAll (mkIncTime time.zero)
                             [(Samples.t2, ∅); (Samples.t1, ∅); (Samples.t1, ∅)])
  = [instant Samples.t2; instant Samples.t2 + 1; instant Samples.t2 + 2]
  /\ increasingFrom 0 [instant Samples.t2; instant Samples.t2 + 1; instant Samples.t2 + 2].
Proof.
  destruct (increment_time_increasing (mkIncTime time.zero)
              [(Samples.t2, ∅); (Samples.t1, ∅); (Samples.t1, ∅)] 63592610338)
    as [H _].
  - vm_compute. intuition discriminate.
  - repeat constructor; vm_compute; discriminate.
  - vm_compute. reflexivity.
  - split; [vm_compute; reflexivity|]. exact H.
Defined.

Lemma AddTag_unchanged (m : AddTagDupPointModifier) (pts : list (Time * gmap string string)) :
  increasingFrom (instant (at_prevTime m)) ((instant ∘ fst) <$> pts) ->
  snd (ModifyAll m pts) = pts.
Proof.
  revert m. induction pts as [|[t g] pts IH]; intros m Hinc; [done|].
  destruct Hinc as [Hlt Hinc]. cbn [ModifyAll]. unfold Modify at 1, AddTag_Modify.
  rewrite bool_decide_eq_false_2.
  2:{ apply instant_neq. cbn in Hlt. lia. }
  specialize (IH (mkAddTag (UniqTagName m) t 0) Hinc).
  destruct (ModifyAll _ pts) as [m2 out]. cbn [snd] in *. by rewrite IH.
Qed.

Lemma IncTime_unchanged (m : IncTimeDupPointModifier) (pts : list (Time * gmap string string)) :
  0 <= time.nsec (it_prevTime m) < 1000000000 ->
  Forall (fun p => 0 <= time.nsec (fst p) < 1000000000) pts ->
  increasingFrom (instant (it_prevTime m)) ((instant ∘ fst) <$> pts) ->
  snd (ModifyAll m pts) = pts.
Proof.
  revert m. induction pts as [|[t g] pts IH]; intros m Hm Hall Hinc; [done|].
  apply Forall_cons in Hall as [Ht Hall]. cbn [fst] in Ht.
  destruct Hinc as [Hlt Hinc]. cbn [ModifyAll]. rewrite IncTime_Modify_rule. cbv zeta.
  rewrite After_instant by done. rewrite bool_decide_eq_true_2 by exact Hlt.
  specialize (IH (mkIncTime t) Ht Hall Hinc).
  destruct (ModifyAll _ pts) as [m2 out]. cbn [snd] in *. by rewrite IH.
Qed.

(** X4.  On points whose timestamps go up strictly, the first one after
    the zero time, the three strategies do the same: whatever the
    configured method, the points come out as they went in. *)
Theorem strategies_agree_on_increasing (method name : string)
    (pts : list (Time * gmap string string)) :
  Forall (fun p => 0 <= time.nsec (fst p) < 1000000000) pts ->
  increasingFrom (instant time.zero) ((instant ∘ fst) <$> pts) ->
  snd (ModifyAll (selectModifier method name) pts) = pts.
Proof.
  intros Hall Hinc. unfold selectModifier.
  repeat case_bool_decide.
  - rewrite ModifyAll_AddTag. by apply AddTag_unchanged.
  - rewrite ModifyAll_IncTime. apply IncTime_unchanged; [cbn; lia|done|done].
  - by rewrite ModifyAll_NoOp.
Qed.

(** Two timestamps a second apart, under increment_time. *)
Lemma strategies_agree_on_increasing_witness :
  snd (ModifyAll (selectModifier "increment_time" "uniq")
         [(Samples.t1, {[ "host" := "a" ]}); (Samples.t2, ∅)])
  = [(Samples.t1, {[ "host" := "a" ]}); (Samples.t2, ∅)].
Proof.
  apply strategies_agree_on_increasing.
  - repeat constructor; vm_compute; discriminate.
  - vm_compute. repeat split; reflexivity.
Defined.

(** ** The field set and the tag set *)

(** [for _, x := range l { s[x] = v }]. *)
Lemma lookup_foldl_insert {V} (v : V) (l : list string) (s : gmap string V) (k : string) :
  foldl (fun s x => <[x := v]> s) s l !! k
  = if bool_decide (k ∈ l) then Some v else s !! k.
Proof.
  revert s. induction l as [|x l IH]; intros s; cbn [foldl].
  - rewrite bool_decide_eq_false_2; [done|]. apply not_elem_of_nil.
  - rewrite IH. destruct (decide (k ∈ l)) as [Hin|Hin].
    + rewrite !bool_decide_eq_true_2; [done|by right|done].
    + rewrite (bool_decide_eq_false_2 (k ∈ l)) by done.
      destruct (decide (k = x)) as [->|Hne].
      * rewrite lookup_insert_eq. rewrite bool_decide_eq_true_2; [done|by left].
      * rewrite lookup_insert_ne by done. rewrite bool_decide_eq_false_2; [done|].
        rewrite elem_of_cons. tauto.
Qed.

(** X5.  What [newFieldSet] holds for a label: the type of the last of
    the four lists, in the order string, int, float, boolean, that has
    the label; nothing for a label that none has.  A label configured
    under two types is a field of the later one. *)
Theorem newFieldSet_lookup (strFields intFields floatFields boolFields : list string)
    (k : string) :
  newFieldSet strFields intFields floatFields boolFields !! k
  = if bool_decide (k ∈ boolFields) then Some "boolean"
    else if bool_decide (k ∈ floatFields) then Some "float"
    else if bool_decide (k ∈ intFields) then Some "int"
    else if bool_decide (k ∈ strFields) then Some "string"
    else None.
Proof.
  unfold newFieldSet. cbv zeta. rewrite !lookup_foldl_insert.
  by rewrite lookup_empty.
Qed.

(** X6.  [newTagSet] holds [true] for the configured tag labels and
    nothing else: no label is held with [false]. *)
Theorem newTagSet_lookup (names : list string) (k : string) :
  newTagSet names !! k = if bool_decide (k ∈ names) then Some true else None.
Proof. unfold newTagSet. by rewrite lookup_foldl_insert, lookup_empty. Qed.

(** ** What a line decodes to *)

Lemma lastValue_cons (k term : string) (terms : list string) :
  lastValue k (term :: terms)
  = match lastValue k terms with
    | Some v => Some v
    | None => valueOf k term
    end.
Proof.
  unfold lastValue. cbn [omap list_omap].
  destruct (valueOf k term) as [v|]; [|by destruct (last _)].
  by rewrite last_cons.
Qed.

Lemma valueOf_other (k term : string) : labelOf term <> k -> valueOf k term = None.
Proof.
  unfold labelOf, valueOf. destruct (strings.cut term COLON) as [[a b]|]; [|done].
  intros Hne. by rewrite bool_decide_eq_false_2.
Qed.

Lemma valueOf_cut (k v term : string) :
  strings.cut term COLON = Some (k, v) -> valueOf k term = Some v.
Proof. intros H. unfold valueOf. rewrite H. by rewrite bool_decide_eq_true_2. Qed.

Section Decoded.
Context {L : GoLibrary}.


(** What one term does to the variables of [processLine] when the loop
    goes on after it. *)
Lemma decodeTerm_effect (r : ltsvLogReader) (t t' : Time) fs fs' tg tg' (term : string) :
  decodeTerm r (t, fs, tg) term = Returned (inl (t', fs', tg')) ->
  match roleOf r (labelOf term) with
  | TimeRole =>
      exists v, strings.cut term COLON = Some (labelOf term, v)
        /\ time_Parse (TimeFormat r) v = inl t' /\ fs' = fs /\ tg' = tg
  | FieldRole typ =>
      t' = t /\ tg' = tg
      /\ ((exists v fv, knownType typ /\ strings.cut term COLON = Some (labelOf term, v)
             /\ convert typ v = Some fv /\ fs' = <[labelOf term := fv]> fs)
          \/ (~ knownType typ /\ fs' = fs))
  | TagRole =>
      exists v, strings.cut term COLON = Some (labelOf term, v)
        /\ t' = t /\ fs' = fs /\ tg' = <[labelOf term := v]> tg
  | NoRole => t' = t /\ fs' = fs /\ tg' = tg
  end.
Proof.
  unfold decodeTerm, roleOf, strings.SplitN2, labelOf, knownType.
  destruct (strings.cut term COLON) as [[a b]|].
  - change (sliceIndex [a; b] 0) with (Returned (A:=string) a).
    change (sliceIndex [a; b] 1) with (Returned (A:=string) b).
    cbn [mbind outcome_bind].
    destruct (bool_decide (a = TimeLabel r)).
    { unfold orReturn. destruct (time_Parse (TimeFormat r) b) as [t1|e] eqn:Hp; [|discriminate].
      intros [= <- <- <-]. by repeat esplit. }
    destruct (fieldSet r !! a) as [typ|].
    2:{ destruct (tagSet r !! a); intros [= <- <- <-]; by repeat esplit. }
    unfold orReturn.
    case_bool_decide as H1.
    { subst typ. intros [= <- <- <-]. repeat split. left. exists b, (StringValue b).
      repeat split; try done. set_solver. }
    case_bool_decide as H2.
    { subst typ. destruct (strconv.ParseInt b) as [i|e] eqn:Hp; [|discriminate].
      intros [= <- <- <-]. repeat split. left. exists b, (IntValue i).
      repeat split; try done; [set_solver|]. unfold convert. cbn. by rewrite Hp. }
    case_bool_decide as H3.
    { subst typ. destruct (strconv_ParseFloat b) as [i|e] eqn:Hp; [|discriminate].
      intros [= <- <- <-]. repeat split. left. exists b, (FloatValue i).
      repeat split; try done; [set_solver|]. unfold convert. cbn. by rewrite Hp. }
    case_bool_decide as H4.
    { subst typ. destruct (strconv.ParseBool b) as [i|e] eqn:Hp; [|discriminate].
      intros [= <- <- <-]. repeat split. left. exists b, (BoolValue i).
      repeat split; try done; [set_solver|]. unfold convert. cbn. by rewrite Hp. }
    intros [= <- <- <-]. repeat split. right. split; [|done].
    rewrite !elem_of_cons, elem_of_nil. tauto.
  - change (sliceIndex [term] 0) with (Returned (A:=string) term).
    change (sliceIndex [term] 1) with (Panicked (A:=string) (IndexOutOfRange 1 1)).
    cbn [mbind outcome_bind].
    destruct (bool_decide (term = TimeLabel r)); [discriminate|].
    destruct (fieldSet r !! term) as [typ|].
    2:{ destruct (tagSet r !! term); [discriminate|]. intros [= <- <- <-]; by repeat esplit. }
    repeat case_bool_decide; try discriminate.
    intros [= <- <- <-]. repeat split. right. split; [|done].
    rewrite !elem_of_cons, elem_of_nil. tauto.
Qed.

(** A term whose label the reader does not know is passed over. *)
Lemma decodeTerm_no_role (r : ltsvLogReader) (st : decoded) (term : string) :
  roleOf r (labelOf term) = NoRole -> decodeTerm r st term = Returned (inl st).
Proof.
  unfold roleOf, decodeTerm. destruct st as [[t fs] tg]. rewrite SplitN2_label.
  cbn [mbind outcome_bind].
  destruct (bool_decide (labelOf term = TimeLabel r)); [discriminate|].
  destruct (fieldSet r !! labelOf term); [discriminate|].
  by destruct (tagSet r !! labelOf term).
Qed.

(** What the loop of [processLine] leaves in its variables when it
    runs to its end. *)
Lemma decodeTerms_effect (r : ltsvLogReader) (terms : list string)
    (t0 t : Time) fs0 fs tg0 tg :
  decodeTerms r (t0, fs0, tg0) terms = Returned (inl (t, fs, tg)) ->
  match lastValue (TimeLabel r) terms with
  | Some v => time_Parse (TimeFormat r) v = inl t
  | None => t = t0
  end
  /\ forall k,
      match roleOf r k with
      | TimeRole => fs !! k = fs0 !! k /\ tg !! k = tg0 !! k
      | FieldRole typ =>
          tg !! k = tg0 !! k
          /\ match lastValue k terms with
             | Some v => (knownType typ -> fs !! k = convert typ v /\ is_Some (convert typ v))
                         /\ (~ knownType typ -> fs !! k = fs0 !! k)
             | None => fs !! k = fs0 !! k
             end
      | TagRole =>
          fs !! k = fs0 !! k
          /\ tg !! k = match lastValue k terms with
                       | Some v => Some v
                       | None => tg0 !! k
                       end
      | NoRole => fs !! k = fs0 !! k /\ tg !! k = tg0 !! k
      end.
Proof.
  revert t0 fs0 tg0.
  induction terms as [|term terms IH]; intros t0 fs0 tg0; cbn [decodeTerms].
  { intros [= <- <- <-]. split; [done|]. intros k. by destruct (roleOf r k). }
  destruct (decodeTerm r (t0, fs0, tg0) term) as [[[[t1 fs1] tg1]|e]|p] eqn:Hd;
    try discriminate.
  intros Hrest. destruct (IH _ _ _ Hrest) as [Ht Hk]. clear IH Hrest.
  apply decodeTerm_effect in Hd.
  split.
  - rewrite lastValue_cons.
    destruct (lastValue (TimeLabel r) terms) as [v|]; [done|]. subst t.
    destruct (decide (labelOf term = TimeLabel r)) as [Heq|Hne].
    + unfold roleOf in Hd. rewrite bool_decide_eq_true_2 in Hd by done.
      destruct Hd as (v & Hc & Hp & _). rewrite Heq in Hc.
      by rewrite (valueOf_cut _ _ _ Hc).
    + rewrite valueOf_other by done.
      unfold roleOf in Hd. rewrite bool_decide_eq_false_2 in Hd by done.
      destruct (fieldSet r !! labelOf term); [by destruct Hd|].
      destruct (tagSet r !! labelOf term); [by destruct Hd as (? & ? & ? & ?)|].
      by destruct Hd.
  - intros k. specialize (Hk k). rewrite lastValue_cons.
    destruct (decide (labelOf term = k)) as [Heq|Hne].
    + rewrite Heq in Hd. destruct (roleOf r k) as [|typ| |].
      * destruct Hd as (v & _ & _ & -> & ->). done.
      * destruct Hk as [Hk1 Hk2]. destruct Hd as (_ & -> & Hd). split; [done|].
        destruct Hd as [(v & fv & Hty & Hc & Hcv & ->)|[Hty ->]].
        -- rewrite (valueOf_cut _ _ _ Hc).
           destruct (lastValue k terms) as [v'|].
           { destruct Hk2 as [Ha _]. split; [exact Ha|]. intros Hn. by destruct Hn. }
           rewrite Hk2, lookup_insert_eq. split; [|done].
           intros _. rewrite Hcv. eauto.
        -- destruct (lastValue k terms) as [v'|]; [done|].
           destruct (valueOf k term); [|done].
           split; [intros Hn; by destruct Hty|done].
      * destruct Hk as [Hk1 Hk2]. destruct Hd as (v & Hc & _ & -> & ->).
        split; [done|]. rewrite Hk2, (valueOf_cut _ _ _ Hc).
        destruct (lastValue k terms); [done|]. by rewrite lookup_insert_eq.
      * by destruct Hd as (_ & -> & ->).
    + rewrite (valueOf_other k term) by done.
      assert (fs1 !! k = fs0 !! k /\ tg1 !! k = tg0 !! k) as [Hf Hg].
      { destruct (roleOf r (labelOf term)).
        - by destruct Hd as (v & _ & _ & -> & ->).
        - destruct Hd as (_ & -> & [(v & fv & _ & _ & _ & ->)|[_ ->]]); [|done].
          by rewrite lookup_insert_ne.
        - destruct Hd as (v & _ & _ & -> & ->). by rewrite lookup_insert_ne.
        - by destruct Hd as (_ & -> & ->). }
      rewrite Hf, Hg in Hk.
      destruct (roleOf r k) as [|typ| |]; try done.
      all: by destruct (lastValue k terms).
Qed.
End Decoded.

(** X7.  The tags that [processLine] has in hand when it has decoded
    a line to its end, and the tags of the point it emits then, the
    uniq tag of add_uniq_tag apart: under a label that is neither the
    time label nor a field label and is a tag label, the text after the
    first colon of the last term with this label, further colons
    included; under any other label, nothing.  A label that is a field
    and a tag gives no tag. *)
Theorem decoded_tags {L : GoLibrary} (r : ltsvLogReader) (line : string)
    (t : Time) (fs : gmap string fieldValue) (tg : gmap string string) :
  decodeLine r line = Returned (inl (t, fs, tg)) ->
  (forall k, tg !! k = match roleOf r k with
                       | TagRole => lastValue k (strings.Split line TAB)
                       | _ => None
                       end)
  /\ (forall m, dupPointModifier r = Some m ->
        exists pt, acc (fst (processLine r line)) = (acc r ++ [pt])%list
          /\ forall k, (forall a, m = AddTag a -> k <> UniqTagName a) ->
               tags pt !! k = match roleOf r k with
                              | TagRole => lastValue k (strings.Split line TAB)
                              | _ => None
                              end).
Proof.
  intros Hd.
  assert (forall k, tg !! k = match roleOf r k with
                              | TagRole => lastValue k (strings.Split line TAB)
                              | _ => None
                              end) as Htg.
  { intros k. destruct (decodeTerms_effect _ _ _ _ _ _ _ _ Hd) as [_ Hk].
    specialize (Hk k). rewrite !lookup_empty in Hk.
    destruct (roleOf r k).
    - by destruct Hk.
    - by destruct Hk.
    - destruct Hk as [_ ->]. by destruct (lastValue _ _).
    - by destruct Hk. }
  split; [exact Htg|]. intros m Hm. unfold processLine. rewrite Hd, Hm.
  destruct (Modify m t tg) as [[m' t'] tg'] eqn:Hmod. cbn [fst acc set_emitted].
  eexists. split; [reflexivity|]. intros k Hk. cbn [tags]. rewrite <- Htg.
  destruct m as [a|im|n]; unfold Modify, Value_Modify in Hmod.
  - unfold Modify, AddTag_Modify in Hmod.
    destruct (bool_decide (t = at_prevTime a)); injection Hmod as <- <- <-; [|done].
    rewrite lookup_insert_ne; [done|]. intros Heq. by apply (Hk a eq_refl).
  - unfold Modify, IncTime_Modify in Hmod. by injection Hmod as <- <- <-.
  - unfold Modify, NoOp_Modify in Hmod. by injection Hmod as <- <- <-.
Qed.

(** A line with a tag twice, a colon in a value and a term that is no
    tag, under add_uniq_tag: the first point of the reader, at the zero
    time. *)
Lemma decoded_tags_witness :
  let r := Samples.started "add_uniq_tag" Samples.beforeRotation in
  let line := Samples.line ["host:a"; "request:GET http://h:80/"; "host:b"; "x:y"] in
  let tg : gmap string string := {[ "host" := "b"; "request" := "GET http://h:80/" ]} in
  decodeLine (L := Samples.sampleLibrary) r line = Returned (inl (time.zero, ∅, tg))
  /\ tg !! "host" = lastValue "host" (strings.Split line TAB)
  /\ lastValue "host" (strings.Split line TAB) = Some "b"
  /\ exists pt, acc (fst (processLine (L := Samples.sampleLibrary) r line)) = [pt]
       /\ tags pt !! "host" = Some "b" /\ tags pt !! "x" = None.
Proof.
  intros r line tg.
  assert (decodeLine (L := Samples.sampleLibrary) r line = Returned (inl (time.zero, ∅, tg)))
    as Hd by (vm_compute; reflexivity).
  destruct (decoded_tags (L := Samples.sampleLibrary) r line _ _ _ Hd) as [Htg Hpt].
  split; [exact Hd|]. split; [exact (Htg "host")|]. split; [vm_compute; reflexivity|].
  destruct (Hpt (AddTag (mkAddTag "uniq" time.zero 0))) as (pt & Hacc & Hk);
    [vm_compute; reflexivity|].
  exists pt. split; [exact Hacc|]. split.
  - rewrite Hk; [vm_compute; reflexivity|]. intros a [= <-]. discriminate.
  - rewrite Hk; [vm_compute; reflexivity|]. intros a [= <-]. discriminate.
Defined.



(** X9.  The timestamp, before the modifier, of the point of a line
    that [processLine] decodes to its end: what [time.Parse] makes of
    the value of the last term with the time label. *)
Theorem decoded_time {L : GoLibrary} (r : ltsvLogReader) (line v : string)
    (t : Time) (fs : gmap string fieldValue) (tg : gmap string string) :
  decodeLine r line = Returned (inl (t, fs, tg)) ->
  lastValue (TimeLabel r) (strings.Split line TAB) = Some v ->
  time_Parse (TimeFormat r) v = inl t.
Proof.
  intros Hd Hv. destruct (decodeTerms_effect _ _ _ _ _ _ _ _ Hd) as [Ht _].
  by rewrite Hv in Ht.
Qed.

(** A line with a tag and the time term of the test. *)
Lemma decoded_time_witness :
  let r := Samples.started "" Samples.beforeRotation in
  let line := Samples.line ["host:a"; "time:2016-03-03T13:58:57+00:00"] in
  decodeLine (L := Samples.sampleLibrary) r line
  = Returned (inl (Samples.t1, ∅, {[ "host" := "a" ]}))
  /\ time_Parse (GoLibrary := Samples.sampleLibrary) "2006-01-02T15:04:05-07:00"
       "2016-03-03T13:58:57+00:00" = inl Samples.t1.
Proof.
  intros r line.
  assert (decodeLine (L := Samples.sampleLibrary) r line
          = Returned (inl (Samples.t1, ∅, {[ "host" := "a" ]})))
    as Hd by (vm_compute; reflexivity).
  split; [exact Hd|].
  apply (decoded_time (L := Samples.sampleLibrary) r line _ _ _ _ Hd).
  vm_compute. reflexivity.
Defined.

(** ** Labels, unknown terms, and writing a line *)


Section Unknown.
Context {L : GoLibrary}.

Lemma decodeTerms_filter (r : ltsvLogReader) (st : decoded) (terms : list string) :
  decodeTerms r st terms = decodeTerms r st (filter (known r) terms).
Proof.
  revert st. induction terms as [|term terms IH]; intros st; [done|].
  rewrite filter_cons. unfold known at 1. destruct (decide (_ <> NoRole)) as [Hk|Hk].
  - cbn [decodeTerms]. destruct (decodeTerm r st term) as [[st'|e]|p]; [apply IH|done..].
  - apply dec_stable in Hk. cbn [decodeTerms]. rewrite decodeTerm_no_role by done. apply IH.
Qed.
End Unknown.

(** X11.  [processLine] passes over the terms whose label is not the
    time label, a field label or a tag label: two lines that have the
    same terms with known labels, in the same order, have the same
    outcome. *)
Theorem unknown_terms_ignored {L : GoLibrary} (r : ltsvLogReader) (line line' : string) :
  filter (known r) (strings.Split line TAB) = filter (known r) (strings.Split line' TAB) ->
  processLine r line = processLine r line'.
Proof.
  intros H. unfold processLine, decodeLine.
  by rewrite (decodeTerms_filter r _ (strings.Split line TAB)),
    (decodeTerms_filter r _ (strings.Split line' TAB)), H.
Qed.

(** The line of the test, and the same line without the terms that
    the configuration of the test does not name. *)
Lemma unknown_terms_ignored_witness :
  processLine (L := Samples.sampleLibrary) (Samples.started "" Samples.beforeRotation)
    Samples.sampleLine
  = processLine (L := Samples.sampleLibrary) (Samples.started "" Samples.beforeRotation)
      (Samples.line
         ["time:2016-03-03T13:58:57+00:00"; "host:localhost"; "http_host:localhost";
          "scheme:http"; "remote_addr:127.0.0.1"; "remote_user:-";
          "request:GET / HTTP/1.1"; "status:200"; "body_bytes_sent:612";
          "http_referer:-"; "http_user_agent:curl/7.29.0"; "request_time:0.000"]).
Proof. apply unknown_terms_ignored. vm_compute. reflexivity. Defined.

(** X12.  A line none of whose terms has a known label, the empty line
    among them, does not fail: [processLine] emits a point for it,
    without fields, whose timestamp and tags are what the modifier
    makes of the zero time and of no tag. *)
Theorem line_without_known_label {L : GoLibrary} (r : ltsvLogReader) (line : string)
    (m : dupPointModifierValue) :
  Forall (fun term => roleOf r (labelOf term) = NoRole) (strings.Split line TAB) ->
  dupPointModifier r = Some m ->
  processLine r line
  = (set_emitted r
       (AddFields (acc r) (Measurement r) ∅
          (snd (Modify m time.zero ∅)) (snd (fst (Modify m time.zero ∅))))
       (Some (fst (fst (Modify m time.zero ∅)))),
     Returned None).
Proof.
  intros Hall Hm. unfold processLine, decodeLine.
  assert (forall st, decodeTerms r st (strings.Split line TAB) = Returned (inl st)) as ->.
  { induction Hall as [|term terms Hterm _ IH]; intros st; [done|].
    cbn [decodeTerms]. by rewrite decodeTerm_no_role. }
  rewrite Hm. by destruct (Modify m time.zero ∅) as [[m' t'] g'].
Qed.

(** The empty line under the configuration of the test. *)
Lemma line_without_known_label_witness :
  acc (fst (processLine (L := Samples.sampleLibrary)
              (Samples.started "" Samples.beforeRotation) ""))
  = [mkPoint "nginx_access" ∅ ∅ time.zero].
Proof.
  rewrite (line_without_known_label (L := Samples.sampleLibrary)
             (Samples.started "" Samples.beforeRotation) "" (NoOp mkNoOp)).
  - reflexivity.
  - repeat constructor.
  - reflexivity.
Defined.

(** ** Writing a line and reading it back *)

Lemma Split_no_sep (a : string) (sep : byte) :
  strings.cut a sep = None -> strings.Split a sep = [a].
Proof.
  induction a as [|c a IH]; cbn; [done|].
  destruct (Ascii.eqb c sep); [discriminate|].
  destruct (strings.cut a sep) as [[? ?]|]; [discriminate|]. intros _. by rewrite IH.
Qed.

Lemma Split_joinTerms (terms : list string) :
  terms <> [] -> Forall (fun t => strings.cut t TAB = None) terms ->
  strings.Split (joinTerms terms) TAB = terms.
Proof.
  induction terms as [|t terms IH]; [done|]. intros _ Hall.
  apply Forall_cons in Hall as [Ht Hall].
  destruct terms as [|t' terms]; [by apply Split_no_sep|].
  change (joinTerms (t :: t' :: terms)) with (t +:+ String TAB (joinTerms (t' :: terms))).
  rewrite Split_app by done. by rewrite IH.
Qed.

Lemma termOf_no_tab (kv : string * string) :
  strings.cut (fst kv) TAB = None -> strings.cut (snd kv) TAB = None ->
  strings.cut (termOf kv) TAB = None.
Proof.
  intros Hk Hv. unfold termOf. apply cut_none_app; [done|]. cbn [strings.cut].
  change (Ascii.eqb COLON TAB) with false. cbv iota. by rewrite Hv.
Qed.

Section RoundTrip.
Context {L : GoLibrary}.

Lemma decodeTerm_tag (r : ltsvLogReader) (t : Time) fs tg (kv : string * string) :
  tagPair r (fst kv) (snd kv) ->
  decodeTerm r (t, fs, tg) (termOf kv) = Returned (inl (t, fs, <[fst kv := snd kv]> tg)).
Proof.
  intros (Hr & Hc & _ & _). unfold decodeTerm, strings.SplitN2, termOf.
  rewrite cut_app by done.
  change (sliceIndex [fst kv; snd kv] 0) with (Returned (A:=string) (fst kv)).
  change (sliceIndex [fst kv; snd kv] 1) with (Returned (A:=string) (snd kv)).
  cbn [mbind outcome_bind]. unfold roleOf in Hr.
  destruct (bool_decide (fst kv = TimeLabel r)); [discriminate|].
  destruct (fieldSet r !! fst kv); [discriminate|].
  by destruct (tagSet r !! fst kv).
Qed.

Lemma decodeTerms_tags (r : ltsvLogReader) (t : Time) fs tg (kvs : list (string * string)) :
  Forall (fun kv => tagPair r (fst kv) (snd kv)) kvs ->
  decodeTerms r (t, fs, tg) (termOf <$> kvs)
  = Returned (inl (t, fs, foldl (fun tg kv => <[fst kv := snd kv]> tg) tg kvs)).
Proof.
  revert tg. induction kvs as [|kv kvs IH]; intros tg Hall; [done|].
  apply Forall_cons in Hall as [Hkv Hall].
  cbn [fmap list_fmap decodeTerms foldl]. rewrite decodeTerm_tag by done. by apply IH.
Qed.
End RoundTrip.

Lemma foldl_insert_list_to_map (kvs : list (string * string)) (tg : gmap string string) :
  foldl (fun tg kv => <[fst kv := snd kv]> tg) tg kvs
  = foldr (fun kv tg => <[fst kv := snd kv]> tg) tg (reverse kvs).
Proof.
  revert tg. induction kvs as [|kv kvs IH]; intros tg; [done|].
  cbn [foldl]. rewrite IH, reverse_cons, foldr_app. done.
Qed.

(** X13.  Writing tags as a line and reading the line back gives the
    tags: for a set of tags that is not empty, whose labels are tag
    labels of the reader without colon and tab, and whose values are
    without tab, [processLine] decodes the line of the terms
    [label:value] to exactly these tags, no field and the zero time,
    and emits the point that the modifier makes of them: under the
    modifier that changes nothing, the point of exactly these tags at
    the zero time. *)
Theorem decode_encode_tags {L : GoLibrary} (r : ltsvLogReader) (tags : gmap string string) :
  tags <> ∅ ->
  map_Forall (tagPair r) tags ->
  decodeLine r (encodeTags tags) = Returned (inl (time.zero, ∅, tags))
  /\ (forall m, dupPointModifier r = Some m ->
        processLine r (encodeTags tags)
        = (set_emitted r
             (AddFields (acc r) (Measurement r) ∅
                (snd (Modify m time.zero tags)) (snd (fst (Modify m time.zero tags))))
             (Some (fst (fst (Modify m time.zero tags)))),
           Returned None))
  /\ (dupPointModifier r = Some (NoOp mkNoOp) ->
      acc (fst (processLine r (encodeTags tags)))
      = (acc r ++ [mkPoint (Measurement r) ∅ tags time.zero])%list).
Proof.
  intros Hne Hall.
  assert (decodeLine r (encodeTags tags) = Returned (inl (time.zero, ∅, tags))) as Hd.
  { unfold decodeLine, encodeTags.
    assert (Forall (fun kv => tagPair r (fst kv) (snd kv)) (map_to_list tags)) as Hl.
    { apply map_Forall_to_list in Hall. eapply Forall_impl; [exact Hall|]. by intros [k v]. }
    rewrite Split_joinTerms.
    - rewrite decodeTerms_tags by done. do 3 f_equal.
      rewrite foldl_insert_list_to_map.
      change (foldr _ ∅ (reverse (map_to_list tags)))
        with (list_to_map (M := gmap string string) (reverse (map_to_list tags))).
      symmetry. apply list_to_map_flip. symmetry. apply reverse_Permutation.
    - intros H%fmap_nil_inv. by apply map_to_list_empty_iff in H.
    - apply Forall_fmap. eapply Forall_impl; [exact Hl|].
      intros kv (_ & _ & Hk & Hv). by apply termOf_no_tab. }
  assert (forall m, dupPointModifier r = Some m ->
            processLine r (encodeTags tags)
            = (set_emitted r
                 (AddFields (acc r) (Measurement r) ∅
                    (snd (Modify m time.zero tags)) (snd (fst (Modify m time.zero tags))))
                 (Some (fst (fst (Modify m time.zero tags)))),
               Returned None)) as Hp.
  { intros m Hm. unfold processLine. rewrite Hd, Hm.
    by destruct (Modify m time.zero tags) as [[m' t'] tg']. }
  split; [exact Hd|]. split; [exact Hp|].
  intros Hm. by rewrite (Hp _ Hm).
Qed.

(** Three tags of the configuration of the test, a colon in a value,
    with no modifier at work. *)
Lemma decode_encode_tags_witness :
  let tags : gmap string string :=
    {[ "host" := "localhost"; "request" := "GET http://h:80/"; "status" := "" ]} in
  acc (fst (processLine (L := Samples.sampleLibrary)
              (Samples.started "" Samples.beforeRotation) (encodeTags tags)))
  = [mkPoint "nginx_access" ∅ tags time.zero].
Proof.
  intros tags.
  destruct (decode_encode_tags (L := Samples.sampleLibrary)
              (Samples.started "" Samples.beforeRotation) tags) as (_ & _ & H).
  - vm_compute. discriminate.
  - apply map_Forall_to_list. vm_compute. repeat constructor.
  - rewrite H; reflexivity.
Defined.

(** ** What a call reads *)

Lemma wrap64_add_l (x y : Z) : wrap64 (wrap64 x + y) = wrap64 (x + y).
Proof.
  unfold wrap64. f_equal.
  replace ((x + 2 ^ 63) mod 2 ^ 64 - 2 ^ 63 + y + 2 ^ 63)
    with ((x + 2 ^ 63) mod 2 ^ 64 + y) by ring.
  rewrite Zplus_mod_idemp_l. f_equal. ring.
Qed.

Lemma len_Text (token : list byte) : len (bufio.Text token) = Z.of_nat (length token).
Proof.
  unfold len, bufio.Text. f_equal.
  induction token as [|c token IH]; cbn; [done|]. by rewrite IH.
Qed.

Lemma length_dropCR (l : list byte) : (length (bufio.dropCR l) <= length l)%nat.
Proof.
  unfold bufio.dropCR. destruct (last l) as [c|]; [|done].
  destruct (Ascii.eqb c CR); [|done].
  destruct l as [|b l] using rev_ind; [done|].
  rewrite removelast_last, length_app. lia.
Qed.

Lemma lineBytes_linesFrom (cur data : list byte) :
  0 <= lineBytes (linesFrom cur data) <= Z.of_nat (length cur + length data).
Proof.
  revert cur. induction data as [|c data IH]; intros cur; cbn [linesFrom].
  - destruct cur as [|b cur]; [cbn; lia|]. cbn [lineBytes foldr].
    pose proof (length_dropCR (b :: cur)). lia.
  - destruct (Ascii.eqb c LF).
    + cbn [lineBytes foldr]. fold (lineBytes (linesFrom [] data)).
      specialize (IH []). pose proof (length_dropCR cur). cbn [length] in *. lia.
    + specialize (IH (cur ++ [c])%list). rewrite length_app in IH. cbn [length] in *. lia.
Qed.

Lemma lineBytes_lines (data : list byte) :
  0 <= lineBytes (lines data) <= Z.of_nat (length data).
Proof. apply (lineBytes_linesFrom [] data). Qed.

Section Counting.
Context {L : GoLibrary}.

Local Opaque processLine.

Lemma readLoop_count (fuel : nat) (w : os.World) (r : ltsvLogReader)
    (s : bufio.Scanner) (n : Z) (h : os.File) r' n' :
  file r = Some h -> os.closed h = false -> scanning w s h ->
  readLoop fuel w r s (wrap64 n) = (r', Returned (n', None)) ->
  n' = wrap64 (n + lineBytes (lines (bufio.pend s ++ os.unread w h))).
Proof.
  revert r s n h.
  induction fuel as [|fuel IH]; intros r s n h Hf Hc Hs; cbn [readLoop]; [discriminate|].
  rewrite Hf. unfold bufio.Scan.
  destruct (bufio.ScanLoop _ w s (Some h)) as [[res s1] f1] eqn:Hscan.
  destruct (ScanLoop_spec _ _ _ _ _ _ _ Hc Hs Hscan) as (h1 & -> & Hi1 & Hc1 & Hres).
  destruct res as [token|].
  - destruct Hres as [Hl Hs1]. rewrite Hl. cbn [lineBytes foldr].
    pose proof (processLine_file (set_file r (Some h1)) (bufio.Text token)) as Hpf.
    destruct (processLine (set_file r (Some h1)) (bufio.Text token)) as [r1 [[e|]|p]];
      try discriminate.
    cbn [fst file set_file] in Hpf. intros Hloop.
    rewrite wrap64_add_l in Hloop.
    rewrite (IH r1 s1 _ h1 Hpf Hc1 Hs1 Hloop), len_Text.
    f_equal. unfold lineBytes. lia.
  - intros [= <- <- He]. destruct (Hres He) as [Hnil _]. rewrite Hnil.
    cbn. f_equal. lia.
Qed.
End Counting.

(** X14.  The count that [readCurrentFile] returns with a nil error is
    the count of the bytes of the lines it has read, their ends left
    out, as an [int64]: for a file of less than 2^63 bytes the sum of
    the lengths of the lines, which is not more than the count of the
    bytes that were unread, and is 0 when every line read is empty. *)
Theorem readCurrentFile_count {L : GoLibrary} (w : os.World) (r r' : ltsvLogReader) (n : Z) :
  readCurrentFile w r = (r', Returned (n, None)) ->
  exists h, file r = Some h
    /\ n = wrap64 (lineBytes (lines (os.unread w h)))
    /\ 0 <= lineBytes (lines (os.unread w h)) <= Z.of_nat (length (os.unread w h))
    /\ (Z.of_nat (length (os.unread w h)) < 2 ^ 63 ->
        n = lineBytes (lines (os.unread w h))).
Proof.
  intros Hread.
  destruct (readCurrentFile_drains _ _ _ _ Hread) as (h & _ & _ & Hf & Hc & _).
  exists h. split; [done|]. unfold readCurrentFile in Hread.
  change 0 with (wrap64 0) in Hread at 1.
  pose proof (readLoop_count _ _ _ bufio.NewScanner _ h _ _ Hf Hc (or_introl eq_refl) Hread)
    as Hn.
  cbn [bufio.pend bufio.NewScanner app] in Hn. rewrite Z.add_0_l in Hn.
  pose proof (lineBytes_lines (os.unread w h)) as Hb.
  split; [done|]. split; [done|]. intros Hlen.
  rewrite Hn. apply wrap64_small. lia.
Qed.

(** The log of the samples whose last line has no line feed: the lines
    "host:a" and "host:b", 12 bytes of the 13. *)
Lemma readCurrentFile_count_witness :
  snd (readCurrentFile (L := Samples.sampleLibrary) Samples.partialWorld
         (Samples.started "" Samples.partialWorld)) = Returned (12, None)
  /\ exists h, file (Samples.started "" Samples.partialWorld) = Some h
       /\ lineBytes (lines (os.unread Samples.partialWorld h)) = 12
       /\ length (os.unread Samples.partialWorld h) = 13%nat.
Proof.
  split; [vm_compute; reflexivity|].
  destruct (readCurrentFile_count (L := Samples.sampleLibrary) Samples.partialWorld
              (Samples.started "" Samples.partialWorld)
              (fst (readCurrentFile (L := Samples.sampleLibrary) Samples.partialWorld
                      (Samples.started "" Samples.partialWorld))) 12)
    as (h & Hf & _ & _ & Hn).
  { vm_compute. reflexivity. }
  exists h. split; [exact Hf|].
  injection Hf as <-. split; [|vm_compute; reflexivity].
  symmetry. apply Hn. vm_compute. reflexivity.
Defined.

(** ** A poll that finds nothing *)

(** [Scan] on an open file with nothing unread returns false at once,
    and leaves the handle as it is. *)
Lemma Scan_at_end (w : os.World) (h : os.File) (k : nat) :
  os.closed h = false -> os.unread w h = [] ->
  bufio.ScanLoop (S (S k)) w bufio.NewScanner (Some h)
  = (None, bufio.mkScanner bufio.startBufSize 0 [] (Some EOF), Some h).
Proof.
  intros Hc Hu. cbn -[Nat.leb Nat.ltb Nat.sub].
  rewrite MaxScanTokenSize_not_0. cbn -[Nat.leb Nat.ltb Nat.sub].
  rewrite startBufSize_fits, startBufSize_room. unfold os.Read. rewrite Hc, Hu.
  reflexivity.
Qed.

Lemma readCurrentFile_at_end {L : GoLibrary} (w : os.World) (r : ltsvLogReader) (h : os.File) :
  file r = Some h -> os.closed h = false -> os.unread w h = [] ->
  readCurrentFile w r = (r, Returned (0, None)).
Proof.
  intros Hf Hc Hu. unfold readCurrentFile. rewrite Hf. cbn [bufio.turns readLoop].
  rewrite Hf. unfold bufio.Scan, bufio.turns. rewrite Scan_at_end by done.
  rewrite <- Hf, set_file_same. reflexivity.
Qed.

(** X15.  A call of [read] that finds the file open with nothing
    unread, its offset at the end of the file or beyond it, and that
    infers no rotation, emits nothing and returns 0 and nil; it assigns
    the size and nothing else, and the goroutine sleeps before the next
    call. *)
Theorem read_nothing_new {L : GoLibrary} (w : os.World) (r : ltsvLogReader) (h : os.File)
    (size : Z) :
  file r = Some h -> os.closed h = false -> os.unread w h = [] ->
  os.Stat w (Path r) = inl size ->
  (size <? prevFileSize r) && (0 <? size) = false ->
  read w r = (setPrevFileSize r size, Returned (0, None))
  /\ (done r <> ChanClosed ->
      receiverTurn w r = (setPrevFileSize r size, Continue None true)).
Proof.
  intros Hf Hc Hu Hstat Hrot.
  assert (read w r = (setPrevFileSize r size, Returned (0, None))) as Hread.
  { unfold read, readBody, readRest. rewrite Hstat, Hrot.
    by rewrite (readCurrentFile_at_end w r h). }
  split; [done|]. intros Hd. unfold receiverTurn. rewrite Hread.
  by destruct (done r).
Qed.

(** The reader of the rotation before the rotation: it has read the
    18 bytes of the file. *)
Lemma read_nothing_new_witness :
  read (L := Samples.sampleLibrary) Samples.beforeRotation Samples.rotationReader
  = (Samples.rotationReader, Returned (0, None)).
Proof.
  destruct (read_nothing_new (L := Samples.sampleLibrary) Samples.beforeRotation
              Samples.rotationReader (os.mkFile 0 18 false) 18) as [H _];
    [vm_compute; reflexivity..|].
  rewrite H. vm_compute. reflexivity.
Defined.

(** ** The first call after Start *)

(** X16.  [Start] opens the file at its beginning, and the call of
    [read] that comes next, the first one of the goroutine, when it
    returns a nil error, has given every line that the file then holds
    to [processLine]: the points of the lines that were in the file
    before [Start] are emitted, after the points that the accumulator
    held. *)
Theorem first_read_reads_whole_file {L : GoLibrary} (w w' : os.World) (a : Accumulator)
    (r r0 r' : ltsvLogReader) (n : Z) :
  prevFileSize r = 0 ->
  Start w a r = (r0, None) ->
  read w' r0 = (r', Returned (n, None)) ->
  exists i r'',
    os.paths w !! Path r = Some i
    /\ file r0 = Some (os.mkFile i 0 false) /\ acc r0 = a
    /\ processLines r0 (bufio.Text <$> lines (os.contents w' i)) = (r'', Returned None)
    /\ acc r' = acc r''
    /\ length (acc r') = (length a + length (lines (os.contents w' i)))%nat.
Proof.
  intros Hp Hstart Hread.
  unfold Start, openLog, os.Open in Hstart. cbn [Path] in Hstart.
  destruct (os.denied w !! Path r); [discriminate|].
  destruct (os.paths w !! Path r) as [i|] eqn:Hpath; [|discriminate].
  injection Hstart as <-. exists i.
  set (r0 := set_file _ _) in *.
  unfold read in Hread. change (Path r0) with (Path r) in Hread.
  destruct (os.Stat w' (Path r)) as [size|e] eqn:Hstat; [|discriminate].
  unfold readBody in Hread. change (prevFileSize r0) with (prevFileSize r) in Hread.
  rewrite Hp in Hread.
  assert ((size <? 0) = false) as Hneg.
  { unfold os.Stat in Hstat. destruct (os.paths w' !! Path r); [|discriminate].
    injection Hstat as <-. apply Z.ltb_ge. lia. }
  rewrite Hneg in Hread. cbn [andb] in Hread. unfold readRest in Hread.
  destruct (readCurrentFile w' r0) as [r1 [[n2 e]|p]] eqn:Hcur.
  2:{ destruct (readRest w' r0 0); discriminate. }
  injection Hread as <- <- ->.
  destruct (readCurrentFile_drains _ _ _ _ Hcur) as (h & h' & r'' & Hf & _ & -> & _ & _ & _ & Hl).
  injection Hf as <-. exists r''. unfold os.unread in Hl. cbn [os.offset os.ino drop] in Hl.
  repeat split; try done.
  destruct (processLines_acc _ _ _ Hl) as (ps & Hps & Hlen).
  change (acc (setPrevFileSize (set_file r'' (Some h')) size)) with (acc r'').
  rewrite Hps, length_app, Hlen, length_fmap. done.
Qed.

(** The log of one line of the samples. *)
Lemma first_read_reads_whole_file_witness :
  exists r'',
    processLines (L := Samples.sampleLibrary) (Samples.started "" Samples.beforeRotation)
      (bufio.Text <$> lines (Samples.logOf ["body_bytes_sent:1"])) = (r'', Returned None)
    /\ length (acc Samples.rotationReader) = 1%nat.
Proof.
  destruct (first_read_reads_whole_file (L := Samples.sampleLibrary)
              Samples.beforeRotation Samples.beforeRotation [] (Samples.config "")
              (Samples.started "" Samples.beforeRotation) Samples.rotationReader 17)
    as (i & r'' & Hi & _ & _ & Hl & _ & Hlen); [vm_compute; reflexivity..|].
  vm_compute in Hi. injection Hi as <-.
  exists r''. split; [exact Hl|]. rewrite Hlen. vm_compute. reflexivity.
Defined.

(** ** Line ends *)

Lemma IndexByte_app_None (l l' : list byte) (c : byte) :
  bufio.IndexByte l c = None ->
  bufio.IndexByte (l ++ l') c = (fun i => (length l + i)%nat) <$> bufio.IndexByte l' c.
Proof.
  induction l as [|b l IH]; cbn [bufio.IndexByte app length].
  - intros _. by destruct (bufio.IndexByte l' c).
  - destruct (Ascii.eqb b c); [discriminate|].
    destruct (bufio.IndexByte l c) as [i|]; [discriminate|]. intros _.
    rewrite IH by done. by destruct (bufio.IndexByte l' c).
Qed.

Lemma dropCR_plain (l : list byte) : last l <> Some CR -> bufio.dropCR l = l.
Proof.
  unfold bufio.dropCR. destruct (last l) as [c|]; [|done]. intros Hne.
  destruct (Ascii.eqb_spec c CR) as [->|]; [by destruct Hne|done].
Qed.

Lemma dropCR_CR (l : list byte) : bufio.dropCR (l ++ [CR]) = l.
Proof. unfold bufio.dropCR. by rewrite last_snoc, removelast_last. Qed.

Lemma lines_ended (x rest : list byte) :
  bufio.IndexByte x LF = None ->
  lines ((x ++ [LF]) ++ rest) = bufio.dropCR x :: lines rest.
Proof.
  intros Hx. rewrite (lines_newline _ _ (length x)).
  2:{ rewrite IndexByte_app_None by done.
      change (bufio.IndexByte [LF] LF) with (Some 0%nat).
      cbn [fmap option_fmap option_map]. f_equal. lia. }
  rewrite take_app_length, drop_ge; [done|]. rewrite length_app. cbn. lia.
Qed.

(** The lines of a log of plain lines are the lines that were written,
    whichever way each one was ended. *)
Lemma lines_writeLines (ls : list (list byte * bool)) :
  Forall (fun l => plainLine (fst l)) ls ->
  lines (writeLines ls) = fst <$> ls.
Proof.
  induction 1 as [|[l crlf] ls [Hl Hcr] _ IH]; [done|].
  unfold writeLines. cbn [fmap list_fmap concat fst snd].
  fold (writeLines ls). cbn [fst] in Hl, Hcr.
  destruct crlf; cbn [lineEnd].
  - replace (l ++ [CR; LF])%list with ((l ++ [CR]) ++ [LF])%list by by rewrite <- app_assoc.
    rewrite lines_ended, dropCR_CR, IH; [done|].
    rewrite IndexByte_app_None by done. reflexivity.
  - by rewrite lines_ended, dropCR_plain, IH.
Qed.

(** X17.  A call of [readCurrentFile] that returns a nil error on a
    file whose unread bytes are plain lines, each one ended by a line
    feed or by a carriage return and a line feed, has given exactly
    these lines, in order and without their ends, to [processLine]:
    the two ways of ending a line give the same points. *)
Theorem readCurrentFile_reads_written_lines {L : GoLibrary} (w : os.World)
    (r r' : ltsvLogReader) (n : Z) (h : os.File) (ls : list (list byte * bool)) :
  readCurrentFile w r = (r', Returned (n, None)) ->
  file r = Some h ->
  os.unread w h = writeLines ls ->
  Forall (fun l => plainLine (fst l)) ls ->
  exists r'',
    processLines r (bufio.Text <$> (fst <$> ls)) = (r'', Returned None)
    /\ acc r' = acc r''
    /\ length (acc r') = (length (acc r) + length ls)%nat.
Proof.
  intros Hread Hf Hu Hall.
  destruct (readCurrentFile_drains _ _ _ _ Hread)
    as (h0 & h' & r'' & Hf0 & _ & -> & _ & _ & _ & Hl).
  rewrite Hf in Hf0. injection Hf0 as <-.
  rewrite Hu, lines_writeLines in Hl by done.
  exists r''. split; [done|]. split; [done|].
  destruct (processLines_acc _ _ _ Hl) as (ps & Hps & Hlen).
  rewrite acc_set_file, Hps, length_app, Hlen, !length_fmap. done.
Qed.

(** Two logs of the same two lines, the lines of the second ended by a
    carriage return and a line feed: the same points. *)
Lemma readCurrentFile_reads_written_lines_witness :
  let lf := Samples.world ∅ 0
              (writeLines [(list_ascii_of_string "host:a", false);
                           (list_ascii_of_string "host:b", false)]) in
  let crlf := Samples.world ∅ 0
                (writeLines [(list_ascii_of_string "host:a", true);
                             (list_ascii_of_string "host:b", true)]) in
  acc (fst (readCurrentFile (L := Samples.sampleLibrary) lf (Samples.started "" lf)))
  = acc (fst (readCurrentFile (L := Samples.sampleLibrary) crlf (Samples.started "" crlf)))
  /\ length (acc (fst (readCurrentFile (L := Samples.sampleLibrary) crlf
                         (Samples.started "" crlf)))) = 2%nat.
Proof.
  intros lf crlf.
  destruct (readCurrentFile_reads_written_lines (L := Samples.sampleLibrary) lf
              (Samples.started "" lf)
              (fst (readCurrentFile (L := Samples.sampleLibrary) lf (Samples.started "" lf)))
              12 (os.mkFile 0 0 false)
              [(list_ascii_of_string "host:a", false); (list_ascii_of_string "host:b", false)])
    as (r1 & Hp1 & Ha1 & _);
    [vm_compute; reflexivity..|repeat constructor; vm_compute; discriminate|].
  destruct (readCurrentFile_reads_written_lines (L := Samples.sampleLibrary) crlf
              (Samples.started "" crlf)
              (fst (readCurrentFile (L := Samples.sampleLibrary) crlf
                      (Samples.started "" crlf)))
              12 (os.mkFile 0 0 false)
              [(list_ascii_of_string "host:a", true); (list_ascii_of_string "host:b", true)])
    as (r2 & Hp2 & Ha2 & Hlen);
    [vm_compute; reflexivity..|repeat constructor; vm_compute; discriminate|].
  split; [|rewrite Hlen; vm_compute; reflexivity].
  rewrite Ha1, Ha2. cbn [fmap list_fmap fst] in Hp1, Hp2.
  change (Samples.started "" crlf) with (Samples.started "" lf) in Hp2.
  rewrite Hp1 in Hp2. by injection Hp2 as <-.
Defined.

(** ** What a call leaves alone *)

Lemma extends_refl (r : ltsvLogReader) : extends r r.
Proof.
  exists [], (file r), (prevFileSize r), (dupPointModifier r).
  split; [|constructor]. rewrite app_nil_r. by destruct r.
Qed.

Lemma extends_trans (r1 r2 r3 : ltsvLogReader) : extends r1 r2 -> extends r2 r3 -> extends r1 r3.
Proof.
  intros (ps & f & s & m & -> & Hps) (ps' & f' & s' & m' & -> & Hps').
  exists (ps ++ ps')%list, f', s', m'. cbn [acc withState] in *. split.
  - by rewrite app_assoc.
  - apply Forall_app. split; [done|]. exact Hps'.
Qed.

Lemma extends_state (r : ltsvLogReader) f size m : extends r (withState r (acc r) f size m).
Proof. exists [], f, size, m. split; [|constructor]. by rewrite app_nil_r. Qed.

Lemma extends_set_file (r : ltsvLogReader) f : extends r (set_file r f).
Proof. apply (extends_state r f (prevFileSize r) (dupPointModifier r)). Qed.

Lemma extends_setPrevFileSize (r : ltsvLogReader) size : extends r (setPrevFileSize r size).
Proof. apply (extends_state r (file r) size (dupPointModifier r)). Qed.

Lemma extends_closeLog (r : ltsvLogReader) : extends r (fst (closeLog r)).
Proof. unfold closeLog. destruct (os.Close (file r)). apply extends_set_file. Qed.

Lemma extends_openLog (w : os.World) (r : ltsvLogReader) : extends r (fst (openLog w r)).
Proof.
  unfold openLog. destruct (os.Open w (Path r)); [apply extends_set_file|apply extends_refl].
Qed.

Lemma extends_reopenLog (w : os.World) (r : ltsvLogReader) : extends r (fst (reopenLog w r)).
Proof.
  unfold reopenLog. pose proof (extends_closeLog r) as H.
  destruct (closeLog r) as [r1 [e|]]; [done|].
  eapply extends_trans; [exact H|apply extends_openLog].
Qed.

Section Frame.
Context {L : GoLibrary}.

Lemma extends_processLine (r : ltsvLogReader) (line : string) :
  extends r (fst (processLine r line)).
Proof.
  unfold processLine.
  destruct (decodeLine r line) as [[[[t fs] tg]|e]|p]; try apply extends_refl.
  destruct (dupPointModifier r) as [m|]; [|apply extends_refl].
  destruct (Modify m t tg) as [[m' t'] tg']. cbn [fst].
  exists [mkPoint (Measurement r) fs tg' t'], (file r), (prevFileSize r), (Some m').
  split; [reflexivity|]. by repeat constructor.
Qed.

Local Opaque processLine.

Lemma extends_readLoop fuel w r s n : extends r (fst (readLoop fuel w r s n)).
Proof.
  revert r s n. induction fuel as [|fuel IH]; intros r s n; cbn [readLoop];
    [apply extends_refl|].
  destruct (bufio.Scan w s (file r)) as [[[token|] s'] f']; [|apply extends_set_file].
  pose proof (extends_processLine (set_file r f') (bufio.Text token)) as Hp.
  assert (extends r (fst (processLine (set_file r f') (bufio.Text token)))) as Hp'.
  { eapply extends_trans; [apply extends_set_file|exact Hp]. }
  destruct (processLine (set_file r f') (bufio.Text token)) as [r1 [[e|]|p]]; try done.
  eapply extends_trans; [exact Hp'|apply IH].
Qed.

Lemma extends_readCurrentFile w r : extends r (fst (readCurrentFile w r)).
Proof. apply extends_readLoop. Qed.

Lemma extends_readRest w r n : extends r (fst (readRest w r n)).
Proof.
  unfold readRest. pose proof (extends_readCurrentFile w r) as H.
  by destruct (readCurrentFile w r) as [r' [[n2 e]|p]].
Qed.

Lemma extends_readBody w r size : extends r (fst (readBody w r size)).
Proof.
  unfold readBody. destruct (_ && _); [|apply extends_readRest].
  pose proof (extends_readCurrentFile w r) as H.
  destruct (readCurrentFile w r) as [r1 [[n2 [e|]]|p]]; try done.
  cbv zeta. pose proof (extends_reopenLog w r1) as H2.
  destruct (reopenLog w r1) as [r2 [e|]]; cbn [fst] in *.
  - by eapply extends_trans.
  - eapply extends_trans; [exact H|]. eapply extends_trans; [exact H2|].
    apply extends_readRest.
Qed.
End Frame.

(** X18.  Whatever a call of [read] does, rotation or not, error or
    panic, it leaves the configuration of the reader, the channel, the
    field set and the tag set as they are; it removes no point from the
    accumulator and changes none, and every point it adds has the
    configured measurement. *)
Theorem read_only_appends {L : GoLibrary} (w : os.World) (r : ltsvLogReader) :
  extends r (fst (read w r)).
Proof.
  unfold read. destruct (os.Stat w (Path r)) as [size|e]; [|apply extends_refl].
  pose proof (extends_readBody w r size) as H.
  destruct (readBody w r size) as [r' out]. cbn [fst] in *.
  eapply extends_trans; [exact H|apply extends_setPrevFileSize].
Qed.

(** ** The handle along the life of the goroutine *)

Lemma extends_Path (r r' : ltsvLogReader) : extends r r' -> Path r' = Path r.
Proof. by intros (ps & f & s & m & -> & _). Qed.

Lemma sameFile_some (r r' : ltsvLogReader) :
  sameFile (file r) (file r') -> is_Some (file r) -> is_Some (file r').
Proof.
  intros [Hi _] [h Hf]. rewrite Hf in Hi. by destruct (file r').
Qed.

Lemma sameFile_closed (r r' : ltsvLogReader) :
  sameFile (file r) (file r') -> fileClosed r -> fileClosed r'.
Proof.
  intros [Hi Hc] (h & Hf & Hcl). rewrite Hf in Hi, Hc. unfold fileClosed.
  destruct (file r') as [h'|]; [|discriminate]. exists h'. split; [done|].
  cbn in Hc. congruence.
Qed.

Lemma closeLog_some (r : ltsvLogReader) : is_Some (file r) -> is_Some (file (fst (closeLog r))).
Proof.
  intros [h Hf]. unfold closeLog, os.Close. rewrite Hf. by destruct (os.closed h).
Qed.

Lemma openLog_some (w : os.World) (r : ltsvLogReader) :
  is_Some (file r) -> is_Some (file (fst (openLog w r))).
Proof. intros H. unfold openLog. by destruct (os.Open w (Path r)). Qed.

Lemma reopenLog_some (w : os.World) (r : ltsvLogReader) :
  is_Some (file r) -> is_Some (file (fst (reopenLog w r))).
Proof.
  intros H. unfold reopenLog. pose proof (closeLog_some r H) as Hc.
  destruct (closeLog r) as [r1 [e|]]; [done|]. by apply openLog_some.
Qed.

Section Handle.
Context {L : GoLibrary}.

Lemma readRest_some w r n : is_Some (file r) -> is_Some (file (fst (readRest w r n))).
Proof.
  intros Ho. unfold readRest. pose proof (readCurrentFile_sameFile w r) as Hs.
  destruct (readCurrentFile w r) as [r' [[n2 e]|p]]; cbn [fst] in *;
    by apply (sameFile_some r).
Qed.

(** [read] leaves the reader with a handle: the one it had, or the
    one of the file that the path names now. *)
Lemma read_some w r : is_Some (file r) -> is_Some (file (fst (read w r))).
Proof.
  intros Ho. unfold read.
  destruct (os.Stat w (Path r)) as [size|e] eqn:Hstat; [|done].
  assert (is_Some (file (fst (readBody w r size)))) as H.
  { unfold readBody. destruct (_ && _); [|by apply readRest_some].
    pose proof (readCurrentFile_sameFile w r) as Hs.
    destruct (readCurrentFile w r) as [r1 [[n2 [e|]]|p]]; cbn [fst] in *;
      try by apply (sameFile_some r).
    cbv zeta. pose proof (reopenLog_some w r1 (sameFile_some r r1 Hs Ho)) as Hre.
    destruct (reopenLog w r1) as [r2 [e|]]; cbn [fst] in *; [done|].
    by apply readRest_some. }
  destruct (readBody w r size) as [r' out]. exact H.
Qed.

Lemma step_handleInvariant s s' : handleInvariant s -> step s s' -> handleInvariant s'.
Proof.
  intros (Hns & Hop & Hcl) Hstep.
  destruct Hstep as [w a s s' H|s s' H|s s' H|w s s' H];
    destruct s as [r mu h t st]; unfold handleInvariant in *;
    cbn [reader mutex host task started] in *.
  - unfold callStart in H. cbn [reader mutex host task started] in H.
    destruct h, st, mu; try discriminate.
    destruct (Start w a r) as [r' e] eqn:Hs. injection H as <-.
    cbn [reader mutex host task started].
    split; [discriminate|]. destruct e; [split; discriminate|].
    split; [|discriminate]. intros _.
    unfold Start, openLog in Hs. cbn [Path] in Hs.
    destruct (os.Open w (Path r)); [|discriminate].
    injection Hs as <-. by eexists.
  - unfold callStop in H. destruct (ended _); [discriminate|].
    cbn [reader mutex host task started] in H.
    destruct h; try discriminate. by injection H as <-.
  - unfold hostStep in H. destruct (ended _); [discriminate|].
    cbn [reader mutex host task started] in H.
    destruct h; try discriminate.
    + destruct mu; [discriminate|]. by injection H as <-.
    + unfold Stop in H. destruct (done r); by injection H as <-.
    + by injection H as <-.
  - unfold taskStep in H. cbn [reader mutex host task started] in H.
    assert (st = true) as ->.
    { destruct st; [done|]. specialize (Hns eq_refl). subst t. discriminate. }
    destruct t as [| | |p|p|p| |p]; try discriminate.
    + destruct (done r); injection H as <-; cbn [reader task started];
        (split; [discriminate|]); (split; [|discriminate]); intros _; by apply Hop.
    + pose proof (read_some w r (Hop eq_refl)) as Ho.
      destruct (read w r) as [r' [x|p]]; cbn [fst] in Ho; injection H as <-;
        cbn [reader task started];
        (split; [discriminate|]); (split; [|discriminate]); done.
    + destruct mu; [discriminate|]. injection H as <-. cbn [reader task started].
      split; [discriminate|]. split; [|discriminate]. intros _. by apply Hop.
    + injection H as <-. cbn [reader task started].
      split; [discriminate|]. split; [discriminate|]. intros _.
      destruct (Hop eq_refl) as (f & Hf).
      unfold clean, closeLog, os.Close, fileClosed. rewrite Hf.
      destruct (os.closed f) eqn:Hc; cbn [fst file set_file]; eexists; split; done.
    + injection H as <-. cbn [reader task started].
      split; [discriminate|]. split; [by destruct p|]. intros _. by apply Hcl.
Qed.

Lemma reachable_handleInvariant s : reachable s -> handleInvariant s.
Proof.
  induction 1 as [r Hr|s s' _ IH Hstep].
  - unfold handleInvariant, initial. cbn [reader task started beforeClose afterClose].
    repeat split; discriminate.
  - by apply (step_handleInvariant s).
Qed.
End Handle.

(** X19.  In every state that the host and the goroutine get to, the
    reader has a handle as long as the goroutine is in its loop, and
    the handle is closed once the goroutine has returned or a panic of
    it has ended the process: no descriptor is left open. *)
Theorem handle_closed_after_exit {L : GoLibrary} (s : System) :
  reachable s ->
  (task s = AtSelect \/ task s = AtRead -> is_Some (file (reader s)))
  /\ (task s = Exited \/ ended s = true -> fileClosed (reader s)).
Proof.
  intros Hr. destruct (reachable_handleInvariant s Hr) as (_ & Hop & Hcl). split.
  - intros [H|H]; apply Hop; by rewrite H.
  - intros [H|H]; apply Hcl; [by rewrite H|].
    unfold ended in H. by destruct (task s).
Qed.

(** The states of the samples after [Start] and after the goroutine
    has returned. *)
Lemma handle_closed_after_exit_witness :
  (exists s, Samples.afterStart = Some s /\ is_Some (file (reader s)))
  /\ (exists s, Samples.afterExit = Some s /\ fileClosed (reader s)).
Proof.
  split.
  - destruct Samples.afterStart as [s|] eqn:Hs; [|discriminate].
    exists s. split; [done|].
    apply (handle_closed_after_exit (L := Samples.sampleLibrary) s).
    + by apply afterStart_reachable.
    + left. vm_compute in Hs. by injection Hs as <-.
  - unfold Samples.afterExit, Samples.afterStop.
    destruct Samples.afterStart as [s1|] eqn:H1; [|discriminate].
    cbn [mbind option_bind].
    destruct (runStop s1) as [s2|] eqn:H2.
    2:{ vm_compute in H1. injection H1 as <-. vm_compute in H2. discriminate. }
    cbn [fmap option_fmap option_map]. eexists. split; [reflexivity|].
    apply (handle_closed_after_exit (L := Samples.sampleLibrary)).
    + apply runTask_reachable. eapply runStop_reachable; [|exact H2].
      by apply afterStart_reachable.
    + left. vm_compute in H1. injection H1 as <-. vm_compute in H2. injection H2 as <-.
      vm_compute. reflexivity.
Defined.

Section Closed.
Context {L : GoLibrary}.

(** A call of [read] on a closed handle. *)
Lemma read_closed w r :
  fileClosed r ->
  (exists e, snd (read w r) = Returned (0, Some e))
  /\ file (fst (read w r)) = file r /\ acc (fst (read w r)) = acc r.
Proof.
  intros (h & Hf & Hc). unfold read.
  destruct (os.Stat w (Path r)) as [size|e]; [|by eauto].
  destruct (readCurrentFile_not_open w r) as [e He]; [right; eauto|].
  unfold readBody, readRest. rewrite He.
  destruct (_ && _); cbn [fst snd]; eauto.
Qed.

Lemma reads_closed ws r :
  fileClosed r -> file (reads ws r) = file r /\ acc (reads ws r) = acc r.
Proof.
  revert r. induction ws as [|w ws IH]; intros r Hc; [done|]. cbn [reads].
  destruct (read_closed w r Hc) as (_ & Hf & Ha).
  destruct (IH (fst (read w r))) as [Hf' Ha'].
  { destruct Hc as (h & Hh & Hcl). exists h. by rewrite Hf. }
  split; congruence.
Qed.
End Closed.

(** X24.  When a rotation is inferred and the path does not open after
    the stale file has been read to its end, [read] returns the error of
    [os.Open] and leaves the reader with the stale handle, closed.  The
    reader does not recover: whatever the file system becomes, every
    later call of [read] returns an error and the count 0, emits
    nothing, and leaves the handle closed. *)
Theorem failed_reopen_is_permanent {L : GoLibrary} (w : os.World) (r r1 : ltsvLogReader)
    (size n2 : Z) (e : error) :
  os.Stat w (Path r) = inl size ->
  (size <? prevFileSize r) && (0 <? size) = true ->
  readCurrentFile w r = (r1, Returned (n2, None)) ->
  os.Open w (Path r) = inr e ->
  snd (read w r) = Returned (wrap64 (0 + n2), Some e)
  /\ fileClosed (fst (read w r))
  /\ forall ws w',
       fileClosed (reads ws (fst (read w r)))
       /\ acc (reads ws (fst (read w r))) = acc (fst (read w r))
       /\ exists e', snd (read w' (reads ws (fst (read w r)))) = Returned (0, Some e').
Proof.
  intros Hstat Hrot Hdrain Hopen.
  destruct (readCurrentFile_drains _ _ _ _ Hdrain)
    as (h & h1 & r1' & Hf & Hc & -> & Hi & Hc1 & Hu & Hp).
  assert (Path r1' = Path r) as HP.
  { change r1' with (fst (r1', Returned (A := option error) None)).
    rewrite <- Hp. apply processLines_Path. }
  assert (read w r
          = (setPrevFileSize
               (set_file (set_file r1' (Some h1))
                  (Some (os.mkFile (os.ino h1) (os.offset h1) true))) size,
             Returned (wrap64 (0 + n2), Some e))) as Hread.
  { unfold read. rewrite Hstat. unfold readBody. rewrite Hrot, Hdrain. cbv zeta.
    unfold reopenLog, closeLog, os.Close. cbn [file set_file]. rewrite Hc1.
    unfold openLog. cbn [Path set_file]. by rewrite HP, Hopen. }
  rewrite Hread. cbn [fst snd]. split; [done|].
  assert (fileClosed
            (setPrevFileSize
               (set_file (set_file r1' (Some h1))
                  (Some (os.mkFile (os.ino h1) (os.offset h1) true))) size)) as Hcl.
  { eexists. split; reflexivity. }
  split; [exact Hcl|]. intros ws w'.
  destruct (reads_closed ws _ Hcl) as [Hf' Ha'].
  assert (fileClosed (reads ws (setPrevFileSize
            (set_file (set_file r1' (Some h1))
               (Some (os.mkFile (os.ino h1) (os.offset h1) true))) size))) as Hcl'.
  { destruct Hcl as (h0 & Hh0 & Hc0). exists h0. by rewrite Hf'. }
  split; [exact Hcl'|]. split; [exact Ha'|].
  by destruct (read_closed w' _ Hcl') as (He & _).
Qed.

(** The rotation of the samples at a time when the path does not open,
    and two calls more once it opens again. *)
Lemma failed_reopen_is_permanent_witness :
  let r := Samples.rotationReader in
  let r' := fst (read (L := Samples.sampleLibrary) afterRotationDenied r) in
  snd (read (L := Samples.sampleLibrary) afterRotationDenied r)
  = Returned (17, Some (ErrPermission "open" Samples.logPath))
  /\ fileClosed r'
  /\ acc (reads (L := Samples.sampleLibrary) [Samples.afterCleanRotation] r') = acc r'
  /\ snd (read (L := Samples.sampleLibrary) Samples.afterCleanRotation
            (reads (L := Samples.sampleLibrary) [Samples.afterCleanRotation] r'))
     = Returned (0, Some ErrClosed).
Proof.
  intros r r'.
  destruct (failed_reopen_is_permanent (L := Samples.sampleLibrary) afterRotationDenied r
              (fst (readCurrentFile (L := Samples.sampleLibrary) afterRotationDenied r))
              7 17 (ErrPermission "open" Samples.logPath))
    as (Hs & Hc & Hall); [vm_compute; reflexivity..|].
  split; [exact Hs|]. split; [exact Hc|].
  destruct (Hall [Samples.afterCleanRotation] Samples.afterCleanRotation) as (_ & Ha & _).
  split; [exact Ha|]. vm_compute. reflexivity.
Defined.

(** ** The mutex *)

(** X20.  In no state that the host and the goroutine get to are both
    between their [r.Lock()] and their [r.Unlock()]: the [close] of
    [Stop] and the [r.closeLog()] of [clean] never run at the same
    time. *)
Theorem lock_excludes {L : GoLibrary} (s : System) :
  reachable s -> ~ (taskHolds (task s) = true /\ hostHolds (host s) = true).
Proof.
  intros Hr [Ht Hh].
  destruct (reachable_invariant s Hr) as (_ & _ & _ & [_ Hrx] & [_ Hhx] & _).
  specialize (Hrx Ht). specialize (Hhx Hh). congruence.
Qed.

(** The state of the samples in which the goroutine holds the mutex in
    [clean] and the host is at the [r.Lock()] of [Stop]. *)
Lemma lock_excludes_witness :
  exists s, Samples.panicInClean = Some s
    /\ taskHolds (task s) = true
    /\ ~ (taskHolds (task s) = true /\ hostHolds (host s) = true).
Proof.
  destruct Samples.panicInClean as [s|] eqn:Hs; [|discriminate].
  exists s.
  assert (reachable (L := Samples.sampleLibrary) s) as Hr.
  { unfold Samples.panicInClean in Hs.
    destruct (callStart _ _ _) as [s0|] eqn:H0; [|discriminate].
    cbn [mbind option_bind] in Hs. eapply reachable_step; [|apply step_stop; exact Hs].
    apply runTask_reachable. eapply reachable_step; [|eapply step_start; exact H0].
    apply (reachable_initial (Samples.config "")). by repeat split. }
  split; [done|]. split; [|exact (lock_excludes (L := Samples.sampleLibrary) s Hr)].
  vm_compute in Hs. by injection Hs as <-.
Defined.

(** ** After Stop, and before Start *)

Section AfterStop.
Context {L : GoLibrary}.

(** The mutex is free when the host is between calls and the goroutine
    is outside [clean]. *)
Lemma mutex_free_idle s :
  invariant s -> host s = HostIdle -> taskHolds (task s) = false -> mutex s = None.
Proof.
  intros (_ & _ & _ & [Hrx _] & [Hhx _] & _) Hh Ht.
  destruct (mutex s) as [[|]|]; [| |done].
  - specialize (Hhx eq_refl). rewrite Hh in Hhx. discriminate.
  - specialize (Hrx eq_refl). congruence.
Qed.

Lemma finishes_end w k s : task s = Exited \/ ended s = true -> finishes w k s.
Proof.
  intros H. unfold finishes.
  assert (runTask w k s = s) as ->; [|done].
  destruct k; [done|]. cbn [runTask]. unfold taskStep, ended in *.
  destruct H as [H|H]; [by rewrite H|]. by destruct (task s).
Qed.

Lemma finishes_step w k s s1 :
  taskStep w s = Some s1 -> finishes w k s1 -> finishes w (S k) s.
Proof. intros H. unfold finishes. cbn [runTask]. by rewrite H. Qed.

Lemma finishes_CleanUnlock w k r mu h p st :
  finishes w (S k) (mkSystem r mu h (CleanUnlock p) st).
Proof.
  eapply finishes_step; [reflexivity|].
  apply finishes_end. destruct p; [right|left]; reflexivity.
Qed.

Lemma finishes_CleanClose w k r mu h p st :
  finishes w (S (S k)) (mkSystem r mu h (CleanClose p) st).
Proof. eapply finishes_step; [reflexivity|]. apply finishes_CleanUnlock. Qed.

Lemma finishes_CleanLock w k r h p st :
  finishes w (S (S (S k))) (mkSystem r None h (CleanLock p) st).
Proof. eapply finishes_step; [reflexivity|]. apply finishes_CleanClose. Qed.

Lemma finishes_AtSelect w k r h st :
  done r = ChanClosed ->
  finishes w (S (S (S (S k)))) (mkSystem r None h AtSelect st).
Proof.
  intros Hd. eapply finishes_step; [|apply (finishes_CleanLock w k r h None st)].
  unfold taskStep. cbn [task reader mutex host started]. by rewrite Hd.
Qed.

Lemma finishes_AtRead w k r h st :
  done r = ChanClosed ->
  finishes w (S (S (S (S (S k))))) (mkSystem r None h AtRead st).
Proof.
  intros Hd. pose proof (read_done w r) as Hr.
  destruct (read w r) as [r' [x|p]] eqn:Hread; cbn [fst] in Hr.
  - eapply finishes_step; [|apply (finishes_AtSelect w k r' h st); congruence].
    unfold taskStep. cbn [task reader mutex host started]. by rewrite Hread.
  - eapply finishes_step; [|apply (finishes_CleanLock w (S k) r' h (Some p) st)].
    unfold taskStep. cbn [task reader mutex host started]. by rewrite Hread.
Qed.
End AfterStop.

(** X21.  Once the channel is closed and the host is between calls, a
    goroutine that was started comes to its end in five steps of its
    own at most, whatever the file system holds: it finishes the call of
    [read] it is in, sees the closed channel, takes the mutex, closes
    the file and returns, or a panic of that call ends the process.
    The file is closed then. *)
Theorem goroutine_ends_after_Stop {L : GoLibrary} (s : System) (w : os.World) :
  reachable s ->
  done (reader s) = ChanClosed -> host s = HostIdle -> task s <> NotStarted ->
  finishes w 5 s /\ fileClosed (reader (runTask w 5 s)).
Proof.
  intros Hr Hd Hh Ht.
  assert (finishes w 5 s) as Hfin.
  { pose proof (mutex_free_idle s (reachable_invariant s Hr) Hh) as Hm.
    destruct s as [r mu h t st]. cbn [reader host task mutex] in *.
    destruct t as [| | |p|p|p| |p]; try done.
    - rewrite Hm by done. by apply finishes_AtSelect.
    - rewrite Hm by done. by apply finishes_AtRead.
    - rewrite Hm by done. apply (finishes_CleanLock w 2).
    - apply (finishes_CleanClose w 3).
    - apply (finishes_CleanUnlock w 4).
    - apply finishes_end. by left.
    - apply finishes_end. by right. }
  split; [exact Hfin|].
  destruct (reachable_handleInvariant _ (runTask_reachable w 5 s Hr)) as (_ & _ & Hcl).
  apply Hcl. unfold finishes, ended in Hfin.
  destruct Hfin as [H|H]; [by rewrite H|]. by destruct (task (runTask w 5 s)).
Qed.

(** The state of the samples after [Start] and [Stop]. *)
Lemma goroutine_ends_after_Stop_witness :
  exists s, Samples.afterStop = Some s
    /\ finishes (L := Samples.sampleLibrary) Samples.beforeRotation 5 s
    /\ fileClosed (reader (runTask (L := Samples.sampleLibrary) Samples.beforeRotation 5 s)).
Proof.
  unfold Samples.afterStop.
  destruct Samples.afterStart as [s1|] eqn:H1; [|discriminate].
  cbn [mbind option_bind].
  destruct (runStop s1) as [s2|] eqn:H2.
  2:{ vm_compute in H1. injection H1 as <-. vm_compute in H2. discriminate. }
  exists s2. split; [reflexivity|].
  apply (goroutine_ends_after_Stop (L := Samples.sampleLibrary) s2 Samples.beforeRotation).
  - eapply runStop_reachable; [|exact H2]. by apply afterStart_reachable.
  - vm_compute in H1. injection H1 as <-. vm_compute in H2. by injection H2 as <-.
  - vm_compute in H1. injection H1 as <-. vm_compute in H2. by injection H2 as <-.
  - vm_compute in H1. injection H1 as <-. vm_compute in H2. by injection H2 as <-.
Defined.

(** X22.  [Stop] on a reader that was never started panics: the
    channel is nil, nobody holds the mutex, and [close] of a nil channel
    panics. *)
Theorem Stop_before_Start {L : GoLibrary} (s : System) :
  reachable s -> started s = false -> host s = HostIdle ->
  exists s', runStop s = Some s' /\ host s' = HostPanicked CloseOfNilChannel.
Proof.
  intros Hr Hst Hh.
  destruct (reachable_handleInvariant s Hr) as (Hns & _ & _).
  pose proof (reachable_invariant s Hr) as Hinv.
  assert (task s = NotStarted) as Ht by auto.
  assert (mutex s = None) as Hm by (apply mutex_free_idle; [done..|by rewrite Ht]).
  assert (done (reader s) = ChanNil) as Hd by (destruct Hinv as (H & _); auto).
  destruct s as [r mu h t st]. cbn [reader host task mutex started] in *. subst.
  eexists. split; [|shelve].
  unfold runStop, callStop, hostStep, ended, Stop. cbn. rewrite Hd. cbn. reflexivity.
  Unshelve. reflexivity.
Qed.

(** The reader of the samples as configured. *)
Lemma Stop_before_Start_witness :
  host <$> runStop (initial (Samples.config ""))
  = Some (HostPanicked CloseOfNilChannel).
Proof.
  destruct (Stop_before_Start (L := Samples.sampleLibrary) (initial (Samples.config "")))
    as (s' & Hs & Hh); [|reflexivity..|].
  - apply reachable_initial. by repeat split.
  - rewrite Hs. cbn. by rewrite Hh.
Defined.

(** ** A line longer than the buffer of the scanner *)

Lemma startBufSize_le_Max : (bufio.startBufSize <= bufio.MaxScanTokenSize)%nat.
Proof. pose proof startBufSize_fits as H. apply Nat.ltb_ge in H. exact H. Qed.

Lemma IndexByte_None (l : list byte) (c : byte) : bufio.IndexByte l c = None <-> c ∉ l.
Proof.
  induction l as [|b l IH]; cbn [bufio.IndexByte].
  - split; [intros _; apply not_elem_of_nil|done].
  - rewrite not_elem_of_cons. destruct (Ascii.eqb_spec b c) as [->|Hne].
    + split; [discriminate|]. intros [H _]. by destruct H.
    + destruct (bufio.IndexByte l c) as [i|].
      * split; [discriminate|]. intros [_ H]. apply IH in H. discriminate.
      * split; [|done]. intros _. split; [congruence|]. by apply IH.
Qed.

Lemma IndexByte_take (l : list byte) (c : byte) (m n : nat) :
  (m <= n)%nat -> bufio.IndexByte (take n l) c = None -> bufio.IndexByte (take m l) c = None.
Proof.
  rewrite !IndexByte_None. intros Hmn Hn Hm. apply Hn.
  apply elem_of_take in Hm as (i & Hi & Hlt). apply elem_of_take. exists i. split; [done|lia].
Qed.

(** [Read] into a slice that the file can fill. *)
Lemma Read_full (w : os.World) (h : os.File) (k : nat) :
  os.closed h = false -> (0 < k)%nat -> (k <= length (os.unread w h))%nat ->
  os.Read w (Some h) k
  = (take k (os.unread w h), None, Some (os.mkFile (os.ino h) (os.offset h + k) false)).
Proof.
  intros Hc Hk Hlen. unfold os.Read. rewrite Hc.
  destruct k as [|k]; [lia|].
  destruct (os.unread w h) as [|b rest] eqn:Hu; [cbn in Hlen; lia|].
  rewrite length_take_le by done. reflexivity.
Qed.

(** The scanner on bytes without line feed: the buffer is full after
    every read, grows up to [MaxScanTokenSize], and [Scan] gives up. *)
Lemma ScanLoop_too_long (w : os.World) (i off : nat) (fuel n : nat) :
  let D := drop off (os.contents w i) in
  (n <= bufio.MaxScanTokenSize)%nat ->
  (bufio.MaxScanTokenSize <= length D)%nat ->
  bufio.IndexByte (take bufio.MaxScanTokenSize D) LF = None ->
  (bufio.MaxScanTokenSize - n < fuel)%nat ->
  bufio.ScanLoop fuel w (bufio.mkScanner n 0 (take n D) None)
    (Some (os.mkFile i (off + n) false))
  = (None,
     bufio.mkScanner bufio.MaxScanTokenSize 0 (take bufio.MaxScanTokenSize D)
       (Some ErrTooLong),
     Some (os.mkFile i (off + bufio.MaxScanTokenSize) false)).
Proof.
  intros D. revert n. induction fuel as [|fuel IH]; intros n Hn Hlen Hlf Hfuel; [lia|].
  pose proof startBufSize_pos as Hpos. pose proof startBufSize_le_Max as Hle.
  assert (length (take n D) = n) as Hln by (apply length_take_le; lia).
  assert (bufio.ScanLines (take n D) false = (0%nat, None)) as Hscan.
  { unfold bufio.ScanLines. rewrite (IndexByte_take D LF n bufio.MaxScanTokenSize) by done.
    by destruct (take n D). }
  cbn [bufio.ScanLoop bufio.pend bufio.err bufio.start bufio.buf_len].
  rewrite (bool_decide_eq_false_2 (None ≠ None)) by (intros H; by apply H).
  rewrite orb_false_r, Hscan.
  assert ((if negb (Nat.eqb (length (take n D)) 0) then (0%nat, @None (list byte))
           else (0%nat, None)) = (0%nat, None)) as -> by by destruct (negb _).
  cbn [Nat.eqb negb andb]. unfold bufio.end_.
  cbn [bufio.pend bufio.start bufio.buf_len Nat.add]. rewrite Hln, Nat.eqb_refl.
  cbn [andb]. destruct (Nat.leb_spec bufio.MaxScanTokenSize n) as [Hmax|Hmax].
  { assert (n = bufio.MaxScanTokenSize) as -> by lia. reflexivity. }
  set (newSize := if Nat.ltb _ _ then _ else _).
  assert (n < newSize <= bufio.MaxScanTokenSize)%nat as Hnew.
  { subst newSize. destruct (Nat.eqb_spec (n * 2) 0);
      match goal with |- context [Nat.ltb ?a ?b] => destruct (Nat.ltb_spec a b) end; lia. }
  cbv zeta. change (0 + n)%nat with n.
  assert (os.unread w (os.mkFile i (off + n) false) = drop n D) as Hu.
  { unfold os.unread, D. cbn [os.offset os.ino]. by rewrite drop_drop. }
  rewrite (Read_full w (os.mkFile i (off + n) false) (newSize - n)); [|done|lia|].
  2:{ rewrite Hu, length_drop. lia. }
  rewrite Hu, take_take_drop. cbn [os.ino os.offset].
  replace (n + (newSize - n))%nat with newSize by lia.
  replace (off + n + (newSize - n))%nat with (off + newSize)%nat by lia.
  apply IH; try done; lia.
Qed.

(** X23.  When the unread bytes of the file begin with
    [bufio.MaxScanTokenSize] bytes, 64 KiB, without a line feed,
    [readCurrentFile] emits nothing and returns [bufio.ErrTooLong] with
    the count 0; it has taken exactly these bytes off the file, so that
    the next call starts in the middle of the line. *)
Theorem line_too_long {L : GoLibrary} (w : os.World) (r : ltsvLogReader) (h : os.File) :
  file r = Some h -> os.closed h = false ->
  (bufio.MaxScanTokenSize <= length (os.unread w h))%nat ->
  bufio.IndexByte (take bufio.MaxScanTokenSize (os.unread w h)) LF = None ->
  readCurrentFile w r
  = (set_file r (Some (os.mkFile (os.ino h) (os.offset h + bufio.MaxScanTokenSize) false)),
     Returned (0, Some ErrTooLong)).
Proof.
  intros Hf Hc Hlen Hlf. destruct h as [i off c]. cbn [os.closed os.ino os.offset] in *.
  subst c. unfold os.unread in Hlen, Hlf. cbn [os.ino os.offset] in Hlen, Hlf.
  unfold readCurrentFile. rewrite Hf. cbn [bufio.turns readLoop]. rewrite Hf.
  unfold bufio.Scan, bufio.turns, bufio.NewScanner.
  pose proof (ScanLoop_too_long w i off
                (S (S (length (os.unread w (os.mkFile i off false))))) 0) as H.
  cbv zeta in H. rewrite take_0, Nat.add_0_r in H.
  rewrite H; [reflexivity|lia|done|done|].
  unfold os.unread. cbn [os.ino os.offset]. lia.
Qed.

(** The log of the samples that begins with a line of more than 64 KiB. *)
Lemma line_too_long_witness :
  let r := Samples.started "" longLineWorld in
  snd (readCurrentFile (L := Samples.sampleLibrary) longLineWorld r)
  = Returned (0, Some ErrTooLong)
  /\ file (fst (readCurrentFile (L := Samples.sampleLibrary) longLineWorld r))
     = Some (os.mkFile 0 (0 + bufio.MaxScanTokenSize) false)
  /\ acc (fst (readCurrentFile (L := Samples.sampleLibrary) longLineWorld r)) = [].
Proof.
  intros r.
  rewrite (line_too_long (L := Samples.sampleLibrary) longLineWorld r (os.mkFile 0 0 false)).
  - repeat split; reflexivity.
  - vm_compute. reflexivity.
  - reflexivity.
  - apply Nat.leb_le. vm_compute. reflexivity.
  - vm_compute. reflexivity.
Defined.
